(** * eBirdMap: the record extractors, the grouper and the colour scaler

    A shallow embedding of [ebird_map.py] and the properties its
    specification states about it.

    Conventions of the embedding.

    - Python [str] values are modelled as lists of 8-bit characters: the
      code points 0..255 of a Python string.  The character classes below
      ([\s], [\d], [.], line boundaries) are Python's, restricted to that
      range.
    - Python [float] values are IEEE binary64 numbers.  A finite one is
      kept as its sign and its magnitude counted in units of [2^-1074],
      the least positive binary64 number, of which every finite binary64
      number is an integer multiple.  Arithmetic rounds to nearest, ties
      to even, as the hardware does.
    - Operations that can raise return a [result]; the exception is kept
      as a value. *)

From Stdlib Require Import ZArith List Ascii String Lia Bool Permutation.
From Stdlib Require Import DecimalString HexadecimalString.
From Stdlib Require Import Floats.SpecFloat.
From stdpp Require Import base option list strings gmap.

(** ** Exceptions as values *)

Inductive exn : Set :=
| ValueError
| TypeError
| OverflowError
| ZeroDivisionError.

Inductive result (A : Type) : Type :=
| Ok (a : A)
| Raise (e : exn).
Arguments Ok {A} a.
Arguments Raise {A} e.

#[export] Instance result_ret : MRet result := fun A a => Ok a.
#[export] Instance result_bind : MBind result := fun A B f m =>
  match m with
  | Ok a => f a
  | Raise e => Raise e
  end.

(** ** Binary64 numbers *)

Module Float.
Local Open Scope Z_scope.

(** [Fin neg u] is the number [(-1)^neg * u * 2^-1074]. *)
Inductive float : Set :=
| NaN
| Inf (neg : bool)
| Fin (neg : bool) (u : Z).

(** 1.0 counted in units. *)
Definition one_units : Z := 2 ^ 1074.
(** [2^1024] counted in units: the first magnitude that is no longer
    finite. *)
Definition overflow_units : Z := 2 ^ 2098.

(** The integer nearest to [n / d], ties to the even one
    ([0 <= n], [0 < d]). *)
Definition rne_div (n d : Z) : Z :=
  let q := n / d in
  let r := n mod d in
  if 2 * r <? d then q
  else if d <? 2 * r then q + 1
  else if Z.even q then q else q + 1.

(** The binary64 magnitude, in units, nearest to [n / d] units.  Below
    [2^53] units consecutive binary64 numbers are one unit apart; from
    there on a magnitude keeps its 53 leading bits. *)
Definition round_units (n d : Z) : Z :=
  let q := n / d in
  if q <? 2 ^ 53 then rne_div n d
  else
    let sh := Z.log2 q - 52 in
    rne_div n (d * 2 ^ sh) * 2 ^ sh.

(** The binary64 number nearest to [(-1)^neg * n / d] units; infinite from
    [2^1024] on. *)
Definition mk (neg : bool) (n d : Z) : float :=
  let u := round_units n d in
  if overflow_units <=? u then Inf neg else Fin neg u.

Definition sgn (neg : bool) : Z := if neg then -1 else 1.

(** The magnitudes a binary64 number can have. *)
Definition representable (u : Z) : bool :=
  (0 <=? u) && (u <? overflow_units)
  && ((u <? 2 ^ 53) || (u mod 2 ^ (Z.log2 u - 52) =? 0)).

Definition valid (f : float) : bool :=
  match f with
  | Fin _ u => representable u
  | _ => true
  end.

Definition is_nan (f : float) : bool :=
  match f with NaN => true | _ => false end.

(** [float(z)] of a Python [int]. *)
Definition of_int (z : Z) : result float :=
  match mk (z <? 0) (Z.abs z * one_units) 1 with
  | Inf _ => Raise OverflowError
  | f => Ok f
  end.

(** [a * b] on floats. *)
Definition mul (a b : float) : float :=
  match a, b with
  | NaN, _ | _, NaN => NaN
  | Inf s1, Inf s2 => Inf (xorb s1 s2)
  | Inf s1, Fin s2 u | Fin s1 u, Inf s2 =>
      if u =? 0 then NaN else Inf (xorb s1 s2)
  | Fin s1 u1, Fin s2 u2 => mk (xorb s1 s2) (u1 * u2) one_units
  end.

(** [a + b] on floats. *)
Definition add (a b : float) : float :=
  match a, b with
  | NaN, _ | _, NaN => NaN
  | Inf s1, Inf s2 => if Bool.eqb s1 s2 then Inf s1 else NaN
  | Inf s, Fin _ _ | Fin _ _, Inf s => Inf s
  | Fin s1 u1, Fin s2 u2 =>
      let z := sgn s1 * u1 + sgn s2 * u2 in
      if z =? 0 then Fin (s1 && s2) 0
      else mk (z <? 0) (Z.abs z) 1
  end.

(** [int(f)]: truncation toward zero. *)
Definition to_int (f : float) : result Z :=
  match f with
  | NaN => Raise ValueError
  | Inf _ => Raise OverflowError
  | Fin s u => Ok (sgn s * (u / one_units))
  end.

(** [a / b] on Python [int]s: the correctly rounded quotient. *)
Definition truediv (a b : Z) : result float :=
  if b =? 0 then Raise ZeroDivisionError
  else
    match mk (xorb (a <? 0) (b <? 0)) (Z.abs a * one_units) (Z.abs b) with
    | Inf _ => Raise OverflowError
    | f => Ok f
    end.

(** The value of a decimal numeral [m / 10^k] with sign [neg]:
    what [float] makes of the text [-?digits.digits]. *)
Definition of_decimal (neg : bool) (m : Z) (k : Z) : float :=
  mk neg (m * one_units) (10 ^ k).

(** [round(f, 5)]: the exact value is rounded to five decimals, ties to
    even, and the decimal is converted back. *)
Definition round5 (f : float) : result float :=
  match f with
  | Fin s u =>
      let n := rne_div (u * 10 ^ 5) one_units in
      match mk s (n * one_units) (10 ^ 5) with
      | Inf _ => Raise OverflowError
      | r => Ok r
      end
  | _ => Ok f
  end.

(** [a == b]. *)
Definition eqb (a b : float) : bool :=
  match a, b with
  | Inf s1, Inf s2 => Bool.eqb s1 s2
  | Fin s1 u1, Fin s2 u2 =>
      ((u1 =? 0) && (u2 =? 0)) || (Bool.eqb s1 s2 && (u1 =? u2))
  | _, _ => false
  end.

(** [a <= b]. *)
Definition leb (a b : float) : bool :=
  match a, b with
  | NaN, _ | _, NaN => false
  | Inf s1, Inf s2 => s1 || negb s2
  | Inf s, Fin _ _ => s
  | Fin _ _, Inf s => negb s
  | Fin s1 u1, Fin s2 u2 => sgn s1 * u1 <=? sgn s2 * u2
  end.

(** [bool(f)]: only the two zeros are false. *)
Definition truthy (f : float) : bool :=
  match f with
  | Fin _ u => negb (u =? 0)
  | _ => true
  end.

(** The same number in the Standard Library's description of IEEE 754
    values: mantissa and binary exponent. *)
Definition to_spec (f : float) : spec_float :=
  match f with
  | NaN => S754_nan
  | Inf s => S754_infinity s
  | Fin s u =>
      let sh := Z.max 0 (Z.log2 u - 52) in
      match u / 2 ^ sh with
      | Zpos m => S754_finite s m (sh - 1074)
      | _ => S754_zero s
      end
  end.

End Float.

(** ** Text *)

Module Text.

Definition str : Type := list ascii.

(** A literal. *)
Definition txt (s : string) : str := list_ascii_of_string s.

Definition code (a : ascii) : N := N_of_ascii a.

Definition in_range (lo hi : N) (a : ascii) : bool :=
  ((lo <=? code a) && (code a <=? hi))%N.

(** [\s] and [str.isspace]: tab to carriage return, the four separators
    28..31, space, NEL and the no-break space. *)
Definition is_space (a : ascii) : bool :=
  in_range 9 13 a || in_range 28 31 a || in_range 32 32 a
  || in_range 133 133 a || in_range 160 160 a.

(** [\d]. *)
Definition is_digit (a : ascii) : bool := in_range 48 57 a.
(** [[A-Z]] and [[a-z]]. *)
Definition is_upper (a : ascii) : bool := in_range 65 90 a.
Definition is_lower (a : ascii) : bool := in_range 97 122 a.
(** [.]: any character but the line feed. *)
Definition is_dot (a : ascii) : bool := negb (in_range 10 10 a).
(** The characters at which [str.splitlines] cuts. *)
Definition is_linebreak (a : ascii) : bool :=
  in_range 10 13 a || in_range 28 30 a || in_range 133 133 a.

Definition is_char (c a : ascii) : bool := Ascii.eqb c a.

(** The double quote, code point 34. *)
Definition quote : ascii := ascii_of_nat 34.

Fixpoint drop_while (p : ascii -> bool) (s : str) : str :=
  match s with
  | [] => []
  | a :: t => if p a then drop_while p t else s
  end.

Fixpoint take_while (p : ascii -> bool) (s : str) : str :=
  match s with
  | [] => []
  | a :: t => if p a then a :: take_while p t else []
  end.

(** [s.lstrip(chars)], [s.rstrip(chars)] and [s.strip(chars)], the set
    of characters given as a predicate. *)
Definition lstrip_by (p : ascii -> bool) (s : str) : str := drop_while p s.
Definition rstrip_by (p : ascii -> bool) (s : str) : str :=
  rev (drop_while p (rev s)).
Definition strip_by (p : ascii -> bool) (s : str) : str :=
  rstrip_by p (lstrip_by p s).

(** [s.strip()]. *)
Definition strip (s : str) : str := strip_by is_space s.

(** [s.startswith(p)]. *)
Fixpoint startswith (p s : str) : bool :=
  match p, s with
  | [], _ => true
  | a :: p', b :: s' => Ascii.eqb a b && startswith p' s'
  | _ :: _, [] => false
  end.

(** [s.split(":", 1)[-1]]: what follows the first colon, or all of [s]
    when it has none. *)
Fixpoint after_colon_from (s whole : str) : str :=
  match s with
  | [] => whole
  | a :: t => if is_char ":" a then t else after_colon_from t whole
  end.
Definition after_first_colon (s : str) : str := after_colon_from s s.

(** [s.splitlines()]: [cur] holds the line being read, reversed. *)
Fixpoint splitlines_from (cur : str) (s : str) : list str :=
  match s with
  | [] => match cur with [] => [] | _ => [rev cur] end
  | a :: t =>
      if is_char "013" a then
        match t with
        | b :: t' =>
            if is_char "010" b then rev cur :: splitlines_from [] t'
            else rev cur :: splitlines_from [] t
        | [] => rev cur :: splitlines_from [] t
        end
      else if is_linebreak a then rev cur :: splitlines_from [] t
      else splitlines_from (a :: cur) t
  end.
Definition splitlines (s : str) : list str := splitlines_from [] s.

(** The number a string of decimal digits denotes. *)
Definition digit_value (a : ascii) : Z := Z.of_N (code a) - 48.
Definition digits_value (s : str) : Z :=
  fold_left (fun acc a => 10 * acc + digit_value a)%Z s 0%Z.

(** [float(s)] for a text [-?digits[.digits]] or [-?.digits].  Python
    accepts further spellings (exponents, [inf], [nan], underscores,
    blanks around the numeral); they are answered with [ValueError]
    here, so that a proof that this function returns covers the real
    one. *)
Definition py_float (s : str) : result Float.float :=
  let neg := startswith (txt "-") s in
  let body := if neg then drop 1 s else s in
  let ip := take_while is_digit body in
  let rest := drop_while is_digit body in
  match rest with
  | [] =>
      match ip with
      | [] => Raise ValueError
      | _ => Ok (Float.of_decimal neg (digits_value ip) 0)
      end
  | a :: fp =>
      if is_char "." a && forallb is_digit fp
         && negb (Nat.eqb (length ip + length fp) 0)
      then Ok (Float.of_decimal neg (digits_value (ip ++ fp))
                 (Z.of_nat (length fp)))
      else Raise ValueError
  end.

End Text.

(** ** Regular expressions, matched as [re] does: by backtracking *)

Module Regex.
Import Text.

Inductive regex : Type :=
| Eps
| Class (p : ascii -> bool)
| Cat (r1 r2 : regex)
| Alt (r1 r2 : regex)
| Star (greedy : bool) (r : regex)
| Group (n : nat) (r : regex)
| NotAhead (r : regex)
| Eol.

(** [r+], [r+?], [r?] and a sequence. *)
Definition Plus (greedy : bool) (r : regex) : regex := Cat r (Star greedy r).
Definition Opt (r : regex) : regex := Alt r Eps.
Definition cat (rs : list regex) : regex := fold_right Cat Eps rs.
(** A literal text, and one matched under [re.IGNORECASE]. *)
Definition lit (w : str) : regex := cat (map (fun c => Class (is_char c)) w).
Definition same_letter (c a : ascii) : bool :=
  is_char c a
  || (is_lower c && N.eqb (code a + 32) (code c))
  || (is_upper c && N.eqb (code a) (code c + 32)).
Definition lit_ci (w : str) : regex :=
  cat (map (fun c => Class (same_letter c)) w).

(** The groups that took part in a match, by number. *)
Abbreviation caps := (gmap nat str).

(** [$]: the end of the text, or just before a line feed that ends it. *)
Definition at_end (s : str) : bool :=
  match s with
  | [] => true
  | a :: [] => is_char "010" a
  | _ => false
  end.

Definition orelse {A} (x y : option A) : option A :=
  match x with Some _ => x | None => y end.

(** A repetition.  [step] matches the body once and hands what is left
    to its continuation; an iteration that consumes nothing is not
    repeated.  A greedy repetition tries a further iteration before it
    tries to stop, a lazy one the other way round. *)
Fixpoint star_loop {A} (greedy : bool)
    (step : str -> caps -> (str -> caps -> option A) -> option A)
    (fuel : nat) (s : str) (c : caps)
    (k : str -> caps -> option A) : option A :=
  match fuel with
  | O => k s c
  | S fuel' =>
      let more :=
        step s c (fun s' c' =>
          if (length s' <? length s)%nat
          then star_loop greedy step fuel' s' c' k
          else None) in
      if greedy then orelse more (k s c) else orelse (k s c) more
  end.

(** [rmatch r s c k]: match [r] at the front of [s], then run [k] on the
    rest; alternatives are tried in the order [re] tries them and the
    first that makes [k] succeed wins. *)
Fixpoint rmatch {A} (r : regex) (s : str) (c : caps)
    (k : str -> caps -> option A) : option A :=
  match r with
  | Eps => k s c
  | Class p =>
      match s with
      | a :: s' => if p a then k s' c else None
      | [] => None
      end
  | Cat r1 r2 => rmatch r1 s c (fun s' c' => rmatch r2 s' c' k)
  | Alt r1 r2 => orelse (rmatch r1 s c k) (rmatch r2 s c k)
  | Star g r1 => star_loop g (rmatch r1) (length s) s c k
  | Group n r1 =>
      rmatch r1 s c (fun s' c' =>
        k s' (<[n := take (length s - length s') s]> c'))
  | NotAhead r1 =>
      match rmatch r1 s c (fun _ c' => Some c') with
      | Some _ => None
      | None => k s c
      end
  | Eol => if at_end s then k s c else None
  end.

(** [re.match(r, s)] and [re.search(r, s)]. *)
Definition re_match (r : regex) (s : str) : option caps :=
  rmatch r s ∅ (fun _ c => Some c).

(** [re.match(r, s)] together with what follows the match
    ([s[m.end():]]). *)
Definition re_match_rest (r : regex) (s : str) : option (caps * str) :=
  rmatch r s ∅ (fun s' c => Some (c, s')).

Fixpoint re_search (r : regex) (s : str) : option caps :=
  match re_match r s with
  | Some c => Some c
  | None =>
      match s with
      | [] => None
      | _ :: s' => re_search r s'
      end
  end.

(** [m.group(n)]: [None] for a group that took no part. *)
Definition group (m : caps) (n : nat) : option str := m !! n.

End Regex.

(** ** The text record extractor ([parse_sightings]) *)

Module Extract.
Import Text Regex.

(** A sighting: the dictionary with the eleven keys the extractors
    fill.  [lat] and [lon] are [None] until a map line sets them. *)
Record sighting : Type := Sighting {
  species : str;
  scientific : str;
  count : str;
  confirmed : bool;
  location : str;
  lat : option Float.float;
  lon : option Float.float;
  date : str;
  observer : str;
  comments : str;
  checklist : str
}.

Definition chr (c : ascii) : regex := Class (is_char c).

(** [^(?!- )(.+?)\s+\(([A-Z][a-z].*?)\)\s*(?:\((\d+)\))?\s*(CONFIRMED)?$];
    [re.match] starts at the front of the line, where [^] holds. *)
Definition header_re : regex :=
  cat [ NotAhead (lit (txt "- "));
        Group 1 (Plus false (Class is_dot));
        Plus true (Class is_space);
        chr "(";
        Group 2 (cat [Class is_upper; Class is_lower;
                      Star false (Class is_dot)]);
        chr ")";
        Star true (Class is_space);
        Opt (cat [chr "("; Group 3 (Plus true (Class is_digit)); chr ")"]);
        Star true (Class is_space);
        Opt (Group 4 (lit (txt "CONFIRMED")));
        Eol ].

(** [- Reported (.+?) by (.+)$]. *)
Definition reported_re : regex :=
  cat [ lit (txt "- Reported ");
        Group 1 (Plus false (Class is_dot));
        lit (txt " by ");
        Group 2 (Plus true (Class is_dot));
        Eol ].

(** [-?\d+\.?\d*]. *)
Definition number_re : regex :=
  cat [ Opt (chr "-"); Plus true (Class is_digit); Opt (chr ".");
        Star true (Class is_digit) ].

(** [q=], then two numbers in groups 1 and 2 with a comma between:
    the pattern of [re.search] on a map line. *)
Definition coords_re : regex :=
  cat [ lit (txt "q="); Group 1 number_re; chr ","; Group 2 number_re ].

(** The accumulator [current]: [None] is the empty dictionary. *)
Definition state : Type := list sighting * option sighting.

(** [current.get("lat")] taken as a condition. *)
Definition lat_truthy (cur : option sighting) : bool :=
  match cur with
  | Some r =>
      match lat r with
      | Some f => Float.truthy f
      | None => false
      end
  | None => false
  end.

(** [current.get("lat") is None]. *)
Definition lat_is_none (cur : option sighting) : bool :=
  match cur with
  | Some r => match lat r with Some _ => false | None => true end
  | None => true
  end.

(** [if current.get("lat"): sightings.append(current)]. *)
Definition flush (out : list sighting) (cur : option sighting)
  : list sighting :=
  match cur with
  | Some r => if lat_truthy cur then out ++ [r] else out
  | None => out
  end.

(** [x or "?"] for an optional group. *)
Definition or_question (g : option str) : str :=
  match g with
  | Some (a :: t) => a :: t
  | _ => txt "?"
  end.

(** [bool(x)] for an optional group. *)
Definition group_truthy (g : option str) : bool :=
  match g with
  | Some (_ :: _) => true
  | _ => false
  end.

(** The record a header match starts.  Groups 1 and 2 take part in
    every match of [header_re]. *)
Definition new_record (m : caps) : sighting :=
  {| species := default [] (group m 1);
     scientific := default [] (group m 2);
     count := or_question (group m 3);
     confirmed := group_truthy (group m 4);
     location := [];
     lat := None;
     lon := None;
     date := [];
     observer := [];
     comments := [];
     checklist := [] |}.

Definition set_reported (r : sighting) (d o : str) : sighting :=
  {| species := species r; scientific := scientific r; count := count r;
     confirmed := confirmed r; location := location r;
     lat := lat r; lon := lon r;
     date := d; observer := o;
     comments := comments r; checklist := checklist r |}.

Definition set_lat (r : sighting) (f : Float.float) : sighting :=
  {| species := species r; scientific := scientific r; count := count r;
     confirmed := confirmed r; location := location r;
     lat := Some f; lon := lon r;
     date := date r; observer := observer r;
     comments := comments r; checklist := checklist r |}.

Definition set_lon (r : sighting) (f : Float.float) : sighting :=
  {| species := species r; scientific := scientific r; count := count r;
     confirmed := confirmed r; location := location r;
     lat := lat r; lon := Some f;
     date := date r; observer := observer r;
     comments := comments r; checklist := checklist r |}.

Definition set_checklist (r : sighting) (s : str) : sighting :=
  {| species := species r; scientific := scientific r; count := count r;
     confirmed := confirmed r; location := location r;
     lat := lat r; lon := lon r;
     date := date r; observer := observer r;
     comments := comments r; checklist := s |}.

Definition set_comments (r : sighting) (s : str) : sighting :=
  {| species := species r; scientific := scientific r; count := count r;
     confirmed := confirmed r; location := location r;
     lat := lat r; lon := lon r;
     date := date r; observer := observer r;
     comments := s; checklist := checklist r |}.

Definition set_location (r : sighting) (s : str) : sighting :=
  {| species := species r; scientific := scientific r; count := count r;
     confirmed := confirmed r; location := s;
     lat := lat r; lon := lon r;
     date := date r; observer := observer r;
     comments := comments r; checklist := checklist r |}.

(** [float(m.group(n))]. *)
Definition float_of_group (m : caps) (n : nat) : result Float.float :=
  match group m n with
  | Some g => py_float g
  | None => Raise TypeError
  end.

Definition nonempty (s : str) : bool :=
  match s with [] => false | _ => true end.

(** The characters [line.lstrip("- ")] removes. *)
Definition dash_or_blank (a : ascii) : bool :=
  is_char "-" a || is_char " " a.

(** The lines below a header, for a record [r] under construction. *)
Definition field_line (out : list sighting) (r : sighting) (line : str)
  : result state :=
  if startswith (txt "- Reported ") line then
    match re_match reported_re line with
    | Some rm =>
        Ok (out, Some (set_reported r (default [] (group rm 1))
                                      (default [] (group rm 2))))
    | None => Ok (out, Some r)
    end
  else if startswith (txt "- Map:") line then
    match re_search coords_re line with
    | Some cm =>
        la ← float_of_group cm 1;
        lo ← float_of_group cm 2;
        Ok (out, Some (set_lon (set_lat r la) lo))
    | None => Ok (out, Some r)
    end
  else if startswith (txt "- Checklist:") line then
    Ok (out, Some (set_checklist r (strip (after_first_colon line))))
  else if startswith (txt "- Comments:") line then
    Ok (out, Some (set_comments r
          (strip_by (is_char quote) (strip (after_first_colon line)))))
  else if negb (startswith (txt "- Media:") line)
          && negb (startswith (txt "- Map:") line)
          && negb (startswith (txt "***") line)
          && negb (startswith (txt "---") line)
          && lat_is_none (Some r)
          && startswith (txt "- ") line then
    let loc := strip (lstrip_by dash_or_blank line) in
    if nonempty loc && negb (nonempty (location r))
    then Ok (out, Some (set_location r loc))
    else Ok (out, Some r)
  else Ok (out, Some r).

(** One turn of the loop over the lines. *)
Definition process_line (st : state) (raw : str) : result state :=
  let line := strip raw in
  match re_match header_re line with
  | Some m => Ok (flush (fst st) (snd st), Some (new_record m))
  | None =>
      match snd st with
      | None => Ok st
      | Some r => field_line (fst st) r line
      end
  end.

Fixpoint run_lines (st : state) (lines : list str) : result state :=
  match lines with
  | [] => Ok st
  | l :: rest => st' ← process_line st l; run_lines st' rest
  end.

Definition parse_sightings (body : str) : result (list sighting) :=
  st ← run_lines ([], None) (splitlines body);
  Ok (flush (fst st) (snd st)).

End Extract.

(** ** Calendar dates, [strptime] and [strftime] *)

Module Dates.
Import Text Regex.
Local Open Scope Z_scope.

(** A [date] is kept as its proleptic Gregorian ordinal, the number
    [date.toordinal()] gives: dates compare and subtract as their
    ordinals do. *)
Definition date : Type := Z.

Record datetime : Type := Datetime {
  year : Z; month : Z; day : Z; hour : Z; minute : Z
}.

Definition is_leap (y : Z) : bool :=
  (y mod 4 =? 0) && (negb (y mod 100 =? 0) || (y mod 400 =? 0)).

Definition days_before_year (y : Z) : Z :=
  let p := y - 1 in p * 365 + p / 4 - p / 100 + p / 400.

Definition days_in_month (y m : Z) : Z :=
  if (m =? 2) && is_leap y then 29
  else nth (Z.to_nat m) [0; 31; 28; 31; 30; 31; 30; 31; 31; 30; 31; 30; 31] 0.

Definition days_before_month (y m : Z) : Z :=
  nth (Z.to_nat m) [0; 0; 31; 59; 90; 120; 151; 181; 212; 243; 273; 304; 334] 0
  + (if (2 <? m) && is_leap y then 1 else 0).

Definition ymd2ord (y m d : Z) : Z :=
  days_before_year y + days_before_month y m + d.

(** What the [date] constructor accepts. *)
Definition valid_date (y m d : Z) : bool :=
  (1 <=? y) && (y <=? 9999) && (1 <=? m) && (m <=? 12)
  && (1 <=? d) && (d <=? days_in_month y m).

(** [date.max.toordinal()]. *)
Definition max_ordinal : Z := 3652059.

(** [dt.date()]. *)
Definition date_of (dt : datetime) : date :=
  ymd2ord (year dt) (month dt) (day dt).

(** [d - timedelta(days=n)]: [timedelta] takes at most 999999999 days
    and the difference has to be a date again. *)
Definition minus_days (d : date) (n : Z) : result date :=
  if 999999999 <? Z.abs n then Raise OverflowError
  else
    let r := d - n in
    if (1 <=? r) && (r <=? max_ordinal) then Ok r else Raise OverflowError.

(** A format, directive by directive.  [Blank] stands for a run of
    blanks in the format text, [Lit c] for any other character. *)
Inductive fitem : Set :=
| FY | Fm | Fd | FH | FM | Fb
| Blank
| Lit (c : ascii).

Definition format : Type := list fitem.

(** The numbers of the groups named Y, m, d, H, M and b. *)
Definition gY : nat := 1.
Definition gm : nat := 2.
Definition gd : nat := 3.
Definition gH : nat := 4.
Definition gM : nat := 5.
Definition gb : nat := 6.

Definition rng (lo hi : ascii) : regex :=
  Class (in_range (code lo) (code hi)).
Definition chr (c : ascii) : regex := Class (is_char c).

Fixpoint alts (rs : list regex) : regex :=
  match rs with
  | [] => NotAhead Eps
  | r :: [] => r
  | r :: t => Alt r (alts t)
  end.

Definition month_abbr : list string :=
  ["jan"; "feb"; "mar"; "apr"; "may"; "jun";
   "jul"; "aug"; "sep"; "oct"; "nov"; "dec"]%string.

Definition month_name : list string :=
  ["Jan"; "Feb"; "Mar"; "Apr"; "May"; "Jun";
   "Jul"; "Aug"; "Sep"; "Oct"; "Nov"; "Dec"]%string.

(** The pattern [_strptime] compiles for a directive, under
    [re.IGNORECASE], in the C locale. *)
Definition item_regex (i : fitem) : regex :=
  match i with
  | FY => Group gY (cat [Class is_digit; Class is_digit;
                         Class is_digit; Class is_digit])
  | Fm => Group gm (alts [cat [chr "1"; rng "0" "2"];
                          cat [chr "0"; rng "1" "9"];
                          rng "1" "9"])
  | Fd => Group gd (alts [cat [chr "3"; rng "0" "1"];
                          cat [rng "1" "2"; Class is_digit];
                          cat [chr "0"; rng "1" "9"];
                          rng "1" "9";
                          cat [chr " "; rng "1" "9"]])
  | FH => Group gH (alts [cat [chr "2"; rng "0" "3"];
                          cat [rng "0" "1"; Class is_digit];
                          Class is_digit])
  | FM => Group gM (alts [cat [rng "0" "5"; Class is_digit];
                          Class is_digit])
  | Fb => Group gb (alts (map (fun w => lit_ci (txt w)) month_abbr))
  | Blank => Plus true (Class is_space)
  | Lit c => Class (same_letter c)
  end.

Definition format_regex (f : format) : regex := cat (map item_regex f).

(** [int(s)] for the text of a numeric group (blanks around the digits
    are ignored). *)
Definition int_of (s : str) : Z := digits_value (strip s).

Definition lower (a : ascii) : ascii :=
  if is_upper a then ascii_of_N (code a + 32) else a.

Fixpoint index_of (w : str) (l : list string) (i : Z) : Z :=
  match l with
  | [] => i
  | x :: t => if startswith w (txt x) && startswith (txt x) w then i
              else index_of w t (i + 1)
  end.

Definition field (m : caps) (g : nat) (dflt : Z) : Z :=
  match group m g with
  | Some s => int_of s
  | None => dflt
  end.

(** [datetime.strptime(data, f)]: the pattern has to match at the front
    of [data] and leave nothing over, and the fields have to make a
    date; anything else is a [ValueError]. *)
Definition strptime (data : str) (f : format) : result datetime :=
  match re_match_rest (format_regex f) data with
  | None => Raise ValueError
  | Some (m, rest) =>
      match rest with
      | _ :: _ => Raise ValueError
      | [] =>
          let y := field m gY 1900 in
          let mo :=
            match group m gb with
            | Some w => index_of (map lower w) month_abbr 1
            | None => field m gm 1
            end in
          let d := field m gd 1 in
          if valid_date y mo d
          then Ok {| year := y; month := mo; day := d;
                     hour := field m gH 0; minute := field m gM 0 |}
          else Raise ValueError
      end
  end.

(** Decimal digits of a number that is not negative, padded with zeros
    to [w] places. *)
Definition decimal (z : Z) : str :=
  txt (DecimalString.NilZero.string_of_uint (N.to_uint (Z.to_N z))).
Definition padded (w : nat) (z : Z) : str :=
  let s := decimal z in
  repeat "0"%char (w - length s) ++ s.

(** [dt.strftime(f)] in the C locale.  The text is the C library's:
    [%m], [%d], [%H] and [%M] take two places; [%Y] is the year as
    glibc writes it, without leading zeros, so that the year 999 takes
    three places. *)
Definition strftime_item (dt : datetime) (i : fitem) : str :=
  match i with
  | FY => decimal (year dt)
  | Fm => padded 2 (month dt)
  | Fd => padded 2 (day dt)
  | FH => padded 2 (hour dt)
  | FM => padded 2 (minute dt)
  | Fb => txt (nth (Z.to_nat (month dt - 1)) month_name EmptyString)
  | Blank => txt " "
  | Lit c => [c]
  end.

Definition strftime (dt : datetime) (f : format) : str :=
  concat (map (strftime_item dt) f).

(** ["%Y-%m-%d %H:%M"] and ["%Y-%m-%d"]. *)
Definition fmt_iso_minutes : format :=
  [FY; Lit "-"; Fm; Lit "-"; Fd; Blank; FH; Lit ":"; FM].
Definition fmt_iso_date : format :=
  [FY; Lit "-"; Fm; Lit "-"; Fd].
(** ["%b %d, %Y %H:%M"] and ["%b %d, %Y"]. *)
Definition fmt_display : format :=
  [Fb; Blank; Fd; Lit ","; Blank; FY; Blank; FH; Lit ":"; FM].
Definition fmt_display_date : format :=
  [Fb; Blank; Fd; Lit ","; Blank; FY].

End Dates.

(** ** The API record extractor (the loop of [fetch_sightings]) *)

Module Api.
Import Text Dates.

(** A decoded JSON value. *)
#[local] Set Warnings "-register-all".
Inductive json : Type :=
| JNull
| JBool (b : bool)
| JInt (z : Z)
| JFloat (f : Float.float)
| JStr (s : str)
| JArr (l : list json)
| JObj (l : list (string * json)).

(** [bool(v)]. *)
Definition truthy (v : json) : bool :=
  match v with
  | JNull => false
  | JBool b => b
  | JInt z => negb (z =? 0)%Z
  | JFloat f => Float.truthy f
  | JStr s => match s with [] => false | _ => true end
  | JArr l => match l with [] => false | _ => true end
  | JObj l => match l with [] => false | _ => true end
  end.

(** [a and b]: the first operand when it is false, else the second. *)
Definition py_and (a b : json) : json := if truthy a then b else a.

(** An observation: a JSON object. *)
Abbreviation obs := (gmap string json).

(** [o.get(k, d)]; [o.get(k)] is [get o k JNull]. *)
Definition get (o : obs) (k : string) (d : json) : json := default d (o !! k).

Definition is_none (v : json) : bool :=
  match v with JNull => true | _ => false end.

(** The record made of an observation. *)
Record sighting : Type := Sighting {
  species : json;
  scientific : json;
  count : str;
  confirmed : json;
  location : json;
  lat : option Float.float;
  lon : option Float.float;
  date : str;
  observer : json;
  comments : str;
  checklist : str
}.

(** [reviewed and valid] of lines 144 to 146. *)
Definition obs_confirmed (o : obs) : json :=
  py_and (get o "obsReviewed" (JBool false)) (get o "obsValid" (JBool false)).

(** The loop over the two formats: the first that parses gives the
    date, a [ValueError] moves on to the next, and [date_str] stays
    empty when none is left. *)
Fixpoint try_formats (obs_dt : str) (fmts : list format) : result str :=
  match fmts with
  | [] => Ok []
  | f :: rest =>
      match strptime obs_dt f with
      | Ok dt => Ok (strftime dt fmt_display)
      | Raise ValueError => try_formats obs_dt rest
      | Raise e => Raise e
      end
  end.

(** [date_str] for a source date that is a string. *)
Definition reformat_date (obs_dt : str) : result str :=
  match obs_dt with
  | [] => Ok []
  | _ => try_formats obs_dt [fmt_iso_minutes; fmt_iso_date]
  end.

(** [date_str] for whatever the observation holds under [obsDt]:
    [strptime] refuses what is not a string. *)
Definition obs_date (o : obs) : result str :=
  match get o "obsDt" (JStr []) with
  | JStr s => reformat_date s
  | v => if truthy v then Raise TypeError else Ok []
  end.

Section Adapter.

(** [str(v)] and [float(v)] of a JSON value are the interpreter's; the
    adapter is read for any behaviour of theirs. *)
Variable py_str : json -> str.
Variable py_float_of : json -> result Float.float.

Definition obs_count (o : obs) : str :=
  if truthy (get o "howMany" JNull)
  then py_str (get o "howMany" (JStr (txt "?")))
  else txt "?".

Definition obs_checklist (o : obs) : str :=
  let sub_id := get o "subId" (JStr []) in
  if truthy sub_id
  then txt "https://ebird.org/checklist/" ++ py_str sub_id
  else [].

(** One turn of the loop: [None] when the observation is skipped. *)
Definition obs_record (o : obs) : result (option sighting) :=
  let la := get o "lat" JNull in
  let ln := get o "lng" JNull in
  if is_none la || is_none ln then Ok None
  else
    date_str ← obs_date o;
    flat ← py_float_of la;
    flon ← py_float_of ln;
    Ok (Some {| species := get o "comName" (JStr (txt "Unknown"));
                scientific := get o "sciName" (JStr []);
                count := obs_count o;
                confirmed := obs_confirmed o;
                location := get o "locName" (JStr []);
                lat := Some flat;
                lon := Some flon;
                date := date_str;
                observer := get o "userDisplayName" (JStr []);
                comments := [];
                checklist := obs_checklist o |}).

Fixpoint obs_records (data : list obs) : result (list sighting) :=
  match data with
  | [] => Ok []
  | o :: rest =>
      r ← obs_record o;
      rs ← obs_records rest;
      Ok (match r with Some x => x :: rs | None => rs end)
  end.

End Adapter.

End Api.

(** ** The grouper ([group_sightings]) *)

Module Group.

Definition key : Type := Float.float * Float.float.

(** Equality of two keys as the dictionary sees it. *)
Definition key_eqb (a b : key) : bool :=
  Float.eqb (fst a) (fst b) && Float.eqb (snd a) (snd b).

Section Grouper.

(** The grouper reads two entries of a record, ["lat"] and ["lon"]. *)
Context {A : Type}.
Variable lat lon : A -> option Float.float.

(** [round(x, 5)] of an entry; [None] is refused. *)
Definition round_entry (x : option Float.float) : result Float.float :=
  match x with
  | Some f => Float.round5 f
  | None => Raise TypeError
  end.

(** [(round(s["lat"], 5), round(s["lon"], 5))]. *)
Definition key_of (s : A) : result key :=
  a ← round_entry (lat s);
  b ← round_entry (lon s);
  Ok (a, b).

(** The dictionary, in insertion order. *)
Definition groups : Type := list (key * list A).

(** [groups[k].append(s)] on a [defaultdict(list)]. *)
Fixpoint append_to (g : groups) (k : key) (s : A) : groups :=
  match g with
  | [] => [(k, [s])]
  | (k', l) :: rest =>
      if key_eqb k' k then (k', l ++ [s]) :: rest
      else (k', l) :: append_to rest k s
  end.

Fixpoint group_from (g : groups) (l : list A) : result groups :=
  match l with
  | [] => Ok g
  | s :: rest => k ← key_of s; group_from (append_to g k s) rest
  end.

Definition group_sightings (l : list A) : result groups := group_from [] l.

End Grouper.

End Group.

(** ** The colour scaler ([age_color]) *)

Module Color.
Import Text.
Local Open Scope Z_scope.

(** [int(newest + (oldest - newest) * age_fraction)]. *)
Definition channel (newest oldest : Z) (age_fraction : Float.float)
  : result Z :=
  d ← Float.of_int (oldest - newest);
  n ← Float.of_int newest;
  Float.to_int (Float.add n (Float.mul d age_fraction)).

Definition hex (z : Z) : str :=
  txt (HexadecimalString.NilZero.string_of_uint (N.to_hex_uint (Z.to_N z))).

(** The format [02x]: lower-case hexadecimal, the sign first, zeros
    after it up to a width of two. *)
Definition fmt_02x (z : Z) : str :=
  let sign := if z <? 0 then txt "-" else [] in
  let digits := hex (Z.abs z) in
  sign ++ repeat "0"%char (2 - length sign - length digits) ++ digits.

Definition age_color (age_fraction : Float.float) : result str :=
  r ← channel 231 44 age_fraction;
  g ← channel 76 62 age_fraction;
  b ← channel 60 80 age_fraction;
  Ok (txt "#" ++ fmt_02x r ++ fmt_02x g ++ fmt_02x b).

End Color.

(** ** The date span and the age fractions of [generate_map] *)

Module Span.
Import Text Dates.
Local Open Scope Z_scope.

(** [parse_reported_date]: the first of the two display formats that
    parses the trimmed text gives the date. *)
Fixpoint parse_with (s : str) (fmts : list format) : result (option date) :=
  match fmts with
  | [] => Ok None
  | f :: rest =>
      match strptime (strip s) f with
      | Ok dt => Ok (Some (date_of dt))
      | Raise ValueError => parse_with s rest
      | Raise e => Raise e
      end
  end.

Definition parse_reported_date (date_str : str) : result (option date) :=
  parse_with date_str [fmt_display; fmt_display_date].

(** [[d for d in (parse_reported_date(x) for x in ...) if d]]. *)
Fixpoint parsed_dates (strs : list str) : result (list date) :=
  match strs with
  | [] => Ok []
  | x :: rest =>
      d ← parse_reported_date x;
      ds ← parsed_dates rest;
      Ok (match d with Some v => v :: ds | None => ds end)
  end.

(** [max(ds) if ds else None] and [min(ds) if ds else None]. *)
Definition newest_of (ds : list date) : option date :=
  match ds with
  | [] => None
  | d :: rest => Some (fold_left Z.max rest d)
  end.
Definition oldest_of (ds : list date) : option date :=
  match ds with
  | [] => None
  | d :: rest => Some (fold_left Z.min rest d)
  end.

(** [days and days > 1]. *)
Definition days_given (days : option Z) : bool :=
  match days with
  | Some d => negb (d =? 0) && (1 <? d)
  | None => false
  end.

(** [date_span], lines 252 to 255. *)
Definition date_span (days : option Z) (ds : list date) : Z :=
  if days_given days then default 0 days
  else
    match newest_of ds, oldest_of ds with
    | Some n, Some o => if negb (n =? o) then n - o else 1
    | _, _ => 1
    end.

(** [age_frac] of a group whose parseable dates are [group_dates]
    (line 266); [0] stands for the integer the source uses when no
    date parses at all: it gives the same colour. *)
Definition age_frac (days : option Z) (ds group_dates : list date)
  : result Float.float :=
  match newest_of ds with
  | Some n =>
      let group_newest := default n (newest_of group_dates) in
      Float.truediv (n - group_newest) (date_span days ds)
  | None => Ok (Float.Fin false 0)
  end.

(** [frac] of a legend entry [d] (line 283). *)
Definition legend_frac (days : option Z) (ds : list date) (d : date)
  : result Float.float :=
  match newest_of ds with
  | Some n => Float.truediv (n - d) (date_span days ds)
  | None => Raise TypeError
  end.

(** The colour of the marker of a group, from the date texts of all
    records and of the records of the group. *)
Definition marker_color (days : option Z) (all_dates group : list str)
  : result str :=
  ds ← parsed_dates all_dates;
  gs ← parsed_dates group;
  f ← age_frac days ds gs;
  Color.age_color f.

End Span.

(** ** The day-count filter of [main] *)

Module Filter.
Import Text Dates.
Local Open Scope Z_scope.

(** An entry of [parsed_emls]: path, subject, records, send date. *)
Record eml : Type := Eml {
  path : str;
  subject : str;
  sightings : list Extract.sighting;
  send_date : option date
}.

Definition send_dates (l : list eml) : list date :=
  omap send_date l.

(** [max(e[3] for e in parsed_emls if e[3])]. *)
Definition newest_date (l : list eml) : result date :=
  match Span.newest_of (send_dates l) with
  | Some d => Ok d
  | None => Raise ValueError
  end.

(** [e[3] and e[3] >= cutoff]. *)
Definition recent (cutoff : date) (e : eml) : bool :=
  match send_date e with
  | Some d => cutoff <=? d
  | None => false
  end.

(** Lines 434 to 448: the entries kept. *)
Definition filter_by_days (days : option Z) (parsed : list eml)
  : result (list eml) :=
  newest ← newest_date parsed;
  match days with
  | Some n =>
      cutoff ← minus_days newest (n - 1);
      Ok (List.filter (recent cutoff) parsed)
  | None => Ok parsed
  end.

(** Lines 450 to 456: the records of the entries kept, each with the
    send date of its entry under ["email_date"]. *)
Definition tagged (e : eml) : list (Extract.sighting * option date) :=
  map (fun s => (s, send_date e)) (sightings e).

Definition all_sightings (kept : list eml)
  : list (Extract.sighting * option date) :=
  concat (map tagged kept).

Definition surviving (days : option Z) (parsed : list eml)
  : result (list (Extract.sighting * option date)) :=
  kept ← filter_by_days days parsed;
  Ok (all_sightings kept).

End Filter.
(** ** Definitions the statements about the colour scaler use *)

Module ColorSpec.
Import Text.
Local Open Scope Z_scope.

(** The exact value of [newest + (oldest - newest) * f], in units. *)
Definition exact_units (newest oldest : Z) (f : Float.float) : Z :=
  match f with
  | Float.Fin s u =>
      newest * Float.one_units + (oldest - newest) * (Float.sgn s * u)
  | _ => 0
  end.

(** The integers next to the exact value, below and above. *)
Definition interp_floor (newest oldest : Z) (f : Float.float) : Z :=
  exact_units newest oldest f / Float.one_units.
Definition interp_ceil (newest oldest : Z) (f : Float.float) : Z :=
  - ((- exact_units newest oldest f) / Float.one_units).

(** [z] is an integer nearest to the exact value: no further than one
    half from it. *)
Definition nearest_to (newest oldest : Z) (f : Float.float) (z : Z) : Prop :=
  2 * Z.abs (z * Float.one_units - exact_units newest oldest f)
  <= Float.one_units.

Definition hex_digit (d : Z) : ascii :=
  nth (Z.to_nat d) (txt "0123456789abcdef") "0"%char.

(** A number from 0 to 255 as two hexadecimal digits. *)
Definition two_hex (z : Z) : str := [hex_digit (z / 16); hex_digit (z mod 16)].

Definition triplet (r g b : Z) : str :=
  txt "#" ++ two_hex r ++ two_hex g ++ two_hex b.

(** The fractions 0.0, 1.0, 0.5 and 0.75, as [float] reads the
    numerals. *)
Definition f_zero : Float.float := Float.of_decimal false 0 1.
Definition f_one : Float.float := Float.of_decimal false 10 1.
Definition f_half : Float.float := Float.of_decimal false 5 1.
Definition f_three_quarters : Float.float := Float.of_decimal false 75 2.

End ColorSpec.

(** The binary64 value a channel is cut from. *)
Module TruncSpec.
Import Text Float.
Local Open Scope Z_scope.

(** An integer as a binary64 number (exact below [2^53]). *)
Definition int64 (z : Z) : float := Fin (z <? 0) (Z.abs z * one_units).

(** [newest + (oldest - newest) * f] as binary64 arithmetic computes
    it: the product rounded to binary64, then the sum rounded to
    binary64. *)
Definition sum64 (newest oldest : Z) (f : float) : float :=
  add (int64 newest) (mul (int64 (oldest - newest)) f).

(** [z] is the finite number [v] with its fraction cut off: the
    integer of the sign of [v] whose magnitude is the largest integer
    not above the magnitude of [v]. *)
Definition cut_off (v : float) (z : Z) : Prop :=
  match v with
  | Fin s u =>
      Z.abs z * one_units <= u < (Z.abs z + 1) * one_units
      /\ z = sgn s * Z.abs z
  | _ => False
  end.

End TruncSpec.

(** ** Definitions the statements about the grouper use *)

Module GroupSpec.
Import Group.

Section Spec.
Context {A : Type}.
Variable lat lon : A -> option Float.float.

(** A record with both coordinates, each a binary64 value. *)
Definition placed (s : A) : bool :=
  match lat s, lon s with
  | Some a, Some b => Float.valid a && Float.valid b
  | _, _ => false
  end.

(** A record whose coordinates are, moreover, numbers. *)
Definition placed_number (s : A) : bool :=
  match lat s, lon s with
  | Some a, Some b =>
      Float.valid a && Float.valid b
      && negb (Float.is_nan a) && negb (Float.is_nan b)
  | _, _ => false
  end.

(** Every record next to its rounded coordinate pair. *)
Fixpoint keyed (l : list A) : result (list (key * A)) :=
  match l with
  | [] => Ok []
  | s :: rest =>
      k ← key_of lat lon s;
      r ← keyed rest;
      Ok ((k, s) :: r)
  end.

(** The keys in the order in which each is met first. *)
Fixpoint first_seen (ks : list key) : list key :=
  match ks with
  | [] => []
  | k :: rest =>
      k :: List.filter (fun k' => negb (key_eqb k k')) (first_seen rest)
  end.

(** The records whose key equals [k], in the order of the input. *)
Definition records_with (k : key) (pairs : list (key * A)) : list A :=
  map snd (List.filter (fun p => key_eqb k (fst p)) pairs).

(** The mapping the specification describes. *)
Definition grouped (pairs : list (key * A)) : groups :=
  map (fun k => (k, records_with k pairs)) (first_seen (map fst pairs)).

(** The group lists, one after the other, and their sizes summed. *)
Definition members (g : @groups A) : list A := concat (map snd g).
Definition total_size (g : @groups A) : nat :=
  fold_right (fun p n => (length (snd p) + n)%nat) 0%nat g.

End Spec.

(** The coordinates of the specification's example. *)
Definition point (la lo : Float.float) : option Float.float * option Float.float :=
  (Some la, Some lo).
Definition p_a := point (Float.of_decimal false 4212345 5)
                        (Float.of_decimal true 7154321 5).
Definition p_b := point (Float.of_decimal false 42123451 6)
                        (Float.of_decimal true 71543211 6).
Definition p_c := point (Float.of_decimal false 421234 4)
                        (Float.of_decimal true 715432 4).

End GroupSpec.

(** Rounding to five decimal places, as the specification words it. *)
Module RoundSpec.
Local Open Scope Z_scope.

(** [n] is the integer nearest to [num / den]; halfway between two
    integers it is the even one. *)
Definition nearest_integer (num den n : Z) : Prop :=
  2 * Z.abs (num - n * den) <= den
  /\ (2 * Z.abs (num - n * den) = den -> Z.even n = true).

(** [r] is [f] rounded to five decimal places: for a finite [f] of
    magnitude [u] units, the binary64 number that the decimal
    [n / 10^5] reads as, [n] being the integer nearest to
    [u * 10^5 / one_units]; an infinity or NaN is left as it is. *)
Definition rounded5 (f r : Float.float) : Prop :=
  match f with
  | Float.Fin s u =>
      exists n, nearest_integer (u * 10 ^ 5) Float.one_units n
                /\ r = Float.of_decimal s n 5
  | _ => r = f
  end.

(** The keys of the specification's example: (42.12345, -71.54321)
    and (42.1234, -71.5432). *)
Definition key_ab : Group.key :=
  (Float.of_decimal false 4212345 5, Float.of_decimal true 7154321 5).
Definition key_c : Group.key :=
  (Float.of_decimal false 421234 4, Float.of_decimal true 715432 4).

End RoundSpec.

(** ** Definitions the statements about the text extractor use *)

Module ExtractSpec.
Import Text Regex Extract.

(** The record a header starts. *)
Definition fresh (sp sc ct : str) (cf : bool) : sighting :=
  {| species := sp; scientific := sc; count := ct; confirmed := cf;
     location := []; lat := None; lon := None; date := [];
     observer := []; comments := []; checklist := [] |}.

(** What follows the scientific name: the count in parentheses, when
    there is one, and the word CONFIRMED, when it is there. *)
Definition tail_text (cnt : option str) (conf : bool) : str :=
  match cnt with
  | Some n => txt " (" ++ n ++ txt ")"
  | None => []
  end ++ (if conf then txt " CONFIRMED" else []).

(** The header line [Name (Scientific name) (N) CONFIRMED]. *)
Definition header_line (name sci : str) (cnt : option str) (conf : bool)
  : str :=
  name ++ txt " (" ++ sci ++ txt ")" ++ tail_text cnt conf.

(** [(], an upper-case and a lower-case letter: how a scientific name
    opens. *)
Definition opens_sci (s : str) : bool :=
  match s with
  | a :: u :: l :: _ => is_char "(" a && is_upper u && is_lower l
  | _ => false
  end.

(** Somewhere in [s] a blank is followed by such an opening. *)
Fixpoint has_sci_open (s : str) : bool :=
  match s with
  | [] => false
  | a :: t => (is_space a && opens_sci t) || has_sci_open t
  end.

(** A name the header pattern reads back as it is: not empty, on one
    line, no blank at either end, not a lone dash and not opening with
    a dash and a space, and nowhere a blank followed by [(], an
    upper-case and a lower-case letter. *)
Definition plain_name (name : str) : bool :=
  nonempty name
  && forallb is_dot name
  && negb (is_space (hd " "%char name))
  && negb (is_space (List.last name " "%char))
  && negb (startswith (txt "- ") (name ++ txt " "))
  && negb (has_sci_open name).

(** A scientific name: an upper-case letter, a lower-case letter, and
    more on the same line. *)
Definition sci_name (sci : str) : bool :=
  match sci with
  | u :: l :: rest => is_upper u && is_lower l && forallb is_dot rest
  | _ => false
  end.

(** A count: one decimal digit or more. *)
Definition digits (n : str) : bool := nonempty n && forallb is_digit n.

Definition no_close (s : str) : bool := negb (existsb (is_char ")") s).

(** The accumulator has coordinates. *)
Definition has_coordinates (cur : option sighting) : bool :=
  match cur with
  | Some r => match lat r, lon r with Some _, Some _ => true | _, _ => false end
  | None => false
  end.

(** The four field prefixes. *)
Definition field_prefixed (line : str) : bool :=
  startswith (txt "- Reported ") line
  || startswith (txt "- Map:") line
  || startswith (txt "- Checklist:") line
  || startswith (txt "- Comments:") line.

(** A location line: a bullet line that is no media, map or separator
    line, met while the accumulator has no coordinates yet. *)
Definition location_line (cur : option sighting) (line : str) : bool :=
  startswith (txt "- ") line
  && negb (startswith (txt "- Media:") line)
  && negb (startswith (txt "- Map:") line)
  && negb (startswith (txt "***") line)
  && negb (startswith (txt "---") line)
  && lat_is_none cur.

(** A line none of the patterns applies to, the accumulator being
    [cur]: no header, none of the four field prefixes, no location
    line. *)
Definition unrecognized (cur : option sighting) (raw : str) : bool :=
  match re_match header_re (strip raw) with
  | Some _ => false
  | None =>
      negb (field_prefixed (strip raw))
      && negb (location_line cur (strip raw))
  end.

Definition nl : string := String "010" EmptyString.

(** A header and a map line on the equator. *)
Definition equator_body : str :=
  txt ("Snowy Owl (Bubo scandiacus) (1)" ++ nl ++
       "- Map: http://maps.google.com/?ie=UTF8&t=p&z=13&q=0.0,-78.5&ll=0.0,-78.5"
       ++ nl)%string.

(** A header whose name carries a parenthesised part. *)
Definition junco_name : str := txt "Dark-eyed Junco (Oregon)".
Definition junco_sci : str := txt "Junco hyemalis".

End ExtractSpec.

(** ** Definitions the statements about the API extractor, the date
    span and the day-count filter use *)

Module ApiSpec.
Import Text Dates Api.

(** A flag of an observation as a boolean, a missing one counting as
    false; [None] when the entry is no JSON boolean. *)
Definition flag (o : obs) (k : string) : option bool :=
  match o !! k with
  | None => Some false
  | Some (JBool b) => Some b
  | Some _ => None
  end.

(** [strptime] as a partial function: [None] when it raises. *)
Definition parsed (s : str) (f : format) : option datetime :=
  match strptime s f with
  | Ok dt => Some dt
  | Raise _ => None
  end.

(** The source date in the display format: the date-and-time format is
    tried first, the date format second, and the text is empty when
    neither applies. *)
Definition display_date (s : str) : str :=
  match parsed s fmt_iso_minutes with
  | Some dt => strftime dt fmt_display
  | None =>
      match parsed s fmt_iso_date with
      | Some dt => strftime dt fmt_display
      | None => []
      end
  end.

(** Stand-ins for [str] and [float] on JSON values, for the examples. *)
Definition str_of (v : json) : str :=
  match v with
  | JStr s => s
  | JInt z => if (z <? 0)%Z then txt "-" ++ decimal (- z) else decimal z
  | _ => []
  end.
Definition float_of (v : json) : result Float.float :=
  match v with
  | JFloat f => Ok f
  | JInt z => Float.of_int z
  | _ => Raise TypeError
  end.

(** An observation, reviewed and valid. *)
Definition owl : obs :=
  <["lat" := JFloat (Float.of_decimal false 427608 4)]>
  (<["lng" := JFloat (Float.of_decimal true 708006 4)]>
  (<["obsReviewed" := JBool true]>
  (<["obsValid" := JBool true]>
  (<["obsDt" := JStr (txt "2026-02-05 15:08")]>
  (<["comName" := JStr (txt "Snowy Owl")]> ∅))))).

End ApiSpec.

Module SpanSpec.
Import Text Dates Span.
Local Open Scope Z_scope.


(** Ordinals of dates. *)
Definition is_date (d : date) : Prop := 1 <= d <= max_ordinal.

End SpanSpec.

Module FilterSpec.
Import Text Dates Filter.
Local Open Scope Z_scope.

(** The report date of a record, when its text parses. *)
Definition report_date (s : Extract.sighting) : option date :=
  match Span.parse_reported_date (Extract.date s) with
  | Ok d => d
  | Raise _ => None
  end.

(** [d] is one of the [n] days that end with [newest]. *)
Definition within_days (newest : date) (n : Z) (d : date) : bool :=
  (newest - (n - 1) <=? d) && (d <=? newest).

(** An entry whose send date is one of the [n] newest days. *)
Definition sent_within (newest : date) (n : Z) (e : eml) : bool :=
  match send_date e with
  | Some d => within_days newest n d
  | None => false
  end.

(** The day-count filter can be applied: the count fits a [timedelta]
    and the cutoff is a date. *)
Definition applicable (newest : date) (n : Z) : Prop :=
  Z.abs (n - 1) <= 999999999 /\ 1 <= newest - (n - 1) <= max_ordinal.

Definition reported (d : string) : Extract.sighting :=
  {| Extract.species := txt "Snowy Owl";
     Extract.scientific := txt "Bubo scandiacus";
     Extract.count := txt "1"; Extract.confirmed := false;
     Extract.location := txt "Plum Island";
     Extract.lat := Some (Float.of_decimal false 427608 4);
     Extract.lon := Some (Float.of_decimal true 708006 4);
     Extract.date := txt d; Extract.observer := txt "A";
     Extract.comments := []; Extract.checklist := [] |}.

(** An alert sent on 10 February 2026 with a report of that day and
    one of 1 February. *)
Definition feb10 : date := 739657.
Definition feb01 : date := 739648.
Definition alert : eml :=
  {| path := txt "a.eml"; subject := txt "Alert";
     sightings := [reported "Feb 10, 2026 08:00"; reported "Feb 01, 2026 09:00"];
     send_date := Some feb10 |}.

(** Ten alerts, sent on ten days in a row that end on 10 February. *)
Definition alert_on (d : date) : eml :=
  {| path := txt "a.eml"; subject := txt "Alert";
     sightings := [reported "Feb 01, 2026 09:00"];
     send_date := Some d |}.
Definition ten_days : list eml :=
  map (fun i => alert_on (feb01 + Z.of_nat i)) (seq 0 10).

End FilterSpec.

(** ** Definitions the statements about dates and their texts use *)

Module DatesSpec.
Import Text Regex Dates.
Local Open Scope Z_scope.

(** What [datetime] accepts as fields: a calendar date, an hour and a
    minute. *)
Definition valid_datetime (dt : datetime) : Prop :=
  valid_date (year dt) (month dt) (day dt) = true
  /\ 0 <= hour dt <= 23 /\ 0 <= minute dt <= 59.

(** A number of [w] places reads back as itself and is made of
    digits. *)
Definition reads_back (w : nat) (z : Z) : bool :=
  (Nat.eqb (length (padded w z)) w)
  && forallb is_digit (padded w z)
  && (int_of (padded w z) =? z).

(** The numbers from 0 up to [n], without [n]. *)
Definition below (n : Z) : list Z := map Z.of_nat (seq 0 (Z.to_nat n)).

(** The month of a date as [%b] writes it. *)
Definition month_text (m : Z) : str :=
  txt (nth (Z.to_nat (m - 1)) month_name EmptyString).

(** The groups of a text in the display format, the year being one
    of four digits. *)
Definition display_groups (dt : datetime) : caps :=
  <[gM := padded 2 (minute dt)]>
  (<[gH := padded 2 (hour dt)]>
  (<[gY := padded 4 (year dt)]>
  (<[gd := padded 2 (day dt)]>
  (<[gb := month_text (month dt)]> ∅)))).

(** A pattern without groups. *)
Fixpoint plain (r : regex) : bool :=
  match r with
  | Eps | Class _ | Eol => true
  | Cat r1 r2 | Alt r1 r2 => plain r1 && plain r2
  | Star _ r1 => plain r1
  | Group _ _ => false
  | NotAhead r1 => plain r1
  end.

(** The hour and the minute a match holds, when it holds them, are an
    hour and a minute. *)
Definition timed (c : caps) : Prop :=
  (forall w, c !! gH = Some w -> 0 <= int_of w <= 23)
  /\ (forall w, c !! gM = Some w -> 0 <= int_of w <= 59).

(** 5 February 2026, 15:08. *)
Definition owl_time : datetime :=
  {| year := 2026; month := 2; day := 5; hour := 15; minute := 8 |}.

(** 2 January 999, 00:00. *)
Definition early_time : datetime :=
  {| year := 999; month := 1; day := 2; hour := 0; minute := 0 |}.

(** Somewhere in the text four digits stand in a row.  [front_run]
    counts the marks at the front of a list, a mark standing for a
    digit. *)
Fixpoint front_run (l : list bool) : nat :=
  match l with
  | true :: t => S (front_run t)
  | _ => 0%nat
  end.
Fixpoint has_run4 (l : list bool) : bool :=
  match l with
  | [] => false
  | _ :: t => (4 <=? front_run l)%nat || has_run4 t
  end.
Definition four_digits_in (s : str) : bool := has_run4 (map is_digit s).

End DatesSpec.

(** The texts of a date and time, as the specification has them. *)
Module StampSpec.
Import Text Regex Dates.
Local Open Scope Z_scope.

(** The digit [d], from 0 to 9, as a character. *)
Definition digit_char (d : Z) : ascii := ascii_of_N (48 + Z.to_N d).

(** A number below 100 in two places and a number below 10000 in four
    places, with leading zeros. *)
Definition two_digits (z : Z) : str :=
  [digit_char (z / 10); digit_char (z mod 10)].
Definition four_digits (z : Z) : str :=
  digit_char (z / 1000) :: digit_char (z / 100 mod 10)
  :: two_digits (z mod 100).

(** The same number without leading zeros. *)
Definition plain_digits (z : Z) : str :=
  drop_while (is_char "0") (four_digits z).

(** The English month abbreviations. *)
Definition month_word (m : Z) : str :=
  match m with
  | 1 => txt "Jan" | 2 => txt "Feb" | 3 => txt "Mar" | 4 => txt "Apr"
  | 5 => txt "May" | 6 => txt "Jun" | 7 => txt "Jul" | 8 => txt "Aug"
  | 9 => txt "Sep" | 10 => txt "Oct" | 11 => txt "Nov" | 12 => txt "Dec"
  | _ => []
  end.

(** The source texts [YYYY-MM-DD HH:MM] and [YYYY-MM-DD] of a date and
    time. *)
Definition source_day_text (dt : datetime) : str :=
  four_digits (year dt) ++ txt "-" ++ two_digits (month dt)
  ++ txt "-" ++ two_digits (day dt).
Definition source_text (dt : datetime) : str :=
  source_day_text dt ++ txt " " ++ two_digits (hour dt)
  ++ txt ":" ++ two_digits (minute dt).

(** The display text [Mon DD, YYYY HH:MM], the year without leading
    zeros. *)
Definition display_text (dt : datetime) : str :=
  month_word (month dt) ++ txt " " ++ two_digits (day dt) ++ txt ", "
  ++ plain_digits (year dt) ++ txt " " ++ two_digits (hour dt)
  ++ txt ":" ++ two_digits (minute dt).

(** The same day at 00:00. *)
Definition midnight (dt : datetime) : datetime :=
  {| year := year dt; month := month dt; day := day dt;
     hour := 0; minute := 0 |}.

(** The groups of a text in the two source formats. *)
Definition source_day_groups (dt : datetime) : caps :=
  <[gd := padded 2 (day dt)]>
  (<[gm := padded 2 (month dt)]>
  (<[gY := padded 4 (year dt)]> ∅)).
Definition source_groups (dt : datetime) : caps :=
  <[gM := padded 2 (minute dt)]>
  (<[gH := padded 2 (hour dt)]> (source_day_groups dt)).

End StampSpec.

(** ** Definitions for the further properties of the code *)

Module ExtractInv.
Import Text Regex Extract.

(** A record with both coordinates, the latitude not zero. *)
Definition located (r : sighting) : Prop :=
  exists la lo,
    lat r = Some la /\ lon r = Some lo /\ Float.truthy la = true.

(** The accumulator has both coordinates or none. *)
Definition paired (cur : option sighting) : Prop :=
  match cur with
  | Some r => lat r = None <-> lon r = None
  | None => True
  end.

(** What a header fixes of its record. *)
Definition ident (r : sighting) : str * str * str * bool :=
  (species r, scientific r, count r, confirmed r).

(** The header a raw line is, when it is one. *)
Definition header_of (raw : str) : option (str * str * str * bool) :=
  match re_match header_re (strip raw) with
  | Some m => Some (ident (new_record m))
  | None => None
  end.

(** The headers of a text, line by line. *)
Definition headers (lines : list str) : list (str * str * str * bool) :=
  omap header_of lines.

End ExtractInv.

Module ApiInv.
Import Text Dates Api.

(** [lat is None or lng is None] fails: both entries are there and
    neither is [null]. *)
Definition has_coords (o : obs) : bool :=
  negb (is_none (get o "lat" JNull) || is_none (get o "lng" JNull)).

(** An observation without a latitude. *)
Definition no_lat : obs :=
  <["lng" := JFloat (Float.of_decimal true 708006 4)]>
  (<["comName" := JStr (txt "Snowy Owl")]> ∅).

End ApiInv.

Module GroupInv.
Import Group.

Section Inv.
Context {A : Type}.
Variable lat lon : A -> option Float.float.

(** A coordinate that is there is a binary64 value. *)
Definition wellformed (s : A) : Prop :=
  forall f, lat s = Some f \/ lon s = Some f -> Float.valid f = true.

(** A record without a latitude or without a longitude. *)
Definition unplaced (s : A) : Prop := lat s = None \/ lon s = None.

End Inv.

(** No two keys of the list are equal. *)
Fixpoint distinct (ks : list key) : Prop :=
  match ks with
  | [] => True
  | k :: rest => Forall (fun k' => key_eqb k k' = false) rest /\ distinct rest
  end.

End GroupInv.

Module Legend.
Import Text Dates Span.
Local Open Scope Z_scope.

(** [sorted({d for d in reported_dates}, reverse=True)]: the distinct
    dates, the newest first. *)
Fixpoint insert_desc (d : date) (l : list date) : list date :=
  match l with
  | [] => [d]
  | x :: t =>
      if x <? d then d :: l
      else if x =? d then l
      else x :: insert_desc d t
  end.
Definition unique_dates (ds : list date) : list date :=
  fold_right insert_desc [] ds.

(** One entry of the legend (lines 283 and 284): the colour of the
    date and the date. *)
Definition legend_item (days : option Z) (ds : list date) (d : date)
  : result (str * date) :=
  frac ← legend_frac days ds d;
  c ← Color.age_color frac;
  Ok (c, d).

Fixpoint legend_items (days : option Z) (ds : list date) (u : list date)
  : result (list (str * date)) :=
  match u with
  | [] => Ok []
  | d :: rest =>
      i ← legend_item days ds d;
      more ← legend_items days ds rest;
      Ok (i :: more)
  end.

(** The entries of the legend, lines 278 to 287; there is no legend
    ([None]) unless two dates differ. *)
Definition legend (days : option Z) (ds : list date)
  : result (option (list (str * date))) :=
  let u := unique_dates ds in
  if (1 <? length u)%nat
  then items ← legend_items days ds u; Ok (Some items)
  else Ok None.

End Legend.

Module SpanInv.
Import Text Dates Span.
Local Open Scope Z_scope.

(** Dates in falling order, no two equal. *)
Fixpoint falling (l : list date) : Prop :=
  match l with
  | [] => True
  | x :: t => Forall (fun y => y < x) t /\ falling t
  end.

(** Report texts of 10 February and 1 February 2026. *)
Definition two_reports : list str :=
  [txt "Feb 10, 2026 08:00"; txt "Feb 01, 2026 09:00"].

End SpanInv.

Module Render.
Import Text Extract.
Local Open Scope N_scope.

(** The text the renderer builds.  Its own literals leave the code
    points 0..255 (the check mark U+2713, the dash U+2014), so rendered
    text is a list of code points; [wide] takes a [str] there. *)
Definition ustr : Type := list N.
Definition wide (s : str) : ustr := map code s.
Definition utxt (s : string) : ustr := wide (txt s).

Fixpoint ustartswith (p s : ustr) : bool :=
  match p, s with
  | [], _ => true
  | a :: p', b :: s' => (a =? b) && ustartswith p' s'
  | _ :: _, [] => false
  end.

(** [s.replace(old, new)]: the occurrences of [old] are found from the
    left and do not overlap; [skip] counts the characters of an
    occurrence still to be passed over.  An empty [old] is found
    before every character and at the end. *)
Fixpoint replace_from (old new : ustr) (skip : nat) (s : ustr) : ustr :=
  match s with
  | [] => []
  | c :: t =>
      match skip with
      | S k => replace_from old new k t
      | O =>
          if ustartswith old s
          then new ++ replace_from old new (length old - 1) t
          else c :: replace_from old new 0 t
      end
  end.
Definition replace (old new s : ustr) : ustr :=
  match old with
  | [] => new ++ flat_map (fun c => c :: new) s
  | _ => replace_from old new 0 s
  end.

(** The code points of the backslash, the quote, the line feed and the
    letter n. *)
Definition backslash : N := 92.
Definition apostrophe : N := 39.
Definition linefeed : N := 10.
Definition letter_n : N := 110.

(** [escape_js], line 217: three replacements, one after the other. *)
Definition escape_js (s : ustr) : ustr :=
  replace [linefeed] [backslash; letter_n]
    (replace [apostrophe] [backslash; apostrophe]
       (replace [backslash] [backslash; backslash] s)).

(** [f"{s['species']} ({s['count']})"]. *)
Definition tag (s : sighting) : str :=
  species s ++ txt " (" ++ count s ++ txt ")".

(** The lines a record adds to the popup, lines 203 to 212. *)
Definition entry (s : sighting) : list ustr :=
  [ utxt "<b>" ++ wide (species s) ++ utxt "</b> " ++ [215] ++ wide (count s)
    ++ (if confirmed s then [32; 10003] else []) ++ utxt "<br>"
    ++ utxt "<i>" ++ wide (date s) ++ utxt "</i> " ++ [8212; 32]
    ++ wide (observer s) ++ utxt "<br>" ]
  ++ (if nonempty (comments s)
      then [utxt "<span style='color:#555'>" ++ wide (comments s)
            ++ utxt "</span><br>"]
      else [])
  ++ (if nonempty (checklist s)
      then [utxt "<a href='" ++ wide (checklist s)
            ++ utxt "' target='_blank'>Checklist</a><br>"]
      else [])
  ++ [utxt "<hr style='margin:4px 0'>"].

(** The loop of [popup_html]; [seen] is the set [seen_species]. *)
Fixpoint popup_lines (seen : gset str) (group : list sighting)
  : list ustr :=
  match group with
  | [] => []
  | s :: rest =>
      if bool_decide (tag s ∈ seen) then popup_lines seen rest
      else entry s ++ popup_lines ({[tag s]} ∪ seen) rest
  end.

(** [popup_html]; [None] stands for the [IndexError] of [group[0]] on
    an empty group. *)
Definition popup_html (group : list sighting) : option ustr :=
  match group with
  | [] => None
  | first :: _ =>
      Some (concat ((utxt "<b>" ++ wide (location first) ++ utxt "</b><br>")
                    :: popup_lines ∅ group))
  end.

End Render.

Module RenderSpec.
Import Text Extract Render.
Local Open Scope N_scope.

(** What [escape_js] makes of one character. *)
Definition escaped (c : N) : ustr :=
  if c =? backslash then [backslash; backslash]
  else if c =? apostrophe then [backslash; apostrophe]
  else if c =? linefeed then [backslash; letter_n]
  else [c].

(** The reading of an escaped text: a backslash and [n] stand for a
    line feed, a backslash and any other character for that
    character. *)
Fixpoint unescape_from (pending : bool) (s : ustr) : ustr :=
  match s with
  | [] => []
  | c :: t =>
      if pending then
        (if c =? letter_n then linefeed else c) :: unescape_from false t
      else if c =? backslash then unescape_from true t
      else c :: unescape_from false t
  end.
Definition unescape_js (s : ustr) : ustr := unescape_from false s.

(** The records of a group that are first with their tag. *)
Fixpoint first_tagged (seen : gset str) (group : list sighting)
  : list sighting :=
  match group with
  | [] => []
  | s :: rest =>
      if bool_decide (tag s ∈ seen) then first_tagged seen rest
      else s :: first_tagged ({[tag s]} ∪ seen) rest
  end.

End RenderSpec.

Module LineSpec.
Import Text Regex Extract.

(** The text [w] occurs in [x ++ rest] at a place of [x]. *)
Fixpoint occurs_in (w x rest : str) : bool :=
  match x with
  | [] => false
  | _ :: x' => startswith w (x ++ rest) || occurs_in w x' rest
  end.

(** A date or an observer of a report line: not empty and on one
    line. *)
Definition one_line (s : str) : bool := nonempty s && forallb is_dot s.

(** A date the pattern reads back as it is: the text [ by ] does not
    begin within it, its first character apart. *)
Definition plain_date (d : str) : bool :=
  one_line d && negb (occurs_in (txt " by ") (tl d) (txt " by")).

(** The line [- Reported <date> by <observer>]. *)
Definition reported_line (d o : str) : str :=
  txt "- Reported " ++ d ++ txt " by " ++ o.

(** A decimal numeral: sign, digits, and a point with further digits
    or none. *)
Record numeral : Type := Numeral {
  negative : bool;
  whole : str;
  fraction : option str
}.

Definition numeral_text (n : numeral) : str :=
  (if negative n then txt "-" else [])
  ++ whole n
  ++ match fraction n with
     | Some f => txt "." ++ f
     | None => []
     end.

Definition wellformed_numeral (n : numeral) : bool :=
  nonempty (whole n) && forallb is_digit (whole n)
  && match fraction n with
     | Some f => forallb is_digit f
     | None => true
     end.

(** The number [float] makes of the numeral. *)
Definition numeral_value (n : numeral) : Float.float :=
  match fraction n with
  | Some f =>
      Float.of_decimal (negative n) (digits_value (whole n ++ f))
                       (Z.of_nat (length f))
  | None => Float.of_decimal (negative n) (digits_value (whole n)) 0
  end.

(** What may follow the second number of a map line: nothing, or a
    character that is neither a digit nor a point. *)
Definition ends_number (post : str) : bool :=
  match post with
  | [] => true
  | a :: _ => negb (is_digit a) && negb (is_char "." a)
  end.

(** The map line: [pre] up to the coordinates, the two numbers, and
    what follows them. *)
Definition map_line (pre : str) (la lo : numeral) (post : str) : str :=
  pre ++ txt "q=" ++ numeral_text la ++ txt "," ++ numeral_text lo ++ post.

(** 42.7608 and -70.8006. *)
Definition plum_lat : numeral :=
  {| negative := false; whole := txt "42"; fraction := Some (txt "7608") |}.
Definition plum_lon : numeral :=
  {| negative := true; whole := txt "70"; fraction := Some (txt "8006") |}.

End LineSpec.

Module BlockSpec.
Import Text Regex Extract ExtractSpec LineSpec.

(** A location as the location line gives it back: not empty, no
    blank at either end, no dash in front, and not the opening of a
    field line or of a media line. *)
Definition plain_location (loc : str) : bool :=
  nonempty loc
  && negb (is_space (hd " "%char loc))
  && negb (is_char "-" (hd " "%char loc))
  && negb (is_space (List.last loc " "%char))
  && negb (field_prefixed (txt "- " ++ loc))
  && negb (startswith (txt "- Media:") (txt "- " ++ loc)).

Definition location_text (loc : str) : str := txt "- " ++ loc.

(** The lines [- Checklist:<text>] and [- Comments:<text>]. *)
Definition checklist_text (t : str) : str := txt "- Checklist:" ++ t.
Definition comments_text (t : str) : str := txt "- Comments:" ++ t.

(** A text without a line boundary. *)
Definition unbroken (s : str) : bool := forallb (fun a => negb (is_linebreak a)) s.

(** Lines, each closed by a line feed. *)
Definition lines_text (lines : list str) : str :=
  flat_map (fun l => l ++ txt nl) lines.

(** The record of a block. *)
Definition block_record name sci cnt conf d o loc la lo url text
  : sighting :=
  {| species := name; scientific := sci;
     count := default (txt "?") cnt; confirmed := conf;
     location := loc;
     lat := Some (numeral_value la); lon := Some (numeral_value lo);
     date := d; observer := o;
     comments := strip_by (is_char quote) (strip text);
     checklist := strip url |}.

(** The lines of a block. *)
Definition block_lines name sci cnt conf d o loc pre la lo post url text
  : list str :=
  [ header_line name sci cnt conf;
    reported_line d o;
    location_text loc;
    map_line pre la lo post;
    checklist_text url;
    comments_text text ].

End BlockSpec.
(** * Theorems *)

(** ** Rounding to binary64 *)

Section RoundingFacts.
Import Float.
Local Open Scope Z_scope.

Lemma rne_div_between n d :
  0 < d -> n / d <= rne_div n d <= n / d + 1.
Proof.
  intros Hd. unfold rne_div.
  repeat match goal with |- context [if ?b then _ else _] => destruct b end; lia.
Qed.

Lemma rne_div_exact a d : 0 < d -> rne_div (a * d) d = a.
Proof.
  intros Hd. unfold rne_div.
  rewrite Z.div_mul by lia. rewrite Z.mod_mul by lia.
  destruct (2 * 0 <? d) eqn:E; [reflexivity | lia].
Qed.

Lemma rne_div_lower n d a : 0 < d -> a * d <= n -> a <= rne_div n d.
Proof.
  intros Hd Ha. pose proof (rne_div_between n d Hd).
  assert (a <= n / d) by (apply Z.div_le_lower_bound; lia). lia.
Qed.

Lemma rne_div_upper n d a : 0 < d -> n <= a * d -> rne_div n d <= a.
Proof.
  intros Hd Ha.
  destruct (Z.eq_dec n (a * d)) as [->|Hne].
  - rewrite rne_div_exact by lia. lia.
  - pose proof (rne_div_between n d Hd).
    assert (n / d < a) by (apply Z.div_lt_upper_bound; lia). lia.
Qed.

Lemma rne_div_mono n1 d1 n2 d2 :
  0 < d1 -> 0 < d2 -> n1 * d2 <= n2 * d1 ->
  rne_div n1 d1 <= rne_div n2 d2.
Proof.
  intros H1 H2 Hle.
  pose proof (Z.div_mod n1 d1 ltac:(lia)) as E1.
  pose proof (Z.div_mod n2 d2 ltac:(lia)) as E2.
  pose proof (Z.mod_pos_bound n1 d1 H1) as B1.
  pose proof (Z.mod_pos_bound n2 d2 H2) as B2.
  pose proof (rne_div_between n1 d1 H1) as R1.
  pose proof (rne_div_between n2 d2 H2) as R2.
  assert (Hq : n1 / d1 <= n2 / d2).
  { destruct (Z_lt_le_dec (n2 / d2) (n1 / d1)) as [Hlt|]; [|lia].
    exfalso.
    assert ((n2 / d2 + 1) * d2 <= n1 / d1 * d2) by nia.
    assert (n2 * d1 < n1 / d1 * d2 * d1) by nia.
    nia. }
  destruct (Z.eq_dec (n1 / d1) (n2 / d2)) as [Heq|Hne]; [|lia].
  unfold rne_div in *. rewrite <- Heq in *.
  set (q := n1 / d1) in *. set (r1 := n1 mod d1) in *. set (r2 := n2 mod d2) in *.
  assert (Hr : r1 * d2 <= r2 * d1) by nia.
  destruct (2 * r1 <? d1) eqn:A1; destruct (2 * r2 <? d2) eqn:A2;
  destruct (d1 <? 2 * r1) eqn:C1; destruct (d2 <? 2 * r2) eqn:C2;
  destruct (Z.even q); try lia; nia.
Qed.

Lemma div_le_cross n1 d1 n2 d2 :
  0 < d1 -> 0 < d2 -> n1 * d2 <= n2 * d1 -> n1 / d1 <= n2 / d2.
Proof.
  intros H1 H2 Hle.
  pose proof (Z.div_mod n1 d1 ltac:(lia)) as E1.
  pose proof (Z.div_mod n2 d2 ltac:(lia)) as E2.
  pose proof (Z.mod_pos_bound n1 d1 H1) as B1.
  pose proof (Z.mod_pos_bound n2 d2 H2) as B2.
  destruct (Z_lt_le_dec (n2 / d2) (n1 / d1)) as [Hlt|]; [|lia].
  exfalso.
  assert ((n2 / d2 + 1) * d2 <= n1 / d1 * d2) by nia.
  assert (n2 * d1 < n1 / d1 * d2 * d1) by nia.
  nia.
Qed.

(** From [2^53] units on: the shift is positive and the rounded
    magnitude stays within the binade of the quotient. *)
Lemma round_units_high n d :
  0 < d -> 2 ^ 53 <= n / d ->
  let sh := Z.log2 (n / d) - 52 in
  1 <= sh /\
  round_units n d = rne_div n (d * 2 ^ sh) * 2 ^ sh /\
  2 ^ 52 * 2 ^ sh <= round_units n d <= 2 ^ 53 * 2 ^ sh.
Proof.
  intros Hd Hq sh.
  assert (Hq0 : 0 < n / d) by lia.
  pose proof (Z.log2_spec (n / d) Hq0) as [Hlo Hhi].
  assert (Hl : 53 <= Z.log2 (n / d)).
  { apply Z.log2_le_pow2; lia. }
  assert (Hsh : 1 <= sh) by (unfold sh; lia).
  assert (Hp : 0 < 2 ^ sh) by (apply Z.pow_pos_nonneg; lia).
  assert (E52 : 2 ^ Z.log2 (n / d) = 2 ^ 52 * 2 ^ sh).
  { rewrite <- Z.pow_add_r by lia. f_equal. unfold sh. lia. }
  assert (E53 : 2 ^ Z.succ (Z.log2 (n / d)) = 2 ^ 53 * 2 ^ sh).
  { rewrite <- Z.pow_add_r by lia. f_equal. unfold sh. lia. }
  rewrite E52 in Hlo. rewrite E53 in Hhi.
  pose proof (Z.div_mod n d ltac:(lia)) as E.
  pose proof (Z.mod_pos_bound n d Hd) as B.
  assert (Hru : round_units n d = rne_div n (d * 2 ^ sh) * 2 ^ sh).
  { unfold round_units. destruct (n / d <? 2 ^ 53) eqn:C; [lia|reflexivity]. }
  split; [exact Hsh|]. split; [exact Hru|]. rewrite Hru.
  assert (L : 2 ^ 52 <= rne_div n (d * 2 ^ sh)).
  { apply rne_div_lower; nia. }
  assert (U : rne_div n (d * 2 ^ sh) <= 2 ^ 53).
  { apply rne_div_upper; nia. }
  nia.
Qed.

Lemma round_units_low n d :
  0 <= n -> 0 < d -> n / d < 2 ^ 53 ->
  round_units n d = rne_div n d /\ 0 <= round_units n d <= 2 ^ 53.
Proof.
  intros Hn Hd Hq.
  assert (Hru : round_units n d = rne_div n d).
  { unfold round_units. destruct (n / d <? 2 ^ 53) eqn:C; [reflexivity|lia]. }
  split; [exact Hru|]. rewrite Hru.
  pose proof (rne_div_between n d Hd).
  assert (0 <= n / d) by (apply Z.div_pos; lia). lia.
Qed.

Lemma round_units_mono n1 d1 n2 d2 :
  0 <= n1 -> 0 < d1 -> 0 < d2 -> n1 * d2 <= n2 * d1 ->
  round_units n1 d1 <= round_units n2 d2.
Proof.
  intros Hn H1 H2 Hle.
  pose proof (div_le_cross _ _ _ _ H1 H2 Hle) as Hq.
  assert (Hn2 : 0 <= n2) by nia.
  destruct (Z_lt_le_dec (n1 / d1) (2 ^ 53)) as [L1|G1];
    destruct (Z_lt_le_dec (n2 / d2) (2 ^ 53)) as [L2|G2]; try lia.
  - destruct (round_units_low n1 d1 Hn H1 L1) as [-> _].
    destruct (round_units_low n2 d2 Hn2 H2 L2) as [-> _].
    now apply rne_div_mono.
  - destruct (round_units_low n1 d1 Hn H1 L1) as [_ B1].
    destruct (round_units_high n2 d2 H2 G2) as (S2 & _ & B2).
    assert (2 <= 2 ^ (Z.log2 (n2 / d2) - 52)).
    { change 2 with (2 ^ 1) at 1. apply Z.pow_le_mono_r; lia. }
    lia.
  - destruct (round_units_high n1 d1 H1 G1) as (S1 & E1 & B1).
    destruct (round_units_high n2 d2 H2 G2) as (S2 & E2 & B2).
    assert (Hlog : Z.log2 (n1 / d1) <= Z.log2 (n2 / d2))
      by (apply Z.log2_le_mono; lia).
    destruct (Z.eq_dec (Z.log2 (n1 / d1)) (Z.log2 (n2 / d2))) as [Heq|Hne].
    + rewrite E1, E2, Heq.
      set (p := 2 ^ (Z.log2 (n2 / d2) - 52)).
      assert (0 < p) by (apply Z.pow_pos_nonneg; lia).
      apply Z.mul_le_mono_nonneg_r; [lia|].
      apply rne_div_mono; nia.
    + assert (2 * 2 ^ (Z.log2 (n1 / d1) - 52) <= 2 ^ (Z.log2 (n2 / d2) - 52)).
      { change 2 with (2 ^ 1) at 1. rewrite <- Z.pow_add_r by lia.
        apply Z.pow_le_mono_r; lia. }
      lia.
Qed.

Lemma representable_spec u :
  representable u = true ->
  0 <= u < overflow_units /\
  (u < 2 ^ 53 \/ u mod 2 ^ (Z.log2 u - 52) = 0).
Proof.
  unfold representable. intros H.
  apply andb_prop in H as [H H3]. apply andb_prop in H as [H1 H2].
  apply Z.leb_le in H1. apply Z.ltb_lt in H2.
  split; [lia|].
  apply orb_prop in H3 as [H3|H3];
    [left; now apply Z.ltb_lt in H3 | right; now apply Z.eqb_eq in H3].
Qed.

Lemma round_units_exact u d :
  representable u = true -> 0 < d -> round_units (u * d) d = u.
Proof.
  intros Hr Hd. apply representable_spec in Hr as [[H0 _] Hm].
  destruct (Z_lt_le_dec u (2 ^ 53)) as [L|G].
  - destruct (round_units_low (u * d) d ltac:(nia) Hd) as [-> _].
    + rewrite Z.div_mul by lia. exact L.
    + apply rne_div_exact. exact Hd.
  - destruct Hm as [Hm|Hm]; [lia|].
    destruct (round_units_high (u * d) d Hd) as (S1 & E1 & _).
    + rewrite Z.div_mul by lia. exact G.
    + rewrite E1. rewrite Z.div_mul in * by lia.
      set (p := 2 ^ (Z.log2 u - 52)) in *.
      assert (0 < p) by (apply Z.pow_pos_nonneg; lia).
      apply Z.mod_divide in Hm; [|lia]. destruct Hm as [m Hm].
      rewrite Hm.
      replace (m * p * d) with (m * (d * p)) by ring.
      rewrite rne_div_exact by nia. reflexivity.
Qed.

Lemma round_units_le n d u :
  0 <= n -> 0 < d -> representable u = true -> n <= u * d ->
  round_units n d <= u.
Proof.
  intros Hn Hd Hr Hle.
  rewrite <- (round_units_exact u d Hr Hd).
  apply round_units_mono; nia.
Qed.

Lemma round_units_ge n d u :
  0 < d -> representable u = true -> u * d <= n ->
  u <= round_units n d.
Proof.
  intros Hd Hr Hle.
  pose proof (representable_spec u Hr) as [[H0 _] _].
  rewrite <- (round_units_exact u d Hr Hd).
  apply round_units_mono; nia.
Qed.

Lemma one_units_pos : 0 < one_units.
Proof. reflexivity. Qed.

Lemma overflow_units_eq : overflow_units = 2 ^ 1024 * one_units.
Proof. reflexivity. Qed.

(** Every integer below [2^53] is a binary64 number. *)
Lemma representable_int m :
  0 <= m < 2 ^ 53 -> representable (m * one_units) = true.
Proof.
  intros Hm. pose proof one_units_pos as HX.
  unfold representable.
  assert (H1 : (0 <=? m * one_units) = true) by (apply Z.leb_le; nia).
  assert (H2 : (m * one_units <? overflow_units) = true).
  { apply Z.ltb_lt. rewrite overflow_units_eq.
    apply Z.mul_lt_mono_pos_r; [exact HX|]. lia. }
  rewrite H1, H2. simpl.
  destruct (Z.eq_dec m 0) as [->|Hne]; [reflexivity|].
  apply orb_true_intro. right. apply Z.eqb_eq.
  unfold one_units. rewrite Z.log2_mul_pow2 by lia.
  assert (Hl : Z.log2 m < 53) by (apply Z.log2_lt_pow2; lia).
  assert (0 <= Z.log2 m) by apply Z.log2_nonneg.
  set (e := 1074 + Z.log2 m - 52).
  replace (2 ^ 1074) with (2 ^ (1074 - e) * 2 ^ e).
  2:{ rewrite <- Z.pow_add_r by lia. f_equal. lia. }
  rewrite Z.mul_assoc. apply Z.mod_mul.
  apply Z.pow_nonzero; lia.
Qed.

Lemma mk_finite neg n d u :
  round_units n d = u -> u < overflow_units -> mk neg n d = Fin neg u.
Proof.
  intros E H. unfold mk. rewrite E.
  destruct (overflow_units <=? u) eqn:C; [lia|reflexivity].
Qed.

Lemma int_units_finite m : 0 <= m < 2 ^ 53 -> m * one_units < overflow_units.
Proof.
  intros Hm. rewrite overflow_units_eq.
  apply Z.mul_lt_mono_pos_r; [apply one_units_pos|lia].
Qed.

Lemma of_int_small z :
  Z.abs z < 2 ^ 53 ->
  of_int z = Ok (Fin (z <? 0) (Z.abs z * one_units)).
Proof.
  intros Hz. unfold of_int.
  rewrite (mk_finite _ _ _ (Z.abs z * one_units)); [reflexivity| |].
  - rewrite <- (Z.mul_1_r (Z.abs z * one_units)) at 1.
    apply round_units_exact; [apply representable_int|]; lia.
  - apply int_units_finite. lia.
Qed.

(** Rounding never crosses a binary64 number. *)
Lemma round_units_sandwich n d c :
  0 <= n -> 0 < d -> representable c = true ->
  (c * d <= n -> c <= round_units n d) /\
  (n <= c * d -> round_units n d <= c).
Proof.
  intros Hn Hd Hc. split; intros H.
  - now apply round_units_ge.
  - now apply round_units_le.
Qed.

End RoundingFacts.

Section ColourFacts.
Import Float Color.
Local Open Scope Z_scope.

(** The integer a channel comes to lies on the same side of every
    integer [k] as the exact interpolation
    [n + (o - n) * u / one_units]. *)
Lemma channel_sandwich n o u :
  0 <= n < 2 ^ 52 -> 0 <= o < 2 ^ 52 -> 0 <= u <= one_units ->
  exists r,
    channel n o (Fin false u) = Ok r /\
    forall k, 0 <= k < 2 ^ 53 ->
      (k * one_units <= n * one_units + (o - n) * u -> k <= r) /\
      (n * one_units + (o - n) * u <= k * one_units -> r <= k).
Proof.
  intros Hn Ho Hu. pose proof one_units_pos as HX.
  set (X := one_units) in *.
  unfold channel.
  rewrite (of_int_small (o - n)) by lia.
  rewrite (of_int_small n) by lia.
  cbn [mbind result_bind].
  replace (n <? 0) with false by lia.
  rewrite (Z.abs_eq n) by lia.
  fold X.
  set (D := Z.abs (o - n)).
  assert (HD : 0 <= D < 2 ^ 52) by lia.
  set (v := round_units (D * X * u) X).
  assert (Hv : forall c, representable c = true ->
            (c <= D * u -> c <= v) /\ (D * u <= c -> v <= c)).
  { intros c Hc.
    destruct (round_units_sandwich (D * X * u) X c ltac:(nia) HX Hc) as [A B].
    split; intros H; [apply A|apply B]; nia. }
  assert (Hv0 : 0 <= v).
  { apply (Hv 0); [reflexivity|nia]. }
  assert (HvD : v <= D * X).
  { apply (Hv (D * X)); [apply representable_int; lia|nia]. }
  assert (Hmul : mul (Fin (o - n <? 0) (D * X)) (Fin false u)
                 = Fin (o - n <? 0) v).
  { unfold mul. rewrite xorb_false_r. apply mk_finite; [reflexivity|].
    pose proof (int_units_finite D ltac:(lia)). fold X in H. lia. }
  rewrite Hmul. clear Hmul.
  assert (Hrep : forall k, 0 <= k < 2 ^ 53 -> representable (k * X) = true)
    by (intros; apply representable_int; lia).
  assert (Hfin : forall k, 0 <= k < 2 ^ 53 -> k * X < overflow_units)
    by (intros; apply int_units_finite; lia).
  (* the sum *)
  assert (Hz : exists z, 0 <= z /\ sgn false * (n * X) + sgn (o - n <? 0) * v = z
             /\ z = n * X + (if o - n <? 0 then - v else v)
             /\ z <= 2 ^ 52 * X).
  { exists (n * X + (if o - n <? 0 then - v else v)).
    destruct (o - n <? 0) eqn:S; cbn [sgn]; repeat split; try lia; nia. }
  destruct Hz as (z & Hz0 & Ez & Ez' & Hzmax).
  unfold add. rewrite Ez.
  destruct (z =? 0) eqn:Z0.
  - exists 0. split.
    { cbn [to_int]. rewrite Z.div_0_l by lia. f_equal; lia. }
    intros k Hk. assert (Hz00 : z = 0) by lia. split; intros H; [|lia].
    destruct (o - n <? 0) eqn:S.
    + assert (D = n - o) by lia.
      destruct (Z_lt_le_dec n k); [nia|].
      destruct (Hv ((n - k) * X) (Hrep (n - k) ltac:(lia))) as [_ B].
      assert (v <= (n - k) * X) by (apply B; nia). nia.
    + assert (D = o - n) by lia.
      destruct (Z_lt_le_dec k n); [nia|].
      destruct (Hv ((k - n) * X) (Hrep (k - n) ltac:(lia))) as [A _].
      assert ((k - n) * X <= v) by (apply A; nia). nia.
  - assert (Hzpos : 0 < z) by lia.
    replace (z <? 0) with false by lia.
    rewrite (Z.abs_eq z) by lia.
    set (w := round_units z 1).
    assert (Hw : forall c, representable c = true ->
              (c <= z -> c <= w) /\ (z <= c -> w <= c)).
    { intros c Hc.
      destruct (round_units_sandwich z 1 c ltac:(lia) ltac:(lia) Hc) as [A B].
      split; intros H; [apply A|apply B]; lia. }
    assert (Hwmax : w <= 2 ^ 52 * X) by (apply (Hw _ (Hrep (2 ^ 52) ltac:(lia))); lia).
    rewrite (mk_finite false z 1 w eq_refl)
      by (pose proof (Hfin (2 ^ 52) ltac:(lia)); lia).
    exists (w / X). split; [cbn [to_int sgn]; rewrite Z.mul_1_l; reflexivity|].
    intros k Hk. split; intros HE.
    + apply Z.div_le_lower_bound; [lia|]. rewrite Z.mul_comm.
      apply (Hw _ (Hrep _ Hk)).
      destruct (o - n <? 0) eqn:S.
      * assert (D = n - o) by lia.
        destruct (Z_lt_le_dec n k); [nia|].
        destruct (Hv ((n - k) * X) (Hrep (n - k) ltac:(lia))) as [_ B].
        assert (v <= (n - k) * X) by (apply B; nia). nia.
      * assert (D = o - n) by lia.
        destruct (Z_lt_le_dec k n); [nia|].
        destruct (Hv ((k - n) * X) (Hrep (k - n) ltac:(lia))) as [A _].
        assert ((k - n) * X <= v) by (apply A; nia). nia.
    + assert (w <= k * X).
      { apply (Hw _ (Hrep _ Hk)).
        destruct (o - n <? 0) eqn:S.
        * assert (D = n - o) by lia.
          destruct (Z_lt_le_dec n k); [nia|].
          destruct (Hv ((n - k) * X) (Hrep (n - k) ltac:(lia))) as [A _].
          assert ((n - k) * X <= v) by (apply A; nia). nia.
        * assert (D = o - n) by lia.
          destruct (Z_lt_le_dec k n); [nia|].
          destruct (Hv ((k - n) * X) (Hrep (k - n) ltac:(lia))) as [_ B].
          assert (v <= (k - n) * X) by (apply B; nia). nia. }
      apply Z.div_le_upper_bound; lia.
Qed.

End ColourFacts.

(** ** The colour scaler *)

Section ColourTheorems.
Import Text Float Color ColorSpec TruncSpec.
Local Open Scope Z_scope.

Lemma fmt_02x_byte z : 0 <= z <= 255 -> fmt_02x z = two_hex z.
Proof.
  intros Hz.
  assert (H : forallb (fun n => bool_decide (fmt_02x (Z.of_nat n) = two_hex (Z.of_nat n)))
                (seq 0 256) = true) by (vm_compute; reflexivity).
  rewrite forallb_forall in H.
  assert (Hin : In (Z.to_nat z) (seq 0 256)) by (apply in_seq; lia).
  apply H in Hin. rewrite Z2Nat.id in Hin by lia.
  now apply bool_decide_eq_true in Hin.
Qed.

Lemma unit_interval f :
  valid f = true -> leb (Fin false 0) f = true ->
  leb f (Fin false one_units) = true ->
  (exists u, f = Fin false u /\ 0 <= u <= one_units) \/ f = Fin true 0.
Proof.
  destruct f as [|s|s u]; cbn [valid leb]; intros Hv H0 H1; try discriminate.
  - destruct s; discriminate.
  - apply representable_spec in Hv as [[Hu _] _].
    apply Z.leb_le in H0, H1. cbn [sgn] in H0, H1.
    destruct s; cbn [sgn] in H0, H1.
    + right. f_equal. lia.
    + left. exists u. split; [reflexivity|lia].
Qed.

Lemma channel_range n o f :
  0 <= n < 2 ^ 52 -> 0 <= o < 2 ^ 52 ->
  valid f = true -> leb (Fin false 0) f = true ->
  leb f (Fin false one_units) = true ->
  exists r, channel n o f = Ok r /\
    Z.min n o <= r <= Z.max n o /\
    interp_floor n o f <= r <= interp_ceil n o f.
Proof.
  intros Hn Ho Hv H0 H1. pose proof one_units_pos as HX.
  destruct (unit_interval f Hv H0 H1) as [(u & -> & Hu)| ->].
  - destruct (channel_sandwich n o u Hn Ho Hu) as (r & Hr & Hk).
    exists r. split; [exact Hr|].
    unfold interp_floor, interp_ceil, exact_units. cbn [sgn].
    rewrite Z.mul_1_l.
    set (E := n * one_units + (o - n) * u) in *.
    assert (HE : Z.min n o * one_units <= E <= Z.max n o * one_units)
      by (unfold E; nia).
    split; [split|split].
    + apply (Hk (Z.min n o)); lia.
    + apply (Hk (Z.max n o)); lia.
    + apply (Hk (E / one_units)).
      * split; [apply Z.div_le_lower_bound; lia|].
        apply Z.div_lt_upper_bound; nia.
      * rewrite Z.mul_comm. apply Z.mul_div_le. lia.
    + pose proof (Z.mul_div_le (- E) one_units HX).
      pose proof (Z.mod_pos_bound (- E) one_units HX).
      pose proof (Z.div_mod (- E) one_units ltac:(lia)).
      apply (Hk (- (- E / one_units))).
      * split; [nia|]. nia.
      * nia.
  - unfold channel.
    rewrite (of_int_small (o - n)) by lia.
    rewrite (of_int_small n) by lia.
    cbn [mbind result_bind].
    replace (n <? 0) with false by lia.
    rewrite (Z.abs_eq n) by lia.
    unfold mul. rewrite Z.mul_0_r.
    rewrite (mk_finite _ 0 one_units 0) by reflexivity.
    unfold add. rewrite Z.mul_0_r, Z.add_0_r. cbn [sgn]. rewrite Z.mul_1_l.
    destruct (n * one_units =? 0) eqn:Z0.
    + assert (n = 0) by nia. subst n. exists 0. split.
      { cbn [to_int]. rewrite Z.div_0_l by lia. f_equal; lia. }
      unfold interp_floor, interp_ceil, exact_units. cbn [sgn].
      replace (0 * one_units + (o - 0) * (-1 * 0)) with 0 by lia.
      change (- 0) with 0. rewrite Z.div_0_l by lia. lia.
    + replace (n * one_units <? 0) with false by nia.
      rewrite Z.abs_eq by nia.
      rewrite (mk_finite false _ 1 (n * one_units)).
      * exists n. split.
        { cbn [to_int sgn]. rewrite Z.mul_1_l, Z.div_mul by lia. reflexivity. }
        unfold interp_floor, interp_ceil, exact_units. cbn [sgn].
        replace (n * one_units + (o - n) * (-1 * 0)) with (n * one_units) by lia.
        rewrite <- Z.mul_opp_l, !Z.div_mul by lia. lia.
      * rewrite <- (Z.mul_1_r (n * one_units)) at 1.
        apply round_units_exact; [apply representable_int|]; lia.
      * apply int_units_finite; lia.
Qed.

(** The binary64 sum of a channel lies on the same side of every
    integer as the exact interpolation, and the channel is its integer
    part. *)
Lemma channel_value n o u :
  0 <= n < 2 ^ 52 -> 0 <= o < 2 ^ 52 -> 0 <= u <= one_units ->
  exists w,
    sum64 n o (Fin false u) = Fin false w /\
    channel n o (Fin false u) = Ok (w / one_units) /\
    0 <= w /\
    forall k, 0 <= k < 2 ^ 53 ->
      (k * one_units <= n * one_units + (o - n) * u -> k * one_units <= w) /\
      (n * one_units + (o - n) * u <= k * one_units -> w <= k * one_units).
Proof.
  intros Hn Ho Hu. pose proof one_units_pos as HX.
  unfold channel, sum64, int64.
  rewrite (of_int_small (o - n)) by lia.
  rewrite (of_int_small n) by lia.
  cbn [mbind result_bind].
  replace (n <? 0) with false by lia.
  rewrite (Z.abs_eq n) by lia.
  set (X := one_units) in *.
  set (D := Z.abs (o - n)).
  assert (HD : 0 <= D < 2 ^ 52) by lia.
  set (v := round_units (D * X * u) X).
  assert (Hv : forall c, representable c = true ->
            (c <= D * u -> c <= v) /\ (D * u <= c -> v <= c)).
  { intros c Hc.
    destruct (round_units_sandwich (D * X * u) X c ltac:(nia) HX Hc) as [A B].
    split; intros H; [apply A|apply B]; nia. }
  assert (Hv0 : 0 <= v).
  { apply (Hv 0); [reflexivity|nia]. }
  assert (HvD : v <= D * X).
  { apply (Hv (D * X)); [apply representable_int; lia|nia]. }
  assert (Hmul : mul (Fin (o - n <? 0) (D * X)) (Fin false u)
                 = Fin (o - n <? 0) v).
  { unfold mul. rewrite xorb_false_r. apply mk_finite; [reflexivity|].
    pose proof (int_units_finite D ltac:(lia)) as HF. fold X in HF. lia. }
  rewrite Hmul. clear Hmul.
  assert (Hrep : forall k, 0 <= k < 2 ^ 53 -> representable (k * X) = true)
    by (intros; apply representable_int; lia).
  assert (Hfin : forall k, 0 <= k < 2 ^ 53 -> k * X < overflow_units)
    by (intros; apply int_units_finite; lia).
  assert (Hz : exists z, 0 <= z /\ sgn false * (n * X) + sgn (o - n <? 0) * v = z
             /\ z = n * X + (if o - n <? 0 then - v else v)
             /\ z <= 2 ^ 52 * X).
  { exists (n * X + (if o - n <? 0 then - v else v)).
    destruct (o - n <? 0) eqn:S; cbn [sgn]; repeat split; try lia; nia. }
  destruct Hz as (z & Hz0 & Ez & Ez' & Hzmax).
  (* the exact value against an integer, through the product *)
  assert (Hlow : forall k, 0 <= k < 2 ^ 53 ->
            k * X <= n * X + (o - n) * u -> k * X <= z).
  { intros k Hk H. rewrite Ez'. destruct (o - n <? 0) eqn:S.
    - assert (D = n - o) by lia.
      destruct (Z_lt_le_dec n k); [nia|].
      destruct (Hv ((n - k) * X) (Hrep (n - k) ltac:(lia))) as [_ B].
      assert (v <= (n - k) * X) by (apply B; nia). nia.
    - assert (D = o - n) by lia.
      destruct (Z_lt_le_dec k n); [nia|].
      destruct (Hv ((k - n) * X) (Hrep (k - n) ltac:(lia))) as [A _].
      assert ((k - n) * X <= v) by (apply A; nia). nia. }
  assert (Hhigh : forall k, 0 <= k < 2 ^ 53 ->
            n * X + (o - n) * u <= k * X -> z <= k * X).
  { intros k Hk H. rewrite Ez'. destruct (o - n <? 0) eqn:S.
    - assert (D = n - o) by lia.
      destruct (Z_lt_le_dec n k); [nia|].
      destruct (Hv ((n - k) * X) (Hrep (n - k) ltac:(lia))) as [A _].
      assert ((n - k) * X <= v) by (apply A; nia). nia.
    - assert (D = o - n) by lia.
      destruct (Z_lt_le_dec k n); [nia|].
      destruct (Hv ((k - n) * X) (Hrep (k - n) ltac:(lia))) as [_ B].
      assert (v <= (k - n) * X) by (apply B; nia). nia. }
  unfold add. rewrite Ez.
  destruct (z =? 0) eqn:Z0.
  - exists 0. cbn [andb]. split; [reflexivity|].
    split; [cbn [to_int]; rewrite Z.div_0_l by lia; f_equal; lia|].
    split; [lia|].
    intros k Hk. assert (Hz00 : z = 0) by lia.
    split; intros H; [pose proof (Hlow k Hk H)|pose proof (Hhigh k Hk H)]; lia.
  - assert (Hzpos : 0 < z) by lia.
    replace (z <? 0) with false by lia.
    rewrite (Z.abs_eq z) by lia.
    set (w := round_units z 1).
    assert (Hw : forall c, representable c = true ->
              (c <= z -> c <= w) /\ (z <= c -> w <= c)).
    { intros c Hc.
      destruct (round_units_sandwich z 1 c ltac:(lia) ltac:(lia) Hc) as [A B].
      split; intros H; [apply A|apply B]; lia. }
    assert (Hwmax : w <= 2 ^ 52 * X)
      by (apply (Hw _ (Hrep (2 ^ 52) ltac:(lia))); lia).
    assert (Hw0 : 0 <= w) by (apply (Hw 0); [reflexivity|lia]).
    rewrite (mk_finite false z 1 w eq_refl)
      by (pose proof (Hfin (2 ^ 52) ltac:(lia)); lia).
    exists w. split; [reflexivity|].
    split; [cbn [to_int sgn]; rewrite Z.mul_1_l; reflexivity|].
    split; [exact Hw0|].
    intros k Hk. split; intros HE.
    + apply (Hw _ (Hrep _ Hk)). now apply Hlow.
    + apply (Hw _ (Hrep _ Hk)). now apply Hhigh.
Qed.

(** The channel is the binary64 sum with its fraction cut off; it
    leaves the integer below the exact value only when the binary64
    sum itself is the integer above. *)
Lemma channel_cut n o f r :
  0 <= n < 2 ^ 52 -> 0 <= o < 2 ^ 52 ->
  valid f = true -> leb (Fin false 0) f = true ->
  leb f (Fin false one_units) = true ->
  channel n o f = Ok r ->
  cut_off (sum64 n o f) r
  /\ (r <> interp_floor n o f ->
      r = interp_ceil n o f /\ sum64 n o f = int64 r).
Proof.
  intros Hn Ho Hv H0 H1 Hr. pose proof one_units_pos as HX.
  destruct (unit_interval f Hv H0 H1) as [(u & -> & Hu)| ->].
  - destruct (channel_value n o u Hn Ho Hu) as (w & Es & Ec & Hw0 & Hk).
    rewrite Ec in Hr. injection Hr as <-. rewrite Es.
    unfold interp_floor, interp_ceil, exact_units, int64. cbn [sgn].
    rewrite Z.mul_1_l.
    set (E := n * one_units + (o - n) * u) in *.
    assert (HE : 0 <= E <= Z.max n o * one_units) by (unfold E; nia).
    assert (Hq : 0 <= w / one_units) by (apply Z.div_pos; lia).
    pose proof (Z.mul_div_le w one_units HX) as L1.
    pose proof (Z.mod_pos_bound w one_units HX) as L2.
    pose proof (Z.div_mod w one_units ltac:(lia)) as L3.
    split.
    + cbn [cut_off sgn]. rewrite Z.abs_eq by lia. split; lia.
    + intros Hne.
      set (fl := E / one_units) in *.
      pose proof (Z.mul_div_le E one_units HX) as F1.
      pose proof (Z.mod_pos_bound E one_units HX) as F2.
      pose proof (Z.div_mod E one_units ltac:(lia)) as F3.
      fold fl in F1, F3.
      assert (Hfl : 0 <= fl < 2 ^ 52).
      { unfold fl. split; [apply Z.div_pos; lia|].
        apply Z.div_lt_upper_bound; [lia|]. nia. }
      (* the floor is a lower bound of the sum *)
      assert (B1 : fl * one_units <= w) by (apply (Hk fl); lia).
      assert (B2 : w <= (fl + 1) * one_units) by (apply (Hk (fl + 1)); lia).
      assert (Hr1 : w / one_units = fl + 1).
      { assert (fl <= w / one_units) by (apply Z.div_le_lower_bound; lia).
        assert (w / one_units <= fl + 1) by (apply Z.div_le_upper_bound; lia).
        lia. }
      assert (Ew : w = (fl + 1) * one_units) by nia.
      assert (Hni : E mod one_units <> 0).
      { intros Hz. assert (E = fl * one_units) by lia.
        assert (w <= fl * one_units) by (apply (Hk fl); lia). nia. }
      split.
      * rewrite Hr1.
        pose proof (Z.div_mod (- E) one_units ltac:(lia)) as G3.
        pose proof (Z.mod_pos_bound (- E) one_units HX) as G2.
        assert (- E / one_units = - (fl + 1)); [|lia].
        symmetry. apply (Z.div_unique_pos (- E) one_units (- (fl + 1))
                           (one_units - E mod one_units)); lia.
      * rewrite Hr1. replace (fl + 1 <? 0) with false by lia.
        rewrite Z.abs_eq by lia. now rewrite Ew.
  - (* the fraction -0.0 *)
    assert (Es : sum64 n o (Fin true 0) = Fin false (n * one_units)).
    { unfold sum64, int64. replace (n <? 0) with false by lia.
      rewrite (Z.abs_eq n) by lia.
      unfold mul. rewrite Z.mul_0_r.
      rewrite (mk_finite _ 0 one_units 0) by reflexivity.
      unfold add. rewrite Z.mul_0_r, Z.add_0_r. cbn [sgn]. rewrite Z.mul_1_l.
      destruct (n * one_units =? 0) eqn:Z0.
      - assert (n = 0) by nia. subst n. reflexivity.
      - replace (n * one_units <? 0) with false by nia.
        rewrite Z.abs_eq by nia.
        apply mk_finite.
        + rewrite <- (Z.mul_1_r (n * one_units)) at 1.
          apply round_units_exact; [apply representable_int|]; lia.
        + apply int_units_finite; lia. }
    assert (Ec : channel n o (Fin true 0) = Ok n).
    { unfold channel.
      rewrite (of_int_small (o - n)) by lia.
      rewrite (of_int_small n) by lia.
      cbn [mbind result_bind].
      change (Fin (n <? 0) (Z.abs n * one_units)) with (int64 n).
      change (Fin (o - n <? 0) (Z.abs (o - n) * one_units)) with (int64 (o - n)).
      fold (sum64 n o (Fin true 0)). rewrite Es.
      cbn [to_int sgn]. rewrite Z.mul_1_l, Z.div_mul by lia. reflexivity. }
    rewrite Ec in Hr. injection Hr as <-. rewrite Es. split.
    + cbn [cut_off sgn]. rewrite Z.abs_eq by lia. split; lia.
    + intros Hne. exfalso. apply Hne.
      unfold interp_floor, exact_units. cbn [sgn].
      replace (n * one_units + (o - n) * (-1 * 0)) with (n * one_units) by lia.
      now rewrite Z.div_mul by lia.
Qed.

(** C2, as amended.  For every binary64 fraction from 0 to 1 the scaler
    returns [#rrggbb], each channel written as two hexadecimal digits
    of an integer from 0 to 255.  The integer is the binary64 value of
    [newest + (oldest - newest) * fraction] with its fraction cut off
    ([int] truncates, it does not round to the nearest integer): it is
    the integer below the exact value, or the integer above it when,
    and only when, the binary64 sum itself is that integer.  The
    fractions 0.0, 1.0 and 0.5 give [#e74c3c], [#2c3e50] and
    [#894546], the last being the midpoint (137.5, 69, 70) cut to
    (137, 69, 70); the fraction 0.75 gives [#5a414b], red being 90 for
    the exact 90.75. *)
Theorem age_color_truncates (f : float) :
  valid f = true ->
  leb (Fin false 0) f = true ->
  leb f (Fin false one_units) = true ->
  (exists r g b,
     channel 231 44 f = Ok r /\ channel 76 62 f = Ok g /\
     channel 60 80 f = Ok b /\
     age_color f = Ok (triplet r g b) /\
     (44 <= r <= 231 /\ 62 <= g <= 76 /\ 60 <= b <= 80) /\
     (interp_floor 231 44 f <= r <= interp_ceil 231 44 f) /\
     (interp_floor 76 62 f <= g <= interp_ceil 76 62 f) /\
     (interp_floor 60 80 f <= b <= interp_ceil 60 80 f) /\
     (cut_off (sum64 231 44 f) r /\ cut_off (sum64 76 62 f) g
      /\ cut_off (sum64 60 80 f) b) /\
     (r <> interp_floor 231 44 f ->
      r = interp_ceil 231 44 f /\ sum64 231 44 f = int64 r) /\
     (g <> interp_floor 76 62 f ->
      g = interp_ceil 76 62 f /\ sum64 76 62 f = int64 g) /\
     (b <> interp_floor 60 80 f ->
      b = interp_ceil 60 80 f /\ sum64 60 80 f = int64 b))
  /\ age_color f_zero = Ok (txt "#e74c3c")
  /\ age_color f_one = Ok (txt "#2c3e50")
  /\ age_color f_half = Ok (txt "#894546")
  /\ age_color f_three_quarters = Ok (txt "#5a414b").
Proof.
  intros Hv H0 H1.
  split; [|split; [|split; [|split]]; vm_compute; reflexivity].
  destruct (channel_range 231 44 f ltac:(lia) ltac:(lia) Hv H0 H1)
    as (r & Er & Br & Fr).
  destruct (channel_range 76 62 f ltac:(lia) ltac:(lia) Hv H0 H1)
    as (g & Eg & Bg & Fg).
  destruct (channel_range 60 80 f ltac:(lia) ltac:(lia) Hv H0 H1)
    as (b & Eb & Bb & Fb).
  destruct (channel_cut 231 44 f r ltac:(lia) ltac:(lia) Hv H0 H1 Er)
    as [Cr Ur].
  destruct (channel_cut 76 62 f g ltac:(lia) ltac:(lia) Hv H0 H1 Eg)
    as [Cg Ug].
  destruct (channel_cut 60 80 f b ltac:(lia) ltac:(lia) Hv H0 H1 Eb)
    as [Cb Ub].
  exists r, g, b.
  split; [exact Er|]. split; [exact Eg|]. split; [exact Eb|].
  split.
  { unfold age_color. rewrite Er, Eg, Eb. cbn [mbind result_bind].
    rewrite !fmt_02x_byte by lia. reflexivity. }
  split; [lia|].
  split; [exact Fr|]. split; [exact Fg|]. split; [exact Fb|].
  split; [auto|]. split; [exact Ur|]. split; [exact Ug|exact Ub].
Qed.

Lemma age_color_truncates_witness :
  exists r g b,
    age_color f_three_quarters = Ok (triplet r g b) /\
    (44 <= r <= 231 /\ 62 <= g <= 76 /\ 60 <= b <= 80) /\
    cut_off (sum64 231 44 f_three_quarters) r.
Proof.
  destruct (age_color_truncates f_three_quarters)
    as [(r & g & b & _ & _ & _ & Ha & Hb & _ & _ & _ & (Hc & _) & _) _];
    [vm_compute; reflexivity ..|].
  exists r, g, b. split; [exact Ha|]. split; [exact Hb|exact Hc].
Defined.

(** C2, as stated, fails.  At the fraction 0.75 the red channel is 90
    while the exact value is 90.75, whose nearest integer is 91: the
    scaler cuts the fraction off ([int]), it does not round.  At 0.5
    it returns [#894546], not the rounded midpoint [#8a4546]. *)
Lemma age_color_does_not_round :
  channel 231 44 f_three_quarters = Ok 90
  /\ age_color f_three_quarters = Ok (txt "#5a414b")
  /\ ~ nearest_to 231 44 f_three_quarters 90
  /\ nearest_to 231 44 f_three_quarters 91
  /\ age_color f_half = Ok (triplet 137 69 70)
  /\ age_color f_half <> Ok (triplet 138 69 70).
Proof.
  split; [vm_compute; reflexivity|].
  split; [vm_compute; reflexivity|].
  split; [intros H; vm_compute in H; apply H; reflexivity|].
  split; [vm_compute; discriminate|].
  split; [vm_compute; reflexivity|].
  vm_compute. discriminate.
Qed.

End ColourTheorems.

(** ** The grouper *)

Section FloatEquality.
Import Float.
Local Open Scope Z_scope.

Lemma eqb_sym a b : eqb a b = eqb b a.
Proof.
  destruct a as [|s1|s1 u1], b as [|s2|s2 u2]; cbn [eqb]; try reflexivity.
  - now destruct s1, s2.
  - rewrite (Z.eqb_sym u1 u2), (andb_comm (u1 =? 0)).
    now destruct s1, s2.
Qed.

Lemma eqb_trans a b c : eqb a b = true -> eqb b c = true -> eqb a c = true.
Proof.
  destruct a as [|s1|s1 u1], b as [|s2|s2 u2], c as [|s3|s3 u3];
    cbn [eqb]; try discriminate.
  - destruct s1, s2, s3; cbn; congruence.
  - intros H1 H2.
    apply orb_prop in H1. apply orb_prop in H2.
    apply orb_true_intro.
    destruct H1 as [H1|H1], H2 as [H2|H2];
      apply andb_prop in H1 as [A1 B1]; apply andb_prop in H2 as [A2 B2].
    + left. now rewrite A1, B2.
    + left. apply Z.eqb_eq in B2. subst u3. now rewrite A1, B1.
    + left. apply Z.eqb_eq in B1. subst u2. now rewrite A2, B2.
    + right. apply Z.eqb_eq in B1, B2. subst.
      rewrite Z.eqb_refl, andb_true_r.
      destruct s1, s2, s3; cbn in *; congruence.
Qed.

Lemma eqb_refl a : is_nan a = false -> eqb a a = true.
Proof.
  destruct a as [|s|s u]; cbn; try discriminate; intros _.
  - now destruct s.
  - rewrite Z.eqb_refl, andb_true_r. destruct s; apply orb_true_r.
Qed.

Lemma mk_not_nan s n d : is_nan (mk s n d) = false.
Proof. unfold mk. now destruct (overflow_units <=? round_units n d). Qed.

(** A multiple of [one_units]: what a binary64 number of [2^52] and
    more is. *)
Lemma large_is_integer u :
  representable u = true -> 2 ^ 52 * one_units <= u ->
  exists m, u = m * one_units.
Proof.
  intros Hr Hu. pose proof one_units_pos as HX.
  apply representable_spec in Hr as [[H0 _] [Hs|Hm]].
  - exfalso. assert (2 ^ 53 <= 2 ^ 52 * one_units); [|lia].
    change (2 ^ 53) with (2 ^ 52 * 2). apply Z.mul_le_mono_nonneg_l; [lia|].
    unfold one_units. change 2 with (2 ^ 1) at 1.
    apply Z.pow_le_mono_r; lia.
  - assert (Hl : 1074 + 52 <= Z.log2 u).
    { apply Z.log2_le_pow2; [nia|]. rewrite Z.pow_add_r by lia.
      fold one_units. lia. }
    apply Z.mod_divide in Hm.
    2:{ apply Z.pow_nonzero; lia. }
    destruct Hm as [m Hm].
    exists (m * 2 ^ (Z.log2 u - 52 - 1074)).
    rewrite Hm at 1. unfold one_units.
    rewrite <- Z.mul_assoc, <- Z.pow_add_r by lia.
    do 2 f_equal. lia.
Qed.

(** [round(f, 5)] returns for every binary64 value. *)
Lemma round5_returns f :
  valid f = true -> exists r, round5 f = Ok r /\ is_nan r = is_nan f.
Proof.
  destruct f as [|s|s u]; cbn [valid round5]; intros Hv; eauto.
  pose proof one_units_pos as HX.
  pose proof (representable_spec u Hv) as [[H0 Hov] _].
  set (n := rne_div (u * 10 ^ 5) one_units).
  assert (Hfin : round_units (n * one_units) (10 ^ 5) < overflow_units).
  { destruct (Z_lt_le_dec u (2 ^ 52 * one_units)) as [Hs|Hl].
    - assert (Hn : n <= (2 ^ 52 + 1) * 10 ^ 5).
      { apply rne_div_upper; [exact HX|]. nia. }
      assert (Hn0 : 0 <= n).
      { apply (rne_div_lower _ _ 0); [exact HX|nia]. }
      pose proof (int_units_finite (2 ^ 52 + 1) ltac:(lia)).
      assert (round_units (n * one_units) (10 ^ 5) <= (2 ^ 52 + 1) * one_units);
        [|lia].
      apply round_units_le; [nia|lia|apply representable_int; lia|nia].
    - destruct (large_is_integer u Hv Hl) as [m Hm].
      assert (En : n = m * 10 ^ 5).
      { unfold n. rewrite Hm.
        replace (m * one_units * 10 ^ 5) with (m * 10 ^ 5 * one_units) by ring.
        apply rne_div_exact. exact HX. }
      rewrite En.
      replace (m * 10 ^ 5 * one_units) with (u * 10 ^ 5) by (rewrite Hm; ring).
      rewrite round_units_exact by (assumption || lia). exact Hov. }
  unfold mk. fold n.
  destruct (overflow_units <=? round_units (n * one_units) (10 ^ 5)) eqn:C;
    [lia|]. eauto.
Qed.

End FloatEquality.

Section RoundFacts.
Import Float RoundSpec.
Local Open Scope Z_scope.

Lemma rne_div_nearest n d :
  0 < d -> nearest_integer n d (rne_div n d).
Proof.
  intros Hd. unfold nearest_integer, rne_div.
  pose proof (Z.div_mod n d ltac:(lia)) as E.
  pose proof (Z.mod_pos_bound n d Hd) as B.
  destruct (2 * (n mod d) <? d) eqn:C1; [split; [|intros H]; lia|].
  destruct (d <? 2 * (n mod d)) eqn:C2; [split; [|intros H]; lia|].
  destruct (Z.even (n / d)) eqn:C3.
  - split; [lia|auto].
  - split; [lia|]. intros _. rewrite Z.even_add, C3. reflexivity.
Qed.

Lemma round5_rounded f r : round5 f = Ok r -> rounded5 f r.
Proof.
  destruct f as [|s|s u]; cbn [round5 rounded5].
  - now intros [= <-].
  - now intros [= <-].
  - intros H. exists (rne_div (u * 10 ^ 5) one_units).
    split; [apply rne_div_nearest; reflexivity|].
    unfold of_decimal.
    destruct (mk s _ _) eqn:E; try discriminate H; now injection H as <-.
Qed.

(** The rounding is determined: there is one nearest integer with the
    tie rule, so one rounded value. *)
Lemma nearest_integer_unique num den n n' :
  0 < den -> nearest_integer num den n -> nearest_integer num den n' ->
  n = n'.
Proof.
  intros Hd [A1 A2] [B1 B2].
  assert (H : -1 <= n - n' <= 1) by nia.
  destruct (Z.eq_dec n n') as [|Hne]; [assumption|exfalso].
  assert (T1 : 2 * Z.abs (num - n * den) = den) by nia.
  assert (T2 : 2 * Z.abs (num - n' * den) = den) by nia.
  specialize (A2 T1). specialize (B2 T2).
  assert (E : n' = n + 1 \/ n' = n - 1) by lia.
  destruct E as [-> | ->].
  - rewrite Z.even_add, A2 in B2. discriminate B2.
  - rewrite Z.even_sub, A2 in B2. discriminate B2.
Qed.

Lemma rounded5_unique f r r' : rounded5 f r -> rounded5 f r' -> r = r'.
Proof.
  destruct f as [|s|s u]; cbn [rounded5]; [congruence|congruence|].
  intros (n & Hn & ->) (n' & Hn' & ->).
  now rewrite (nearest_integer_unique _ _ n n' one_units_pos Hn Hn').
Qed.
End RoundFacts.

Section KeyEquality.
Import Group.

Lemma key_eqb_sym a b : key_eqb a b = key_eqb b a.
Proof. unfold key_eqb. now rewrite (eqb_sym (fst a)), (eqb_sym (snd a)). Qed.

Lemma key_eqb_trans a b c :
  key_eqb a b = true -> key_eqb b c = true -> key_eqb a c = true.
Proof.
  unfold key_eqb. intros H1 H2.
  apply andb_prop in H1 as [A1 B1]. apply andb_prop in H2 as [A2 B2].
  now rewrite (eqb_trans _ _ _ A1 A2), (eqb_trans _ _ _ B1 B2).
Qed.

Lemma key_eqb_self a b : key_eqb a b = true -> key_eqb a a = true.
Proof.
  intros H. apply (key_eqb_trans a b a H). now rewrite key_eqb_sym.
Qed.

End KeyEquality.

Section GrouperFacts.
Import Group GroupSpec RoundSpec.
Context {A : Type}.
Variable lat lon : A -> option Float.float.

Abbreviation key_of := (key_of lat lon).
Abbreviation keyed := (keyed lat lon).

(** Keys that differ pairwise. *)
Fixpoint apart (ks : list key) : Prop :=
  match ks with
  | [] => True
  | k :: rest => Forall (fun k' => key_eqb k k' = false) rest /\ apart rest
  end.

Lemma apart_filter p ks : apart ks -> apart (List.filter p ks).
Proof.
  induction ks as [|k rest IH]; cbn; [easy|]. intros [H1 H2].
  destruct (p k); cbn; [split|]; auto.
  rewrite List.Forall_forall in *. intros x Hx. apply filter_In in Hx. apply H1, Hx.
Qed.

Lemma first_seen_apart ks : apart (first_seen ks).
Proof.
  induction ks as [|k rest IH]; cbn; [easy|]. split.
  - rewrite List.Forall_forall. intros x Hx. apply filter_In in Hx as [_ Hx].
    now apply negb_true_iff in Hx.
  - now apply apart_filter.
Qed.

Definition seen (k : key) (ks : list key) : bool :=
  existsb (fun k' => key_eqb k' k) ks.

Lemma seen_filter k0 k ks :
  key_eqb k0 k = false ->
  seen k (List.filter (fun k' => negb (key_eqb k0 k')) ks) = seen k ks.
Proof.
  intros Hne. unfold seen.
  induction ks as [|x rest IH]; cbn; [reflexivity|].
  destruct (key_eqb k0 x) eqn:E; cbn.
  - rewrite IH. destruct (key_eqb x k) eqn:E2; [|reflexivity].
    rewrite (key_eqb_trans _ _ _ E E2) in Hne. discriminate.
  - now rewrite IH.
Qed.

Lemma seen_cons k x ks : seen k (x :: ks) = key_eqb x k || seen k ks.
Proof. reflexivity. Qed.

Lemma seen_first_seen k ks : seen k (first_seen ks) = seen k ks.
Proof.
  induction ks as [|x rest IH]; [reflexivity|].
  cbn [first_seen]. rewrite !seen_cons.
  destruct (key_eqb x k) eqn:E; cbn; [reflexivity|].
  now rewrite seen_filter.
Qed.

Lemma first_seen_snoc ks k :
  first_seen (ks ++ [k]) = first_seen ks ++ (if seen k ks then [] else [k]).
Proof.
  induction ks as [|x rest IH]; [reflexivity|].
  cbn [app first_seen]. rewrite IH, List.filter_app, seen_cons.
  f_equal. f_equal.
  destruct (key_eqb x k) eqn:E; cbn.
  - now destruct (seen k rest); cbn; rewrite ?E.
  - destruct (seen k rest); cbn; [reflexivity|]. now rewrite E.
Qed.

Lemma records_with_snoc k' (pairs : list (key * A)) k s :
  records_with k' (pairs ++ [(k, s)])
  = records_with k' pairs ++ (if key_eqb k' k then [s] else []).
Proof.
  unfold records_with. rewrite List.filter_app, map_app. cbn.
  now destruct (key_eqb k' k).
Qed.

Lemma records_with_unseen k (pairs : list (key * A)) :
  seen k (map fst pairs) = false -> records_with k pairs = [].
Proof.
  unfold records_with.
  induction pairs as [|[k0 s0] rest IH]; [reflexivity|].
  cbn [map fst]. rewrite seen_cons. cbn.
  intros H. apply orb_false_elim in H as [H1 H2].
  rewrite key_eqb_sym, H1. now apply IH.
Qed.

(** [append_to] on a mapping whose keys differ pairwise. *)
Lemma append_to_apart (f : key -> list A) ks k s :
  apart ks ->
  append_to (map (fun k' => (k', f k')) ks) k s
  = map (fun k' => (k', f k' ++ (if key_eqb k' k then [s] else []))) ks
    ++ (if seen k ks then [] else [(k, [s])]).
Proof.
  induction ks as [|x rest IH]; [reflexivity|]. intros [H1 H2].
  cbn [map append_to]. rewrite seen_cons.
  destruct (key_eqb x k) eqn:E; cbn.
  - rewrite app_nil_r. f_equal.
    apply map_ext_in. intros y Hy.
    rewrite List.Forall_forall in H1. specialize (H1 y Hy).
    destruct (key_eqb y k) eqn:E2; [|now rewrite app_nil_r].
    rewrite key_eqb_sym in E2.
    rewrite (key_eqb_trans _ _ _ E E2) in H1. discriminate.
  - rewrite app_nil_r. f_equal. now apply IH.
Qed.

Definition insert_all (g : groups) (pairs : list (key * A)) : groups :=
  fold_left (fun g p => append_to g (fst p) (snd p)) pairs g.

Lemma insert_all_grouped (pairs : list (key * A)) :
  Forall (fun p => key_eqb (fst p) (fst p) = true) pairs ->
  insert_all [] pairs = grouped pairs.
Proof.
  induction pairs as [|[k s] pairs IH] using rev_ind; [reflexivity|].
  intros H. apply Forall_app in H as [H1 H2].
  apply Forall_inv in H2. cbn in H2.
  unfold insert_all in *. rewrite fold_left_app. cbn. rewrite (IH H1).
  unfold grouped. rewrite map_app. cbn [map fst].
  rewrite first_seen_snoc, map_app.
  rewrite append_to_apart by apply first_seen_apart.
  rewrite seen_first_seen. f_equal.
  - apply map_ext. intros k'. now rewrite records_with_snoc.
  - destruct (seen k (map fst pairs)) eqn:E; [reflexivity|]. cbn.
    rewrite records_with_snoc, H2, records_with_unseen by exact E.
    reflexivity.
Qed.

Lemma group_from_keyed l pairs g :
  keyed l = Ok pairs ->
  group_from lat lon g l = Ok (insert_all g pairs) /\ map snd pairs = l.
Proof.
  revert pairs g. induction l as [|s l IH]; cbn; intros pairs g H.
  - injection H as <-. easy.
  - destruct (key_of s) as [k|e] eqn:Ek; cbn in *; [|discriminate].
    destruct (keyed l) as [r|e] eqn:Er; cbn in *; [|discriminate].
    injection H as <-. cbn.
    destruct (IH r (append_to g k s) eq_refl) as [-> ->]. easy.
Qed.

Lemma keyed_In l pairs k s :
  keyed l = Ok pairs -> In (k, s) pairs -> key_of s = Ok k.
Proof.
  revert pairs. induction l as [|x l IH]; cbn; intros pairs H Hin.
  - injection H as <-. destruct Hin.
  - destruct (key_of x) as [kx|e] eqn:Ek; cbn in *; [|discriminate].
    destruct (keyed l) as [r|e] eqn:Er; cbn in *; [|discriminate].
    injection H as <-. destruct Hin as [Hin|Hin].
    + now injection Hin as <- <-.
    + now apply (IH r).
Qed.

Lemma key_of_returns s :
  placed lat lon s = true ->
  exists k, key_of s = Ok k /\
    (placed_number lat lon s = true -> key_eqb k k = true).
Proof.
  unfold placed, placed_number, Group.key_of, round_entry.
  destruct (lat s) as [a|]; [|discriminate].
  destruct (lon s) as [b|]; [|discriminate].
  intros H. apply andb_prop in H as [Ha Hb].
  destruct (round5_returns a Ha) as (ra & -> & Na).
  destruct (round5_returns b Hb) as (rb & -> & Nb).
  exists (ra, rb). split; [reflexivity|].
  rewrite Ha, Hb. cbn. intros H. apply andb_prop in H as [H1 H2].
  apply negb_true_iff in H1, H2.
  unfold key_eqb. cbn. rewrite !eqb_refl by congruence. reflexivity.
Qed.

Lemma placed_number_placed s :
  placed_number lat lon s = true -> placed lat lon s = true.
Proof.
  unfold placed, placed_number.
  destruct (lat s), (lon s); try discriminate.
  intros H. apply andb_prop in H as [H _]. now apply andb_prop in H as [H _].
Qed.

Lemma keyed_returns l :
  Forall (fun s => placed lat lon s = true) l ->
  exists pairs, keyed l = Ok pairs /\
    (Forall (fun s => placed_number lat lon s = true) l ->
     Forall (fun p => key_eqb (fst p) (fst p) = true) pairs).
Proof.
  induction 1 as [|s l Hs Hl (r & Er & Hr)]; cbn.
  - exists []. split; [reflexivity|]. constructor.
  - destruct (key_of_returns s Hs) as (k & -> & Hk). rewrite Er. cbn.
    exists ((k, s) :: r). split; [reflexivity|].
    intros H. apply Forall_cons_iff in H as [H1 H2].
    constructor; [now apply Hk|now apply Hr].
Qed.

Lemma append_to_members (g : @groups A) k s :
  Permutation (members (append_to g k s)) (members g ++ [s]).
Proof.
  unfold members. induction g as [|[k' rs] g IH]; cbn; [reflexivity|].
  destruct (key_eqb k' k); cbn.
  - rewrite <- !app_assoc. apply Permutation_app_head, Permutation_app_comm.
  - rewrite <- app_assoc. now apply Permutation_app_head.
Qed.

Lemma insert_all_members pairs (g : @groups A) :
  Permutation (members (insert_all g pairs)) (members g ++ map snd pairs).
Proof.
  revert g. induction pairs as [|[k s] pairs IH]; intros g.
  - cbn. now rewrite app_nil_r.
  - change (insert_all g ((k, s) :: pairs))
      with (insert_all (append_to g k s) pairs).
    rewrite IH, append_to_members, <- app_assoc. reflexivity.
Qed.

Lemma total_size_members (g : @groups A) : total_size g = length (members g).
Proof.
  unfold total_size, members. induction g as [|[k rs] g IH]; cbn; [reflexivity|].
  now rewrite length_app, IH.
Qed.

(** C4.  The records, all with coordinates that are numbers, are keyed
    by [(round(lat, 5), round(lon, 5))]: the key of a record is its
    latitude and its longitude, each rounded to five decimal places
    (the decimal [n / 10^5] nearest to the coordinate, ties to the even
    [n], read as binary64).  The mapping returned has the keys in the
    order in which each is met first, and under each key the records
    whose key equals it, in the order of the input.  So two records are
    in one group exactly when their rounded coordinates are equal.  Of
    the records at (42.12345, -71.54321), (42.123451, -71.543211) and
    (42.1234, -71.5432) the first two share the group of the key
    (42.12345, -71.54321) and the third has the group of the key
    (42.1234, -71.5432). *)
Theorem group_sightings_by_rounded_key (l : list A) :
  Forall (fun s => placed_number lat lon s = true) l ->
  (exists pairs,
    keyed l = Ok pairs /\ map snd pairs = l /\
    group_sightings lat lon l = Ok (grouped pairs) /\
    (forall s ks, In (ks, s) pairs ->
       exists a b, lat s = Some a /\ lon s = Some b
                   /\ rounded5 a (fst ks) /\ rounded5 b (snd ks)) /\
    forall s t ks kt, In (ks, s) pairs -> In (kt, t) pairs ->
      (key_eqb ks kt = true <->
       exists k rs, In (k, rs) (grouped pairs) /\ In s rs /\ In t rs))
  /\ group_sightings fst snd [p_a; p_b; p_c]
     = Ok [(key_ab, [p_a; p_b]); (key_c, [p_c])].
Proof.
  intros Hl. split; [|vm_compute; reflexivity].
  assert (Hp : Forall (fun s => placed lat lon s = true) l).
  { eapply List.Forall_impl; [|exact Hl]. apply placed_number_placed. }
  destruct (keyed_returns l Hp) as (pairs & Ek & Hself).
  specialize (Hself Hl).
  destruct (group_from_keyed l pairs [] Ek) as [Eg El].
  exists pairs. split; [exact Ek|]. split; [exact El|].
  split; [unfold group_sightings; now rewrite Eg, insert_all_grouped|].
  split.
  { intros s ks Hin. pose proof (keyed_In l pairs ks s Ek Hin) as K.
    unfold Group.key_of, round_entry in K.
    destruct (lat s) as [a|]; [|discriminate K].
    destruct (lon s) as [b|]; [|destruct (Float.round5 a); discriminate K].
    destruct (Float.round5 a) as [ra|e] eqn:Ea; [|discriminate K].
    destruct (Float.round5 b) as [rb|e] eqn:Eb; [|discriminate K].
    cbn in K. injection K as <-. exists a, b.
    split; [reflexivity|]. split; [reflexivity|].
    split; now apply round5_rounded. }
  intros s t ks kt Hs Ht.
  assert (Hmem : forall k x kx, In (kx, x) pairs -> key_eqb k kx = true ->
            In x (records_with k pairs)).
  { intros k x kx Hx E. unfold records_with.
    apply (in_map snd _ (kx, x)). apply filter_In. now split. }
  assert (Hkey : forall k x kx, In (kx, x) pairs ->
            In x (records_with k pairs) -> key_eqb k kx = true).
  { intros k x kx Hx Hin. unfold records_with in Hin.
    apply in_map_iff in Hin as ([k' x'] & Ex & Hin). cbn in Ex. subst x'.
    apply filter_In in Hin as [Hin E]. cbn in E.
    pose proof (keyed_In l pairs _ _ Ek Hin) as K1.
    pose proof (keyed_In l pairs _ _ Ek Hx) as K2.
    rewrite K1 in K2. now injection K2 as <-. }
  split.
  - intros E.
    assert (Hseen : seen ks (first_seen (map fst pairs)) = true).
    { rewrite seen_first_seen. apply existsb_exists. exists ks. split.
      - apply (in_map fst _ (ks, s)), Hs.
      - now apply (key_eqb_self ks kt). }
    apply existsb_exists in Hseen as (k & Hk & Ekk).
    exists k, (records_with k pairs). split; [|split].
    + unfold grouped. apply (in_map (fun k => (k, records_with k pairs))), Hk.
    + now apply (Hmem k s ks).
    + apply (Hmem k t kt); [exact Ht|]. now apply (key_eqb_trans k ks kt).
  - intros (k & rs & Hin & Hsr & Htr).
    unfold grouped in Hin. apply in_map_iff in Hin as (k' & Ex & _).
    injection Ex as -> <-.
    pose proof (Hkey k s ks Hs Hsr) as E1.
    pose proof (Hkey k t kt Ht Htr) as E2.
    apply (key_eqb_trans ks k kt); [now rewrite key_eqb_sym|exact E2].
Qed.

(** C10.  For records that all have coordinates the grouper returns,
    and its group lists taken together are the input rearranged: no
    record is dropped or repeated, and the sizes of the groups add up
    to the length of the input. *)
Theorem group_sightings_partitions (l : list A) :
  Forall (fun s => placed lat lon s = true) l ->
  exists g,
    group_sightings lat lon l = Ok g /\
    Permutation (members g) l /\
    total_size g = length l.
Proof.
  intros Hp.
  destruct (keyed_returns l Hp) as (pairs & Ek & _).
  destruct (group_from_keyed l pairs [] Ek) as [Eg El].
  exists (insert_all [] pairs). split; [exact Eg|].
  assert (P : Permutation (members (insert_all [] pairs)) l).
  { rewrite insert_all_members. cbn. now rewrite El. }
  split; [exact P|].
  rewrite total_size_members. now apply Permutation_length.
Qed.

End GrouperFacts.

Section GrouperExamples.
Import Group GroupSpec RoundSpec.

(** The example of the specification: (42.12345, -71.54321) and
    (42.123451, -71.543211) share a group, (42.1234, -71.5432) has one
    of its own. *)
Example group_sightings_spec_example :
  exists k1 k2,
    group_sightings fst snd [p_a; p_b; p_c]
    = Ok [(k1, [p_a; p_b]); (k2, [p_c])].
Proof. eexists _, _. vm_compute. reflexivity. Qed.

Lemma group_sightings_by_rounded_key_witness :
  (exists pairs,
     keyed fst snd [p_a; p_b; p_c] = Ok pairs /\
     group_sightings fst snd [p_a; p_b; p_c] = Ok (grouped pairs) /\
     forall s ks, In (ks, s) pairs ->
       exists a b, fst s = Some a /\ snd s = Some b
                   /\ rounded5 a (fst ks) /\ rounded5 b (snd ks))
  /\ group_sightings fst snd [p_a; p_b; p_c]
     = Ok [(key_ab, [p_a; p_b]); (key_c, [p_c])].
Proof.
  destruct (group_sightings_by_rounded_key fst snd [p_a; p_b; p_c])
    as [(pairs & H1 & _ & H2 & H3 & _) H4].
  - repeat (apply List.Forall_cons; [vm_compute; reflexivity|]).
    apply List.Forall_nil.
  - split; [|exact H4]. exists pairs.
    split; [exact H1|]. split; [exact H2|exact H3].
Defined.

Lemma group_sightings_partitions_witness :
  exists g,
    group_sightings fst snd [p_a; p_b; p_c] = Ok g /\
    total_size g = 3%nat.
Proof.
  destruct (group_sightings_partitions fst snd [p_a; p_b; p_c])
    as (g & H1 & _ & H2).
  - repeat (apply List.Forall_cons; [vm_compute; reflexivity|]).
    apply List.Forall_nil.
  - exists g. split; assumption.
Defined.

End GrouperExamples.


(** ** The matcher *)

Section MatcherFacts.
Import Text Regex.

(** What a match can consume and capture, whatever the order in which
    the alternatives are tried. *)
Inductive Matches : regex -> str -> caps -> str -> caps -> Prop :=
| MEps s c : Matches Eps s c s c
| MClass p a s c : p a = true -> Matches (Class p) (a :: s) c s c
| MCat r1 r2 s c s1 c1 s2 c2 :
    Matches r1 s c s1 c1 -> Matches r2 s1 c1 s2 c2 ->
    Matches (Cat r1 r2) s c s2 c2
| MAltL r1 r2 s c s' c' : Matches r1 s c s' c' -> Matches (Alt r1 r2) s c s' c'
| MAltR r1 r2 s c s' c' : Matches r2 s c s' c' -> Matches (Alt r1 r2) s c s' c'
| MStarO g r s c : Matches (Star g r) s c s c
| MStarS g r s c s1 c1 s2 c2 :
    Matches r s c s1 c1 -> Matches (Star g r) s1 c1 s2 c2 ->
    Matches (Star g r) s c s2 c2
| MGroup n r s c s' c' :
    Matches r s c s' c' ->
    Matches (Group n r) s c s' (<[n := take (length s - length s') s]> c')
| MNotAhead r s c : Matches (NotAhead r) s c s c
| MEol s c : at_end s = true -> Matches Eol s c s c.

Lemma star_loop_sound {A} g (step : str -> caps -> (str -> caps -> option A) -> option A) r :
  (forall s c k v, step s c k = Some v ->
     exists s' c', Matches r s c s' c' /\ k s' c' = Some v) ->
  forall fuel s c k v,
    star_loop g step fuel s c k = Some v ->
    exists s' c', Matches (Star g r) s c s' c' /\ k s' c' = Some v.
Proof.
  intros Hstep. induction fuel as [|fuel IH]; intros s c k v H; cbn in H.
  - exists s, c. split; [constructor|exact H].
  - assert (Hmore : forall w,
        step s c (fun s' c' =>
          if (length s' <? length s)%nat
          then star_loop g step fuel s' c' k else None) = Some w ->
        exists s' c', Matches (Star g r) s c s' c' /\ k s' c' = Some w).
    { intros w Hw. apply Hstep in Hw as (s1 & c1 & M1 & Hk).
      destruct (length s1 <? length s)%nat; [|discriminate].
      apply IH in Hk as (s2 & c2 & M2 & Hk).
      exists s2, c2. split; [|exact Hk]. econstructor; eassumption. }
    assert (Hstop : forall w, k s c = Some w ->
        exists s' c', Matches (Star g r) s c s' c' /\ k s' c' = Some w).
    { intros w Hw. exists s, c. split; [constructor|exact Hw]. }
    unfold orelse in H.
    destruct g.
    + destruct (step s c _) as [w|] eqn:E.
      * injection H as <-. now apply Hmore.
      * now apply Hstop.
    + destruct (k s c) as [w|] eqn:E.
      * injection H as <-. now apply Hstop.
      * now apply Hmore.
Qed.

(** Whatever the matcher answers, a match gave it. *)
Lemma rmatch_sound {A} r : forall s c (k : str -> caps -> option A) v,
  rmatch r s c k = Some v ->
  exists s' c', Matches r s c s' c' /\ k s' c' = Some v.
Proof.
  induction r as [|p|r1 IH1 r2 IH2|r1 IH1 r2 IH2|g r IH|n r IH|r IH|];
    intros s c k v H; cbn in H.
  - exists s, c. split; [constructor|exact H].
  - destruct s as [|a s]; [discriminate|].
    destruct (p a) eqn:E; [|discriminate].
    exists s, c. split; [now constructor|exact H].
  - apply IH1 in H as (s1 & c1 & M1 & H).
    apply IH2 in H as (s2 & c2 & M2 & H).
    exists s2, c2. split; [econstructor; eassumption|exact H].
  - unfold orelse in H. destruct (rmatch r1 s c k) as [w|] eqn:E.
    + injection H as <-. apply IH1 in E as (s1 & c1 & M1 & E).
      exists s1, c1. split; [now apply MAltL|exact E].
    + apply IH2 in H as (s1 & c1 & M1 & E').
      exists s1, c1. split; [now apply MAltR|exact E'].
  - eapply star_loop_sound; [|exact H]. intros. now apply IH.
  - apply IH in H as (s1 & c1 & M1 & H).
    exists s1, (<[n := take (length s - length s1) s]> c1).
    split; [now constructor|exact H].
  - destruct (rmatch r s c _); [discriminate|].
    exists s, c. split; [constructor|exact H].
  - destruct (at_end s) eqn:E; [|discriminate].
    exists s, c. split; [now constructor|exact H].
Qed.

(** A match consumes a prefix. *)
Lemma Matches_prefix r s c s' c' :
  Matches r s c s' c' -> exists w, s = w ++ s'.
Proof.
  induction 1; try (now exists []).
  - now exists [a].
  - destruct IHMatches1 as [w1 ->], IHMatches2 as [w2 ->].
    exists (w1 ++ w2). now rewrite app_assoc.
  - assumption.
  - assumption.
  - destruct IHMatches1 as [w1 ->], IHMatches2 as [w2 ->].
    exists (w1 ++ w2). now rewrite app_assoc.
  - assumption.
Qed.

Lemma take_consumed (w s : str) : take (length (w ++ s) - length s) (w ++ s) = w.
Proof.
  rewrite length_app, Nat.add_sub. apply take_app_length.
Qed.

(** A literal matches itself and nothing else. *)
Lemma rmatch_lit {A} w s c (k : str -> caps -> option A) :
  rmatch (lit w) s c k
  = if startswith w s then k (drop (length w) s) c else None.
Proof.
  revert s. induction w as [|a w IH]; intros s; [reflexivity|].
  destruct s as [|b s]; [reflexivity|].
  change (lit (a :: w)) with (Cat (Class (is_char a)) (lit w)).
  cbn [rmatch startswith]. unfold is_char at 1.
  destruct (Ascii.eqb a b); cbn; [apply IH|reflexivity].
Qed.

Lemma startswith_app w s : startswith w (w ++ s) = true.
Proof.
  induction w as [|a w IH]; cbn; [reflexivity|].
  now rewrite Ascii.eqb_refl.
Qed.

Lemma rmatch_lit_app {A} w s c (k : str -> caps -> option A) :
  rmatch (lit w) (w ++ s) c k = k s c.
Proof.
  rewrite rmatch_lit, startswith_app, drop_app_length. reflexivity.
Qed.

Definition head_fails (p : ascii -> bool) (s : str) : Prop :=
  match s with
  | [] => True
  | a :: _ => p a = false
  end.

Lemma greedy_star_stop {A} p s c (k : str -> caps -> option A) fuel :
  head_fails p s ->
  star_loop true (rmatch (Class p)) fuel s c k = k s c.
Proof.
  intros H. destruct fuel as [|fuel]; [reflexivity|]. cbn.
  destruct s as [|a s]; [reflexivity|]. cbn in H. now rewrite H.
Qed.

(** A greedy repetition of a class takes all it can when what follows
    then succeeds. *)
Lemma greedy_star_run {A} p x rest c (k : str -> caps -> option A) v fuel :
  Forall (fun a => p a = true) x ->
  head_fails p rest ->
  k rest c = Some v ->
  (length x <= fuel)%nat ->
  star_loop true (rmatch (Class p)) fuel (x ++ rest) c k = Some v.
Proof.
  intros Hx Hrest Hk. revert fuel.
  induction Hx as [|a x Ha Hx IH]; intros fuel Hf.
  - cbn [app]. now rewrite greedy_star_stop.
  - destruct fuel as [|fuel]; [cbn in Hf; lia|].
    cbn [app star_loop rmatch]. rewrite Ha.
    replace (length (x ++ rest) <? length (a :: x ++ rest))%nat with true
      by (symmetry; apply Nat.ltb_lt; cbn; lia).
    rewrite IH by (cbn in Hf; lia). reflexivity.
Qed.

(** A lazy repetition of a class stops at the first place from which
    what follows succeeds. *)
Lemma lazy_star_first {A} p x rest c (k : str -> caps -> option A) v fuel :
  Forall (fun a => p a = true) x ->
  (forall x1 x2, x = x1 ++ x2 -> x2 <> [] -> k (x2 ++ rest) c = None) ->
  k rest c = Some v ->
  (length x <= fuel)%nat ->
  star_loop false (rmatch (Class p)) fuel (x ++ rest) c k = Some v.
Proof.
  intros Hx. revert fuel.
  induction Hx as [|a x Ha Hx IH]; intros fuel Hnone Hk Hf.
  - cbn [app]. destruct fuel; cbn; [exact Hk|]. now rewrite Hk.
  - destruct fuel as [|fuel]; [cbn in Hf; lia|].
    cbn [app star_loop rmatch].
    pose proof (Hnone [] (a :: x) eq_refl ltac:(discriminate)) as E.
    cbn [app] in E. rewrite E. clear E.
    cbn [orelse]. rewrite Ha.
    replace (length (x ++ rest) <? length (a :: x ++ rest))%nat with true
      by (symmetry; apply Nat.ltb_lt; cbn; lia).
    apply IH; [|exact Hk|cbn in Hf; lia].
    intros x1 x2 -> Hne. now apply (Hnone (a :: x1) x2).
Qed.

End MatcherFacts.


(** ** The header pattern *)

Section CharacterFacts.
Import Text.

Lemma space_not_paren a :
  is_space a = true -> is_char "(" a = false /\ is_char ")" a = false.
Proof.
  destruct a as [[] [] [] [] [] [] [] []]; vm_compute; intros H;
    (discriminate || (split; reflexivity)).
Qed.

Lemma digit_not_paren a :
  is_digit a = true -> is_char "(" a = false /\ is_char ")" a = false.
Proof.
  destruct a as [[] [] [] [] [] [] [] []]; vm_compute; intros H;
    (discriminate || (split; reflexivity)).
Qed.

Lemma digit_not_space a : is_digit a = true -> is_space a = false.
Proof.
  destruct a as [[] [] [] [] [] [] [] []]; vm_compute; intros H;
    (discriminate || reflexivity).
Qed.

Lemma is_char_eq c a : is_char c a = true -> a = c.
Proof. unfold is_char. intros H. now apply Ascii.eqb_eq in H. Qed.

Lemma at_end_no_paren s :
  Regex.at_end s = true -> existsb (is_char "(") s = false.
Proof.
  destruct s as [|a [|b s]]; cbn [Regex.at_end existsb];
    try discriminate; [reflexivity|].
  intros H. apply is_char_eq in H. now subst a.
Qed.

End CharacterFacts.

Section MatchShapes.
Import Text Regex.

Lemma Matches_star_class g p s c s' c' :
  Matches (Star g (Class p)) s c s' c' ->
  exists w, s = w ++ s' /\ Forall (fun a => p a = true) w /\ c' = c.
Proof.
  remember (Star g (Class p)) as r eqn:Er. intros H.
  induction H as [| | | | | |g0 r0 s c s1 c1 s2 c2 M1 _ M2 IH| | |];
    try discriminate.
  - exists []. repeat split. constructor.
  - injection Er as -> ->. inversion M1; subst.
    destruct (IH eq_refl) as (w & -> & Hw & ->).
    exists (a :: w). repeat split. now constructor.
Qed.

Lemma Matches_class p s c s' c' :
  Matches (Class p) s c s' c' -> exists a, s = a :: s' /\ p a = true /\ c' = c.
Proof. intros H. inversion H; subst. eauto. Qed.

Lemma Matches_cat r1 r2 s c s' c' :
  Matches (Cat r1 r2) s c s' c' ->
  exists s1 c1, Matches r1 s c s1 c1 /\ Matches r2 s1 c1 s' c'.
Proof. intros H. inversion H; subst. eauto. Qed.

Lemma Matches_alt r1 r2 s c s' c' :
  Matches (Alt r1 r2) s c s' c' ->
  Matches r1 s c s' c' \/ Matches r2 s c s' c'.
Proof. intros H. inversion H; subst; auto. Qed.

Lemma Matches_eps s c s' c' : Matches Eps s c s' c' -> s' = s /\ c' = c.
Proof. intros H. inversion H; subst. easy. Qed.

Lemma Matches_eol s c s' c' :
  Matches Eol s c s' c' -> s' = s /\ c' = c /\ at_end s = true.
Proof. intros H. inversion H; subst. easy. Qed.

Lemma Matches_group n r s c s' c' :
  Matches (Group n r) s c s' c' ->
  exists c1, Matches r s c s' c1 /\
    c' = <[n := take (length s - length s') s]> c1.
Proof. intros H. inversion H; subst. eauto. Qed.

Lemma Matches_lit w s c s' c' :
  Matches (lit w) s c s' c' -> s = w ++ s' /\ c' = c.
Proof.
  revert s. induction w as [|a w IH]; intros s H.
  - apply Matches_eps in H as [-> ->]. easy.
  - change (lit (a :: w)) with (Cat (Class (is_char a)) (lit w)) in H.
    apply Matches_cat in H as (s1 & c1 & M1 & M2).
    apply Matches_class in M1 as (b & -> & Hb & ->).
    apply is_char_eq in Hb. subst b.
    apply IH in M2 as [-> ->]. easy.
Qed.

End MatchShapes.

(** Take a match apart, piece by piece. *)
Ltac shape :=
  repeat match goal with
  | H : Matches (Regex.Cat _ _) _ _ _ _ |- _ =>
      apply Matches_cat in H as (? & ? & ? & ?)
  | H : Matches (Regex.Alt _ _) _ _ _ _ |- _ =>
      apply Matches_alt in H as [?|?]
  | H : Matches Regex.Eps _ _ _ _ |- _ =>
      apply Matches_eps in H as [? ?]; subst
  | H : Matches Regex.Eol _ _ _ _ |- _ =>
      apply Matches_eol in H as (? & ? & ?); subst
  | H : Matches (Regex.Group _ _) _ _ _ _ |- _ =>
      apply Matches_group in H as (? & ? & ?); subst
  | H : Matches (Regex.Class _) _ _ _ _ |- _ =>
      apply Matches_class in H as (? & ? & ? & ?); subst
  | H : Matches (Regex.Star _ (Regex.Class _)) _ _ _ _ |- _ =>
      apply Matches_star_class in H as (? & ? & ? & ?); subst
  | H : Matches (Regex.lit _) _ _ _ _ |- _ =>
      apply Matches_lit in H as [? ?]; subst
  end.

Section HeaderFacts.
Import Text Regex Extract ExtractSpec.

Definition K0 : str -> caps -> option caps := fun _ c => Some c.

(** The pattern, piece by piece. *)
Definition re_count : regex :=
  Opt (cat [chr "("; Group 3 (Plus true (Class is_digit)); chr ")"]).
Definition re_conf : regex := Opt (Group 4 (lit (txt "CONFIRMED"))).
Definition tail_re : regex :=
  cat [Star true (Class is_space); re_count;
       Star true (Class is_space); re_conf; Eol].
Definition sci_re : regex :=
  Group 2 (cat [Class is_upper; Class is_lower; Star false (Class is_dot)]).
Definition after_sci_re : regex := Cat (chr ")") tail_re.
Definition after_name_re : regex :=
  Cat (Plus true (Class is_space)) (Cat (chr "(") (Cat sci_re after_sci_re)).

Lemma header_re_pieces :
  header_re
  = Cat (NotAhead (lit (txt "- ")))
        (Cat (Group 1 (Plus false (Class is_dot))) after_name_re).
Proof. reflexivity. Qed.

(** The groups of a header match. *)
Definition with_count (cnt : option str) (c : caps) : caps :=
  match cnt with Some n => <[3%nat := n]> c | None => c end.
Definition with_conf (conf : bool) (c : caps) : caps :=
  if conf then <[4%nat := txt "CONFIRMED"]> c else c.

Lemma rmatch_cat {A} r1 r2 s c (k : str -> caps -> option A) :
  rmatch (Cat r1 r2) s c k = rmatch r1 s c (fun s' c' => rmatch r2 s' c' k).
Proof. reflexivity. Qed.

Lemma rmatch_alt {A} r1 r2 s c (k : str -> caps -> option A) :
  rmatch (Alt r1 r2) s c k = orelse (rmatch r1 s c k) (rmatch r2 s c k).
Proof. reflexivity. Qed.

Lemma rmatch_star {A} g r s c (k : str -> caps -> option A) :
  rmatch (Star g r) s c k = star_loop g (rmatch r) (length s) s c k.
Proof. reflexivity. Qed.

Lemma rmatch_group {A} n r s c (k : str -> caps -> option A) :
  rmatch (Group n r) s c k
  = rmatch r s c (fun s' c' =>
      k s' (<[n := take (length s - length s') s]> c')).
Proof. reflexivity. Qed.

Lemma rmatch_class {A} p a s c (k : str -> caps -> option A) :
  rmatch (Class p) (a :: s) c k = if p a then k s c else None.
Proof. reflexivity. Qed.

Lemma rmatch_eps {A} s c (k : str -> caps -> option A) :
  rmatch Eps s c k = k s c.
Proof. reflexivity. Qed.

Lemma rmatch_eol_nil {A} c (k : str -> caps -> option A) :
  rmatch Eol [] c k = k [] c.
Proof. reflexivity. Qed.

Lemma take_consumed_cons (a : ascii) (w s : str) :
  take (length (a :: w ++ s) - length s) (a :: w ++ s) = a :: w.
Proof. apply (take_consumed (a :: w) s). Qed.

Lemma take_consumed_cons2 (a b : ascii) (w s : str) :
  take (length (a :: b :: w ++ s) - length s) (a :: b :: w ++ s) = a :: b :: w.
Proof. apply (take_consumed (a :: b :: w) s). Qed.

(** The end of the pattern on the end of a header. *)
Lemma conf_match (c : caps) (conf : bool) :
  rmatch (cat [Star true (Class is_space); re_conf; Eol])
    (if conf then txt " CONFIRMED" else []) c K0
  = Some (with_conf conf c).
Proof.
  destruct conf; reflexivity.
Qed.

Lemma tail_match (c : caps) cnt (conf : bool) :
  (forall n, cnt = Some n -> digits n = true) ->
  rmatch tail_re (tail_text cnt conf) c K0
  = Some (with_conf conf (with_count cnt c)).
Proof.
  intros Hd. destruct cnt as [n|]; cbn [with_count].
  - specialize (Hd n eq_refl). unfold digits in Hd.
    apply andb_prop in Hd as [Hne Hd].
    destruct n as [|d n]; [discriminate|]. cbn [forallb] in Hd.
    apply andb_prop in Hd as [Hd0 Hd]. rewrite forallb_forall in Hd.
    apply List.Forall_forall in Hd.
    unfold tail_text.
    change (txt " (" ++ (d :: n) ++ txt ")")
      with (" "%char :: "("%char :: d :: n ++ txt ")").
    cbn [app]. rewrite <- app_assoc.
    set (ct := if conf then txt " CONFIRMED" else []).
    unfold tail_re. cbn [cat fold_right].
    rewrite rmatch_cat, rmatch_star.
    apply (greedy_star_run is_space [" "%char]);
      [repeat constructor| reflexivity | | cbn; lia].
    unfold re_count at 1, Opt. rewrite rmatch_cat, rmatch_alt.
    cbn [cat fold_right].
    match goal with |- orelse ?x _ = _ =>
      assert (E : x = Some (with_conf conf (<[3%nat := d :: n]> c))) end.
    { rewrite rmatch_cat. unfold chr at 1. rewrite rmatch_class.
      change (is_char "(" "(") with true. cbv beta iota.
      rewrite rmatch_cat, rmatch_group. unfold Plus.
      rewrite rmatch_cat, rmatch_class, Hd0, rmatch_star.
      apply (greedy_star_run is_digit n);
        [exact Hd|reflexivity| |rewrite length_app; lia].
      rewrite take_consumed_cons.
      unfold chr. rewrite rmatch_cat. change (txt ")") with [")"%char].
      cbn [app]. rewrite rmatch_class.
      change (is_char ")" ")") with true. cbv beta iota.
      rewrite rmatch_eps. apply conf_match. }
    rewrite E. reflexivity.
  - cbn [tail_text app]. unfold tail_re. now destruct conf.
Qed.

(** Past the first closing parenthesis there is an opening one. *)
Definition open_after_close (t : str) : bool :=
  existsb (is_char "(") (drop_while (fun a => negb (is_char ")" a)) t).

Lemma drop_while_all p (u v : str) :
  Forall (fun a => p a = true) u -> drop_while p (u ++ v) = drop_while p v.
Proof. induction 1 as [|a u Ha _ IH]; cbn; [reflexivity|]. now rewrite Ha. Qed.

Lemma open_after_close_found u v :
  existsb (is_char "(") v = true ->
  open_after_close (u ++ ")"%char :: v) = true.
Proof.
  intros Hv. unfold open_after_close.
  induction u as [|a u IH]; cbn [app drop_while].
  - change (negb (is_char ")" ")")) with false. cbv iota. cbn [existsb].
    rewrite Hv. apply orb_true_r.
  - destruct (negb (is_char ")" a)); [exact IH|].
    cbn [existsb]. rewrite existsb_app. cbn [existsb]. rewrite Hv.
    now rewrite !orb_true_r.
Qed.

Lemma spaces_no_close w :
  Forall (fun a => is_space a = true) w ->
  Forall (fun a => negb (is_char ")" a) = true) w /\
  existsb (is_char "(") w = false.
Proof.
  induction 1 as [|a w Ha _ [IH1 IH2]]; cbn [existsb]; [split; [constructor|reflexivity]|].
  destruct (space_not_paren a Ha) as [E1 E2]. split.
  - constructor; [now rewrite E2|exact IH1].
  - now rewrite E1, IH2.
Qed.

Lemma digits_no_close w :
  Forall (fun a => is_digit a = true) w ->
  Forall (fun a => negb (is_char ")" a) = true) w.
Proof.
  induction 1 as [|a w Ha _ IH]; constructor; [|exact IH].
  destruct (digit_not_paren a Ha) as [_ ->]. reflexivity.
Qed.

Lemma oac_skip u v :
  Forall (fun a => negb (is_char ")" a) = true) u ->
  open_after_close (u ++ v) = open_after_close v.
Proof. intros H. unfold open_after_close. now rewrite drop_while_all. Qed.

Lemma oac_cons a v :
  is_char ")" a = false -> open_after_close (a :: v) = open_after_close v.
Proof. intros H. unfold open_after_close. cbn [drop_while]. now rewrite H. Qed.

Lemma oac_close v : open_after_close (")"%char :: v) = existsb (is_char "(") v.
Proof. reflexivity. Qed.

Lemma oac_end s : at_end s = true -> open_after_close s = false.
Proof.
  destruct s as [|a [|b s]]; cbn [at_end]; try discriminate; [reflexivity|].
  intros H. apply is_char_eq in H. now subst a.
Qed.

(** What the end of the pattern can match has no opening parenthesis
    past a closing one. *)
Lemma tail_shape t c s' c' :
  Matches tail_re t c s' c' -> open_after_close t = false.
Proof.
  unfold tail_re, re_count, re_conf, Opt, Plus, chr. cbn [cat fold_right].
  intros H. shape.
  all: repeat match goal with
       | H : is_char _ _ = true |- _ => apply is_char_eq in H; subst
       end.
  all: repeat match goal with
       | H : Forall (fun a => is_space a = true) _ |- _ =>
           apply spaces_no_close in H as [? ?]
       end.
  all: rewrite ?oac_skip by assumption.
  all: try (rewrite oac_cons by reflexivity;
            rewrite oac_cons by (now apply digit_not_paren);
            rewrite oac_skip by (now apply digits_no_close);
            rewrite oac_close, !existsb_app;
            repeat match goal with
                   | H : existsb _ _ = false |- _ => rewrite H
                   end;
            match goal with
            | H : at_end ?s = true |- _ => rewrite (at_end_no_paren s H)
            end;
            reflexivity).
  all: try (rewrite (oac_skip (txt "CONFIRMED")) by (repeat constructor)).
  all: now apply oac_end.
Qed.

Lemma after_sci_fails_count x2 n conf (c : caps) :
  x2 <> [] ->
  rmatch after_sci_re (x2 ++ txt ")" ++ tail_text (Some n) conf) c K0 = None.
Proof.
  intros Hne.
  destruct (rmatch after_sci_re _ c K0) as [v|] eqn:E; [|reflexivity].
  exfalso. apply rmatch_sound in E as (s' & c' & M & _).
  unfold after_sci_re, chr in M.
  apply Matches_cat in M as (s1 & c1 & M1 & M2).
  apply Matches_class in M1 as (a & Ea & Ha & ->).
  apply tail_shape in M2.
  destruct x2 as [|b x2]; [congruence|].
  cbn [app] in Ea. injection Ea as -> <-.
  unfold tail_text in M2. change (txt ")" ++ ?x) with (")"%char :: x) in M2.
  rewrite open_after_close_found in M2; [discriminate|].
  rewrite <- !app_assoc. reflexivity.
Qed.

Lemma after_sci_fails_close x2 t (c : caps) :
  head_fails (is_char ")") x2 -> x2 <> [] ->
  rmatch after_sci_re (x2 ++ t) c K0 = None.
Proof.
  intros H Hne. destruct x2 as [|a x2]; [congruence|].
  unfold after_sci_re, chr. cbn [app]. cbn [head_fails] in H.
  now rewrite rmatch_cat, rmatch_class, H.
Qed.

Lemma sci_match (c : caps) sci cnt conf :
  sci_name sci = true ->
  (cnt = None -> no_close sci = true) ->
  (forall n, cnt = Some n -> digits n = true) ->
  rmatch (Cat sci_re after_sci_re) (sci ++ txt ")" ++ tail_text cnt conf) c K0
  = Some (with_conf conf (with_count cnt (<[2%nat := sci]> c))).
Proof.
  intros Hs Hc Hd. unfold sci_name in Hs.
  destruct sci as [|u [|l sci]]; try discriminate.
  apply andb_prop in Hs as [Hs Hdot]. apply andb_prop in Hs as [Hu Hl].
  rewrite forallb_forall in Hdot. apply List.Forall_forall in Hdot.
  unfold sci_re. cbn [cat fold_right app].
  rewrite rmatch_cat, rmatch_group, rmatch_cat, rmatch_class, Hu.
  rewrite rmatch_cat, rmatch_class, Hl, rmatch_cat, rmatch_star.
  apply (lazy_star_first is_dot sci); [exact Hdot| | |rewrite length_app; lia].
  - intros x1 x2 -> Hne. rewrite rmatch_eps.
    destruct cnt as [n|].
    + apply after_sci_fails_count. exact Hne.
    + apply after_sci_fails_close; [|exact Hne].
      specialize (Hc eq_refl). unfold no_close in Hc.
      apply negb_true_iff in Hc.
      destruct x2 as [|b x2]; [exact I|]. cbn [head_fails].
      cbn [existsb] in Hc. rewrite !existsb_app in Hc. cbn [existsb] in Hc.
      destruct (is_char ")" b); [|reflexivity].
      now rewrite !orb_true_r in Hc.
  - rewrite rmatch_eps.
    rewrite take_consumed_cons2.
    unfold after_sci_re, chr. change (txt ")" ++ ?x) with (")"%char :: x).
    rewrite rmatch_cat, rmatch_class.
    change (is_char ")" ")") with true. cbv beta iota.
    now apply tail_match.
Qed.

Lemma after_name_match (c : caps) sci cnt conf :
  sci_name sci = true ->
  (cnt = None -> no_close sci = true) ->
  (forall n, cnt = Some n -> digits n = true) ->
  rmatch after_name_re (txt " (" ++ sci ++ txt ")" ++ tail_text cnt conf) c K0
  = Some (with_conf conf (with_count cnt (<[2%nat := sci]> c))).
Proof.
  intros Hs Hc Hd. unfold after_name_re, Plus, chr.
  change (txt " (" ++ ?x) with (" "%char :: "("%char :: x).
  rewrite !rmatch_cat, rmatch_class.
  change (is_space " ") with true. cbv beta iota.
  rewrite rmatch_star, greedy_star_stop by reflexivity.
  rewrite rmatch_cat, rmatch_class.
  change (is_char "(" "(") with true. cbv beta iota.
  now apply sci_match.
Qed.

Lemma last_app_nonempty (x1 x2 : str) d :
  x2 <> [] -> List.last (x1 ++ x2) d = List.last x2 d.
Proof.
  intros Hne. induction x1 as [|a x1 IH]; [reflexivity|].
  cbn [app]. destruct (x1 ++ x2) as [|b r] eqn:E.
  - apply app_eq_nil in E as [_ ->]. congruence.
  - now rewrite <- IH.
Qed.

Lemma has_sci_open_app x1 x2 :
  has_sci_open x2 = true -> has_sci_open (x1 ++ x2) = true.
Proof.
  intros H. induction x1 as [|a x1 IH]; cbn [app has_sci_open]; [exact H|].
  rewrite IH. apply orb_true_r.
Qed.

Lemma open_in_suffix w : forall a x2 t u l rest,
  is_space a = true -> Forall (fun b => is_space b = true) w ->
  x2 <> [] -> is_space (List.last x2 " "%char) = false ->
  x2 ++ " "%char :: t = a :: w ++ "("%char :: u :: l :: rest ->
  is_upper u = true -> is_lower l = true ->
  has_sci_open x2 = true.
Proof.
  induction w as [|a' w IH]; intros a x2 t u l rest Ha Hw Hne Hlast E Hu Hl.
  - destruct x2 as [|b x2]; [congruence|]. cbn [app] in E.
    injection E as -> E.
    destruct x2 as [|p x2]; [cbn in Hlast; congruence|].
    cbn [app] in E. injection E as -> E.
    destruct x2 as [|q x2].
    { cbn [app] in E. injection E as <- _. discriminate. }
    cbn [app] in E. injection E as -> E.
    destruct x2 as [|r x2].
    { cbn [app] in E. injection E as <- _. discriminate. }
    cbn [app] in E. injection E as -> E.
    cbn [has_sci_open opens_sci]. rewrite Ha, Hu, Hl. reflexivity.
  - destruct x2 as [|b x2]; [congruence|]. cbn [app] in E.
    injection E as -> E.
    destruct x2 as [|p x2]; [cbn in Hlast; congruence|].
    apply Forall_cons_iff in Hw as [Ha' Hw].
    change (has_sci_open (a :: p :: x2))
      with ((is_space a && opens_sci (p :: x2)) || has_sci_open (p :: x2)).
    rewrite (IH a' (p :: x2) t u l rest Ha' Hw); auto using orb_true_r.
Qed.

Lemma after_name_fails name x1 x2 t (c : caps) :
  name = x1 ++ x2 -> x2 <> [] ->
  has_sci_open name = false ->
  is_space (List.last name " "%char) = false ->
  rmatch after_name_re (x2 ++ " "%char :: t) c K0 = None.
Proof.
  intros -> Hne Hopen Hlast.
  destruct (rmatch after_name_re _ c K0) as [v|] eqn:E; [|reflexivity].
  exfalso. apply rmatch_sound in E as (s' & c' & M & _).
  unfold after_name_re, Plus, sci_re, chr in M. cbn [cat fold_right] in M.
  apply Matches_cat in M as (s1 & c1 & M1 & M).
  apply Matches_cat in M1 as (s0 & c0 & M0 & M1).
  apply Matches_class in M0 as (a & Ea & Ha & ->).
  apply Matches_star_class in M1 as (w & -> & Hw & ->).
  apply Matches_cat in M as (s2 & c2 & M2 & M).
  apply Matches_class in M2 as (p & -> & Hp & ->).
  apply is_char_eq in Hp. subst p.
  apply Matches_cat in M as (s3 & c3 & M3 & _).
  apply Matches_group in M3 as (c4 & M3 & _).
  apply Matches_cat in M3 as (s4 & c5 & M4 & M3).
  apply Matches_class in M4 as (u & -> & Hu & ->).
  apply Matches_cat in M3 as (s5 & c6 & M5 & _).
  apply Matches_class in M5 as (l & -> & Hl & ->).
  assert (Hl2 : is_space (List.last x2 " "%char) = false).
  { rewrite <- (last_app_nonempty x1 x2 " "%char Hne). exact Hlast. }
  rewrite (has_sci_open_app x1 x2) in Hopen; [discriminate|].
  now apply (open_in_suffix w a x2 t u l s5).
Qed.

Lemma startswith_short p (x y : str) :
  (length p <= length x)%nat -> startswith p (x ++ y) = startswith p x.
Proof.
  revert x. induction p as [|a p IH]; intros x H; [reflexivity|].
  destruct x as [|b x]; [cbn in H; lia|]. cbn [app startswith].
  rewrite IH by (cbn in H; lia). reflexivity.
Qed.

Lemma header_match name sci cnt conf :
  plain_name name = true -> sci_name sci = true ->
  (cnt = None -> no_close sci = true) ->
  (forall n, cnt = Some n -> digits n = true) ->
  re_match header_re (header_line name sci cnt conf)
  = Some (with_conf conf (with_count cnt
            (<[2%nat := sci]> (<[1%nat := name]> ∅)))).
Proof.
  intros Hn Hs Hc Hd. unfold plain_name in Hn.
  repeat (apply andb_prop in Hn as [Hn ?]).
  repeat match goal with H : negb _ = true |- _ => apply negb_true_iff in H end.
  destruct name as [|a name]; [discriminate|].
  match goal with H : forallb is_dot _ = true |- _ =>
    cbn [forallb] in H; apply andb_prop in H as [Ha Hdot];
    rewrite forallb_forall in Hdot; apply List.Forall_forall in Hdot end.
  unfold re_match, header_line. rewrite header_re_pieces.
  rewrite rmatch_cat. cbn [rmatch].
  rewrite rmatch_lit.
  change (txt " (" ++ ?x) with ((txt " ") ++ "("%char :: x).
  rewrite app_assoc, startswith_short by (rewrite length_app; cbn; lia).
  match goal with H : startswith _ _ = false |- _ => rewrite H end.
  rewrite <- app_assoc. cbn [app].
  unfold Plus. rewrite rmatch_cat, rmatch_class, Ha, rmatch_star.
  apply (lazy_star_first is_dot name);
    [exact Hdot| | |rewrite length_app; lia].
  - intros x1 x2 E Hne.
    apply (after_name_fails (a :: name) (a :: x1) x2);
      [now rewrite E|exact Hne|assumption|assumption].
  - change (a :: name ++ " "%char :: ?x) with (a :: name ++ txt " " ++ x).
    rewrite take_consumed_cons.
    now apply (after_name_match _ sci cnt conf).
Qed.

Lemma drop_while_head p (s : str) :
  p (hd " "%char s) = false -> s <> [] -> drop_while p s = s.
Proof. destruct s as [|a s]; [congruence|]. cbn. now intros ->. Qed.

(** A line with no blank at either end is its own [strip]. *)
Lemma strip_clean (s : str) :
  s <> [] ->
  is_space (hd " "%char s) = false ->
  is_space (List.last s " "%char) = false ->
  strip s = s.
Proof.
  intros Hne Hh Hl. unfold strip, strip_by, lstrip_by, rstrip_by.
  rewrite (drop_while_head is_space s Hh Hne).
  rewrite drop_while_head; [apply rev_involutive| |].
  - destruct s as [|a s] using rev_ind; [congruence|].
    rewrite rev_app_distr. cbn. now rewrite List.last_last in Hl.
  - intros E. apply (f_equal (@rev ascii)) in E.
    rewrite rev_involutive in E. now subst.
Qed.

Lemma header_line_clean name sci cnt conf :
  plain_name name = true ->
  (forall n, cnt = Some n -> digits n = true) ->
  strip (header_line name sci cnt conf) = header_line name sci cnt conf.
Proof.
  intros Hn Hd. unfold plain_name in Hn.
  repeat (apply andb_prop in Hn as [Hn ?]).
  repeat match goal with H : negb _ = true |- _ => apply negb_true_iff in H end.
  destruct name as [|a name]; [discriminate|].
  apply strip_clean.
  - discriminate.
  - assumption.
  - unfold header_line.
    change (txt ")" ++ ?x) with (")"%char :: x).
    rewrite !app_assoc, last_app_nonempty by discriminate.
    unfold tail_text. destruct cnt as [n|], conf.
    + change (")"%char :: ?x ++ ?y) with ((")"%char :: x) ++ y).
      now rewrite last_app_nonempty by discriminate.
    + rewrite app_nil_r.
      change (")"%char :: txt " (" ++ n ++ txt ")")
        with ((")"%char :: txt " (") ++ n ++ txt ")").
      now rewrite !app_assoc, last_app_nonempty by discriminate.
    + reflexivity.
    + reflexivity.
Qed.

(** A header line starts a record and puts out the one before it. *)
Lemma header_step (st : state) name sci cnt conf :
  plain_name name = true ->
  sci_name sci = true ->
  match cnt with
  | Some n => digits n = true
  | None => no_close sci = true
  end ->
  process_line st (header_line name sci cnt conf)
  = Ok (flush (fst st) (snd st),
        Some (fresh name sci (default (txt "?") cnt) conf)).
Proof.
  intros Hn Hs Hc.
  assert (Hd : forall n, cnt = Some n -> digits n = true)
    by (intros n ->; exact Hc).
  assert (Hnc : cnt = None -> no_close sci = true)
    by (intros ->; exact Hc).
  unfold process_line.
  rewrite header_line_clean by assumption.
  rewrite header_match by assumption.
  do 3 f_equal. unfold new_record, fresh, group.
  assert (Hcnt : or_question (with_conf conf (with_count cnt
            (<[2%nat := sci]> (<[1%nat := name]> ∅))) !! 3%nat)
          = default (txt "?") cnt).
  { destruct cnt as [n|], conf; cbn [with_conf with_count default];
      repeat (rewrite lookup_insert_ne by done);
      rewrite ?lookup_insert_eq; try reflexivity.
    all: destruct n; [discriminate (Hd _ eq_refl)|reflexivity]. }
  assert (Hcf : group_truthy (with_conf conf (with_count cnt
            (<[2%nat := sci]> (<[1%nat := name]> ∅))) !! 4%nat)
          = conf).
  { destruct cnt as [n|], conf; cbn [with_conf with_count];
      rewrite ?lookup_insert_eq; repeat (rewrite lookup_insert_ne by done);
      reflexivity. }
  rewrite Hcnt, Hcf.
  assert (H1 : with_conf conf (with_count cnt
            (<[2%nat := sci]> (<[1%nat := name]> ∅))) !! 1%nat = Some name).
  { destruct cnt as [n|], conf; cbn [with_conf with_count];
      repeat (rewrite lookup_insert_ne by done); apply lookup_insert_eq. }
  assert (H2 : with_conf conf (with_count cnt
            (<[2%nat := sci]> (<[1%nat := name]> ∅))) !! 2%nat = Some sci).
  { destruct cnt as [n|], conf; cbn [with_conf with_count];
      repeat (rewrite lookup_insert_ne by done); apply lookup_insert_eq. }
  rewrite H1, H2. reflexivity.
Qed.

(** X20.  What the header pattern reads correctly.  A header
    [Name (Scientific name) (N) CONFIRMED] starts the record with that
    species, scientific name, count and confirmation when the name is
    not empty, has no blank at either end, is not a lone dash and does
    not open with a dash and a space, holds no line feed and nowhere a
    blank followed by an opening parenthesis, an upper-case and a
    lower-case letter, the scientific name opens with an upper-case
    and a lower-case letter and holds no line feed, and the count is
    one digit or more.  Such a header without the count, whose
    scientific name holds no closing parenthesis, gives the count
    ["?"].  With or without CONFIRMED, [confirmed] says whether the
    word is there. *)
Theorem header_starts_record (st : state) name sci cnt conf :
  plain_name name = true ->
  sci_name sci = true ->
  match cnt with
  | Some n => digits n = true
  | None => no_close sci = true
  end ->
  process_line st (header_line name sci cnt conf)
  = Ok (flush (fst st) (snd st),
        Some (fresh name sci (default (txt "?") cnt) conf)).
Proof. apply header_step. Qed.

Lemma header_starts_record_witness :
  process_line ([], None)
    (header_line (txt "Snowy Owl") (txt "Bubo scandiacus")
                 (Some (txt "1")) true)
  = Ok ([], Some (fresh (txt "Snowy Owl") (txt "Bubo scandiacus")
                         (txt "1") true)).
Proof.
  apply (header_starts_record ([], None) (txt "Snowy Owl")
           (txt "Bubo scandiacus") (Some (txt "1")) true);
    vm_compute; reflexivity.
Defined.

(** C3.  The code departs from the claim on a header of the very
    shape its comment describes.  The name [Dark-eyed Junco (Oregon)]
    does not open with a dash and the scientific name [Junco hyemalis]
    opens with an upper-case and a lower-case letter, yet the record
    started by [Dark-eyed Junco (Oregon) (Junco hyemalis) (2) CONFIRMED]
    gets the species [Dark-eyed Junco] and the scientific name
    [Oregon) (Junco hyemalis]: the name is matched lazily and ends at
    the first parenthesis that opens like a scientific name.  The
    record [parse_sightings] returns for the header and a map line
    carries these two texts. *)
Lemma header_with_parenthesised_name :
  startswith (txt "- ") junco_name = false
  /\ sci_name junco_sci = true
  /\ header_line junco_name junco_sci (Some (txt "2")) true
     = txt "Dark-eyed Junco (Oregon) (Junco hyemalis) (2) CONFIRMED"
  /\ process_line ([], None)
       (header_line junco_name junco_sci (Some (txt "2")) true)
     = Ok ([], Some (fresh (txt "Dark-eyed Junco")
                            (txt "Oregon) (Junco hyemalis") (txt "2") true))
  /\ process_line ([], None)
       (header_line junco_name junco_sci (Some (txt "2")) true)
     <> Ok ([], Some (fresh junco_name junco_sci (txt "2") true))
  /\ (exists r,
        parse_sightings
          (header_line junco_name junco_sci (Some (txt "2")) true
           ++ txt (nl ++ "- Map: http://maps.google.com/?q=42.5,-71.5" ++ nl)%string)
        = Ok [r]
        /\ species r = txt "Dark-eyed Junco"
        /\ scientific r = txt "Oregon) (Junco hyemalis"
        /\ count r = txt "2" /\ confirmed r = true).
Proof.
  split; [reflexivity|]. split; [reflexivity|].
  split; [reflexivity|].
  split; [vm_compute; reflexivity|].
  split; [vm_compute; discriminate|].
  eexists. split; [vm_compute; reflexivity|].
  repeat split.
Qed.

End HeaderFacts.

(** ** The extractor as a whole *)

Section NumberFacts.
Import Text Regex Extract ExtractSpec.

(** The texts [number_re] matches. *)
Definition number_text (w : str) : Prop :=
  exists sign ip dot fp,
    w = sign ++ ip ++ dot ++ fp /\
    (sign = [] \/ sign = txt "-") /\
    ip <> [] /\ Forall (fun a => is_digit a = true) ip /\
    (dot = [] \/ dot = txt ".") /\
    Forall (fun a => is_digit a = true) fp.

Lemma number_shape s c s' c' :
  Matches number_re s c s' c' ->
  c' = c /\ exists w, s = w ++ s' /\ number_text w.
Proof.
  unfold number_re, Opt, Plus, chr. cbn [cat fold_right].
  intros H. shape.
  all: repeat match goal with
       | H : is_char _ _ = true |- _ => apply is_char_eq in H; subst
       end.
  all: split; [reflexivity|].
  all: lazymatch goal with
       | |- exists w, "-"%char :: ?d :: ?ip ++ "."%char :: ?fp ++ ?r = w ++ ?r /\ _ =>
           exists (txt "-" ++ (d :: ip) ++ txt "." ++ fp); split;
             [cbn [app txt list_ascii_of_string]; now rewrite <- !app_assoc
             |exists (txt "-"), (d :: ip), (txt "."), fp]
       | |- exists w, ?d :: ?ip ++ "."%char :: ?fp ++ ?r = w ++ ?r /\ _ =>
           exists ([] ++ (d :: ip) ++ txt "." ++ fp); split;
             [cbn [app txt list_ascii_of_string]; now rewrite <- !app_assoc
             |exists [], (d :: ip), (txt "."), fp]
       | |- exists w, "-"%char :: ?d :: ?ip ++ ?fp ++ ?r = w ++ ?r /\ _ =>
           exists (txt "-" ++ (d :: ip) ++ [] ++ fp); split;
             [cbn [app txt list_ascii_of_string]; now rewrite <- !app_assoc
             |exists (txt "-"), (d :: ip), [], fp]
       | |- exists w, ?d :: ?ip ++ ?fp ++ ?r = w ++ ?r /\ _ =>
           exists ([] ++ (d :: ip) ++ [] ++ fp); split;
             [cbn [app txt list_ascii_of_string]; now rewrite <- !app_assoc
             |exists [], (d :: ip), [], fp]
       end.
  all: repeat split; auto; try discriminate; now constructor.
Qed.

Lemma take_while_all p (u : str) :
  Forall (fun a => p a = true) u -> take_while p u = u.
Proof. induction 1 as [|a u Ha _ IH]; cbn; [reflexivity|]. now rewrite Ha, IH. Qed.

Lemma take_while_stop p (u v : str) :
  Forall (fun a => p a = true) u -> head_fails p v ->
  take_while p (u ++ v) = u.
Proof.
  intros Hu Hv. induction Hu as [|a u Ha _ IH]; cbn.
  - destruct v as [|b v]; [reflexivity|]. cbn in *. now rewrite Hv.
  - now rewrite Ha, IH.
Qed.

Lemma drop_while_stop p (u v : str) :
  Forall (fun a => p a = true) u -> head_fails p v ->
  drop_while p (u ++ v) = v.
Proof.
  intros Hu Hv. rewrite drop_while_all by exact Hu.
  destruct v as [|b v]; [reflexivity|]. cbn in *. now rewrite Hv.
Qed.

Lemma digit_not_minus a : is_digit a = true -> Ascii.eqb "-" a = false.
Proof.
  destruct a as [[] [] [] [] [] [] [] []]; vm_compute; intros H;
    (discriminate || reflexivity).
Qed.

(** [float] accepts what [number_re] matches. *)
Lemma py_float_number w : number_text w -> exists f, py_float w = Ok f.
Proof.
  intros (sign & ip & dot & fp & -> & Hs & Hne & Hip & Hdot & Hfp).
  unfold py_float.
  assert (E : (if startswith (txt "-") (sign ++ ip ++ dot ++ fp)
               then drop 1 (sign ++ ip ++ dot ++ fp)
               else sign ++ ip ++ dot ++ fp) = ip ++ dot ++ fp).
  { destruct Hs as [-> | ->]; [|reflexivity]. cbn [app].
    destruct ip as [|d ip]; [congruence|].
    apply Forall_cons_iff in Hip as [Hd _]. cbn [app startswith txt list_ascii_of_string].
    now rewrite (digit_not_minus d Hd). }
  rewrite E. clear E.
  destruct Hdot as [-> | ->]; cbn [app].
  - assert (Hall : Forall (fun a => is_digit a = true) (ip ++ fp))
      by (apply Forall_app; auto).
    assert (D : drop_while is_digit (ip ++ fp) = []).
    { rewrite <- (app_nil_r (ip ++ fp)). now apply drop_while_all. }
    rewrite take_while_all, D by exact Hall.
    destruct (ip ++ fp) eqn:E; [|eauto].
    apply app_eq_nil in E as [-> _]. congruence.
  - rewrite take_while_stop, drop_while_stop by (auto; reflexivity).
    cbn [txt list_ascii_of_string app].
    change (is_char "." ".") with true.
    assert (Hf : forallb is_digit fp = true).
    { apply forallb_forall. now apply List.Forall_forall. }
    rewrite Hf. cbn [andb].
    destruct ip as [|d ip]; [congruence|]. cbn. eauto.
Qed.

End NumberFacts.

Section ExtractorFacts.
Import Text Regex Extract ExtractSpec.

Lemma re_search_found r s m :
  re_search r s = Some m -> exists s', re_match r s' = Some m.
Proof.
  induction s as [|a s IH]; cbn.
  - destruct (re_match r []) eqn:E; [|discriminate].
    intros [= <-]. eauto.
  - destruct (re_match r (a :: s)) eqn:E.
    + intros [= <-]. eauto.
    + exact IH.
Qed.

(** Both groups of a match of [coords_re] hold a number. *)
Lemma coords_groups s m :
  re_search coords_re s = Some m ->
  exists g1 g2, group m 1 = Some g1 /\ group m 2 = Some g2 /\
    number_text g1 /\ number_text g2.
Proof.
  intros H. apply re_search_found in H as [s' H].
  unfold re_match in H. apply rmatch_sound in H as (s2 & c2 & M & E).
  injection E as <-.
  unfold coords_re, chr in M. cbn [cat fold_right] in M.
  apply Matches_cat in M as (s3 & c3 & M1 & M).
  apply Matches_lit in M1 as [-> ->].
  apply Matches_cat in M as (s4 & c4 & M1 & M).
  apply Matches_group in M1 as (c5 & M1 & ->).
  apply number_shape in M1 as (-> & w1 & -> & N1).
  apply Matches_cat in M as (s5 & c6 & M2 & M).
  apply Matches_class in M2 as (a & -> & _ & ->).
  apply Matches_cat in M as (s6 & c7 & M3 & M).
  apply Matches_group in M3 as (c8 & M3 & ->).
  apply number_shape in M3 as (-> & w2 & -> & N2).
  apply Matches_eps in M as [-> ->].
  rewrite !take_consumed.
  exists w1, w2. unfold group.
  rewrite lookup_insert_ne, !lookup_insert_eq by done. auto.
Qed.

Lemma float_of_group_coords s m n :
  re_search coords_re s = Some m -> (n = 1 \/ n = 2)%nat ->
  exists f, float_of_group m n = Ok f.
Proof.
  intros H Hn. apply coords_groups in H as (g1 & g2 & E1 & E2 & N1 & N2).
  unfold float_of_group.
  destruct Hn as [-> | ->]; rewrite ?E1, ?E2; now apply py_float_number.
Qed.

(** The lines below a header never raise. *)
Lemma field_line_returns out r line :
  exists st, field_line out r line = Ok st.
Proof.
  unfold field_line.
  destruct (startswith (txt "- Reported ") line).
  { destruct (re_match reported_re line); eauto. }
  destruct (startswith (txt "- Map:") line).
  { destruct (re_search coords_re line) as [m|] eqn:E; [|eauto].
    destruct (float_of_group_coords _ _ 1%nat E) as [la ->]; [auto|].
    destruct (float_of_group_coords _ _ 2%nat E) as [lo ->]; [auto|].
    cbn. eauto. }
  destruct (startswith (txt "- Checklist:") line); [eauto|].
  destruct (startswith (txt "- Comments:") line); [eauto|].
  match goal with |- context [if ?b then _ else _] => destruct b end;
    [|eauto].
  match goal with |- context [if ?b then _ else _] => destruct b end; eauto.
Qed.

Lemma process_line_returns st raw : exists st', process_line st raw = Ok st'.
Proof.
  unfold process_line.
  destruct (re_match header_re (strip raw)); [eauto|].
  destruct (snd st); [apply field_line_returns|eauto].
Qed.

Lemma run_lines_returns lines : forall st,
  exists st', run_lines st lines = Ok st'.
Proof.
  induction lines as [|l lines IH]; intros st; cbn; [eauto|].
  destruct (process_line_returns st l) as [st' ->]. cbn. apply IH.
Qed.

Lemma startswith_longer p q (s : str) :
  startswith p s = false -> startswith (p ++ q) s = false.
Proof.
  revert s. induction p as [|a p IH]; intros s; [discriminate|].
  destruct s as [|b s]; [reflexivity|]. cbn [app startswith].
  destruct (Ascii.eqb a b); [apply IH|reflexivity].
Qed.

(** C6.  The extractor returns a sequence of records, which may be
    empty, for every text: no line makes it raise.  A line that is no
    header, has none of the four field prefixes and is no location
    line leaves the records read so far and the record under
    construction as they are. *)
Theorem parse_sightings_total (body : str) :
  (exists records, parse_sightings body = Ok records)
  /\ (forall st raw,
        unrecognized (snd st) raw = true -> process_line st raw = Ok st).
Proof.
  split.
  - unfold parse_sightings.
    destruct (run_lines_returns (splitlines body) ([], None)) as [st ->].
    cbn. eauto.
  - intros [out cur] raw H. unfold unrecognized in H. unfold process_line.
    destruct (re_match header_re (strip raw)); [discriminate|].
    cbn [fst snd] in *.
    destruct cur as [r|]; [|reflexivity].
    apply andb_prop in H as [H1 H2].
    apply negb_true_iff in H1, H2.
    unfold field_prefixed in H1.
    repeat (apply orb_false_elim in H1 as [H1 ?]).
    unfold field_line, location_line in *.
    repeat match goal with
           | E : startswith _ _ = false |- _ =>
               rewrite ?E in H2; rewrite E; clear E
           end.
    destruct (startswith (txt "- ") (strip raw));
      [|now rewrite !andb_false_r].
    destruct (startswith (txt "- Media:") (strip raw)); [reflexivity|].
    destruct (startswith (txt "***") (strip raw)); [reflexivity|].
    destruct (startswith (txt "---") (strip raw)); [reflexivity|].
    cbn [negb andb] in *. now rewrite H2.
Qed.

Lemma parse_sightings_total_witness :
  process_line ([], Some (fresh (txt "Snowy Owl") (txt "Bubo scandiacus")
                                (txt "1") true))
               (txt "*** Species Summary:")
  = Ok ([], Some (fresh (txt "Snowy Owl") (txt "Bubo scandiacus")
                        (txt "1") true)).
Proof.
  apply (proj2 (parse_sightings_total []) ([], Some _)).
  vm_compute. reflexivity.
Defined.

(** What the extractor does with the accumulator when a header matches
    and when the input ends: it is appended exactly when its latitude
    is there and is not zero. *)
Lemma flush_appends out cur :
  flush out cur
  = match cur with
    | Some r =>
        match lat r with
        | Some f => if Float.truthy f then out ++ [r] else out
        | None => out
        end
    | None => out
    end.
Proof.
  unfold flush, lat_truthy. destruct cur as [r|]; [|reflexivity].
  destruct (lat r) as [f|]; reflexivity.
Qed.

(** C1 holds of every accumulator but one at latitude zero.  After the
    header and the map line of [equator_body] the accumulator has the
    coordinates (0.0, -78.5), and the extractor returns no record: the
    test [current.get("lat")] takes the latitude 0.0 for a missing
    one.  The same text one tenth of a degree to the north gives the
    record. *)
Theorem equator_record_is_dropped :
  (exists st,
     run_lines ([], None) (splitlines equator_body) = Ok st
     /\ has_coordinates (snd st) = true
     /\ flush (fst st) (snd st) = [])
  /\ parse_sightings equator_body = Ok []
  /\ (exists r, parse_sightings
        (txt ("Snowy Owl (Bubo scandiacus) (1)" ++ nl ++
              "- Map: http://maps.google.com/?q=0.1,-78.5" ++ nl)%string)
      = Ok [r]).
Proof.
  split; [|split].
  - eexists. split; [vm_compute; reflexivity|]. split; reflexivity.
  - vm_compute. reflexivity.
  - eexists. vm_compute. reflexivity.
Qed.

End ExtractorFacts.


(** ** The API extractor *)

Section ApiFacts.
Import Text Dates Api ApiSpec.

Lemma truthy_and a b : truthy (py_and a b) = truthy a && truthy b.
Proof. unfold py_and. now destruct (truthy a) eqn:E; rewrite ?E. Qed.

Lemma get_flag o k b :
  flag o k = Some b -> get o k (JBool false) = JBool b.
Proof.
  unfold flag, get. destruct (o !! k) as [v|]; cbn.
  - destruct v; try discriminate. now intros [= ->].
  - now intros [= <-].
Qed.

Variable py_str : json -> str.
Variable py_float_of : json -> result Float.float.

Lemma obs_record_confirmed o r :
  obs_record py_str py_float_of o = Ok (Some r) ->
  confirmed r = obs_confirmed o.
Proof.
  unfold obs_record. cbv zeta.
  destruct (is_none _ || is_none _); [intros H; discriminate H|].
  destruct (obs_date o) as [d|e]; cbn; [|discriminate].
  destruct (py_float_of (get o "lat" JNull)) as [la|e]; cbn; [|discriminate].
  destruct (py_float_of (get o "lng" JNull)) as [lo|e]; cbn; [|discriminate].
  now intros [= <-].
Qed.

(** C7.  The record made of an observation has under [confirmed] the
    conjunction of the flags [obsReviewed] and [obsValid], a missing
    flag counting as false: [true] when both are [true], [false] for
    every other combination.  For entries that are no booleans the
    truth value of [confirmed] is still the conjunction of theirs. *)
Theorem confirmed_is_conjunction (o : obs) (r : sighting) (b1 b2 : bool) :
  obs_record py_str py_float_of o = Ok (Some r) ->
  flag o "obsReviewed" = Some b1 ->
  flag o "obsValid" = Some b2 ->
  confirmed r = JBool (b1 && b2)
  /\ truthy (confirmed r)
     = truthy (get o "obsReviewed" (JBool false))
       && truthy (get o "obsValid" (JBool false)).
Proof.
  intros Hr H1 H2. rewrite (obs_record_confirmed o r Hr).
  unfold obs_confirmed. split; [|apply truthy_and].
  rewrite (get_flag _ _ _ H1), (get_flag _ _ _ H2).
  unfold py_and. cbn. now destruct b1.
Qed.

(** Whatever the entries hold, [confirmed] is true exactly when both
    are. *)
Lemma confirmed_truth o r :
  obs_record py_str py_float_of o = Ok (Some r) ->
  truthy (confirmed r)
  = truthy (get o "obsReviewed" (JBool false))
    && truthy (get o "obsValid" (JBool false)).
Proof.
  intros Hr. rewrite (obs_record_confirmed o r Hr). apply truthy_and.
Qed.

End ApiFacts.

Section ApiDates.
Import Text Dates Api ApiSpec.

(** [strptime] raises nothing but [ValueError]. *)
Lemma strptime_raises s f e : strptime s f = Raise e -> e = ValueError.
Proof.
  unfold strptime.
  destruct (Regex.re_match_rest _ _) as [[m rest]|]; [|now intros [= <-]].
  destruct rest; [|now intros [= <-]].
  destruct (valid_date _ _ _); [discriminate|now intros [= <-]].
Qed.

Lemma try_formats_two s :
  try_formats s [fmt_iso_minutes; fmt_iso_date] = Ok (display_date s).
Proof.
  unfold display_date, parsed. cbn [try_formats].
  destruct (strptime s fmt_iso_minutes) as [dt|e1] eqn:E1; [reflexivity|].
  rewrite (strptime_raises _ _ _ E1).
  destruct (strptime s fmt_iso_date) as [dt|e2] eqn:E2; [reflexivity|].
  now rewrite (strptime_raises _ _ _ E2).
Qed.

Example reformat_date_examples :
  reformat_date (txt "2026-02-05 15:08") = Ok (txt "Feb 05, 2026 15:08")
  /\ reformat_date (txt "2026-02-05") = Ok (txt "Feb 05, 2026 00:00")
  /\ reformat_date (txt "2026-02-30") = Ok []
  /\ reformat_date (txt "yesterday") = Ok [].
Proof.
  split; [vm_compute; reflexivity|].
  split; [vm_compute; reflexivity|].
  split; vm_compute; reflexivity.
Qed.

Lemma confirmed_is_conjunction_witness :
  exists r,
    obs_record str_of float_of owl = Ok (Some r)
    /\ confirmed r = JBool true.
Proof.
  destruct (obs_record str_of float_of owl) as [[r|]|e] eqn:E;
    [|vm_compute in E; discriminate E ..].
  exists r. split; [reflexivity|].
  apply (confirmed_is_conjunction str_of float_of owl r true true E);
    vm_compute; reflexivity.
Defined.

End ApiDates.


(** ** The date span *)

Section SpanFacts.
Import Text Dates Span SpanSpec.
Local Open Scope Z_scope.

Lemma fold_max_bounds rest : forall d,
  d <= fold_left Z.max rest d /\
  Forall (fun x => x <= fold_left Z.max rest d) rest /\
  In (fold_left Z.max rest d) (d :: rest).
Proof.
  induction rest as [|x rest IH]; intros d; cbn [fold_left].
  - split; [lia|]. split; [constructor|now left].
  - destruct (IH (Z.max d x)) as (H1 & H2 & H3).
    split; [lia|]. split; [constructor; [lia|exact H2]|].
    destruct H3 as [H3|H3]; [|now right; right].
    rewrite <- H3. destruct (Z.max_spec d x) as [[_ ->]|[_ ->]];
      [right; now left|now left].
Qed.

Lemma fold_min_bounds rest : forall d,
  fold_left Z.min rest d <= d /\
  Forall (fun x => fold_left Z.min rest d <= x) rest /\
  In (fold_left Z.min rest d) (d :: rest).
Proof.
  induction rest as [|x rest IH]; intros d; cbn [fold_left].
  - split; [lia|]. split; [constructor|now left].
  - destruct (IH (Z.min d x)) as (H1 & H2 & H3).
    split; [lia|]. split; [constructor; [lia|exact H2]|].
    destruct H3 as [H3|H3]; [|now right; right].
    rewrite <- H3. destruct (Z.min_spec d x) as [[_ ->]|[_ ->]];
      [now left|right; now left].
Qed.

(** The newest date is one of the dates and none is newer. *)
Lemma newest_of_spec ds n :
  newest_of ds = Some n -> In n ds /\ Forall (fun x => x <= n) ds.
Proof.
  destruct ds as [|d rest]; [discriminate|]. cbn. intros [= <-].
  destruct (fold_max_bounds rest d) as (H1 & H2 & H3).
  split; [exact H3|]. now constructor.
Qed.

Lemma oldest_of_spec ds o :
  oldest_of ds = Some o -> In o ds /\ Forall (fun x => o <= x) ds.
Proof.
  destruct ds as [|d rest]; [discriminate|]. cbn. intros [= <-].
  destruct (fold_min_bounds rest d) as (H1 & H2 & H3).
  split; [exact H3|]. now constructor.
Qed.

Lemma oldest_le_newest ds n o :
  newest_of ds = Some n -> oldest_of ds = Some o -> o <= n.
Proof.
  intros Hn Ho. apply newest_of_spec in Hn as [_ Hn].
  apply oldest_of_spec in Ho as [Ho _].
  rewrite List.Forall_forall in Hn. now apply Hn.
Qed.






Example date_span_examples :
  date_span (Some 7) [739652; 739650] = 7
  /\ date_span (Some 1) [739652; 739650] = 2
  /\ date_span None [739652; 739652] = 1
  /\ date_span None [] = 1
  /\ date_span (Some 0) [739652; 739642] = 10.
Proof. repeat split. Qed.

(** The constructor of a date accepts only dates of the calendar. *)
Lemma ymd2ord_is_date y m d :
  valid_date y m d = true -> is_date (ymd2ord y m d).
Proof.
  unfold valid_date. intros H.
  repeat (apply andb_prop in H as [H ?]).
  assert (Hm : m = 1 \/ m = 2 \/ m = 3 \/ m = 4 \/ m = 5 \/ m = 6 \/
               m = 7 \/ m = 8 \/ m = 9 \/ m = 10 \/ m = 11 \/ m = 12) by lia.
  assert (Hy : 1 <= y <= 9999) by lia.
  assert (Hd : 1 <= d <= days_in_month y m) by lia.
  clear - Hm Hy Hd.
  unfold is_date, max_ordinal, ymd2ord, days_before_year, days_before_month,
    days_in_month in *.
  destruct (Z.eq_dec y 9999) as [->|Hy'].
  - change (is_leap 9999) with false in *.
    change ((9999 - 1) * 365 + (9999 - 1) / 4 - (9999 - 1) / 100
            + (9999 - 1) / 400) with 3651694.
    rewrite !andb_false_r in *.
    destruct Hm as [->|[->|[->|[->|[->|[->|[->|[->|[->|[->|[->| ->]]]]]]]]]]];
      cbv [nth Z.to_nat Pos.to_nat Pos.iter_op Init.Nat.add] in Hd |- *; lia.
  - pose proof (Z.div_pos (y - 1) 400 ltac:(lia) ltac:(lia)).
    assert ((y - 1) / 100 <= (y - 1) / 4) by (apply Z.div_le_compat_l; lia).
    assert ((y - 1) / 4 <= 2500) by (apply Z.div_le_upper_bound; lia).
    assert ((y - 1) / 400 <= (y - 1) / 100) by (apply Z.div_le_compat_l; lia).
    destruct (is_leap y);
    destruct Hm as [->|[->|[->|[->|[->|[->|[->|[->|[->|[->|[->| ->]]]]]]]]]]];
      cbv -[Z.add Z.mul Z.sub Z.div Z.le Z.lt] in Hd |- *; lia.
Qed.

Lemma strptime_is_date s f dt :
  strptime s f = Ok dt -> is_date (date_of dt).
Proof.
  unfold strptime.
  destruct (Regex.re_match_rest _ _) as [[m rest]|]; [|discriminate].
  destruct rest; [|discriminate].
  destruct (valid_date _ _ _) eqn:V; [|discriminate].
  intros [= <-]. now apply ymd2ord_is_date.
Qed.

Lemma parsed_dates_are_dates strs ds :
  parsed_dates strs = Ok ds -> Forall is_date ds.
Proof.
  revert ds. induction strs as [|x strs IH]; cbn [parsed_dates]; intros ds H.
  - injection H as <-. constructor.
  - destruct (parse_reported_date x) as [d|e] eqn:Ed;
      cbn [mbind result_bind] in H; [|discriminate H].
    destruct (parsed_dates strs) as [r|e] eqn:Er;
      cbn [mbind result_bind] in H; [|discriminate H].
    injection H as <-. specialize (IH r eq_refl).
    destruct d as [v|]; [|exact IH]. constructor; [|exact IH].
    unfold parse_reported_date in Ed. cbn [parse_with] in Ed.
    destruct (strptime (strip x) fmt_display) as [dt|e1] eqn:E1.
    + injection Ed as <-. now apply (strptime_is_date _ _ _ E1).
    + rewrite (strptime_raises _ _ _ E1) in Ed.
      destruct (strptime (strip x) fmt_display_date) as [dt|e2] eqn:E2.
      * injection Ed as <-. now apply (strptime_is_date _ _ _ E2).
      * rewrite (strptime_raises _ _ _ E2) in Ed. discriminate Ed.
Qed.

Lemma parsed_dates_returns strs : exists ds, parsed_dates strs = Ok ds.
Proof.
  induction strs as [|x strs [r Hr]]; cbn [parsed_dates]; [eauto|].
  assert (exists d, parse_reported_date x = Ok d) as [d ->].
  { unfold parse_reported_date. cbn [parse_with].
    destruct (strptime (strip x) fmt_display) as [dt|e] eqn:E1; [eauto|].
    rewrite (strptime_raises _ _ _ E1).
    destruct (strptime (strip x) fmt_display_date) as [dt|e2] eqn:E2; [eauto|].
    rewrite (strptime_raises _ _ _ E2). eauto. }
  rewrite Hr. cbn. eauto.
Qed.


End SpanFacts.


(** ** The day-count filter *)

Section FilterFacts.
Import Text Dates Filter FilterSpec.
Local Open Scope Z_scope.

Lemma send_dates_In l e d :
  In e l -> send_date e = Some d -> In d (send_dates l).
Proof.
  unfold send_dates. intros Hin Hd.
  apply list_elem_of_In. apply list_elem_of_omap.
  exists e. split; [now apply list_elem_of_In|exact Hd].
Qed.

(** No entry was sent after the newest date. *)
Lemma newest_date_newest l newest e d :
  newest_date l = Ok newest -> In e l -> send_date e = Some d -> d <= newest.
Proof.
  unfold newest_date.
  destruct (Span.newest_of (send_dates l)) as [n|] eqn:E; [|discriminate].
  intros [= <-] Hin Hd.
  apply newest_of_spec in E as [_ E]. rewrite List.Forall_forall in E.
  apply E. now apply (send_dates_In l e).
Qed.

Lemma minus_days_applicable newest n :
  applicable newest n -> minus_days newest (n - 1) = Ok (newest - (n - 1)).
Proof.
  intros [H1 H2]. unfold minus_days.
  replace (999999999 <? Z.abs (n - 1)) with false by lia.
  replace ((1 <=? newest - (n - 1)) && (newest - (n - 1) <=? max_ordinal))
    with true by lia.
  reflexivity.
Qed.

Lemma In_all_sightings kept s tag :
  In (s, tag) (all_sightings kept) <->
  exists e, In e kept /\ In s (sightings e) /\ tag = send_date e.
Proof.
  unfold all_sightings, tagged. rewrite in_concat. split.
  - intros (l & Hl & Hin). apply in_map_iff in Hl as (e & <- & He).
    apply in_map_iff in Hin as (s' & [= -> <-] & Hs). eauto.
  - intros (e & He & Hs & ->).
    exists (map (fun s0 => (s0, send_date e)) (sightings e)). split.
    + apply in_map_iff. eauto.
    + apply in_map_iff. eauto.
Qed.

(** C5, as amended.  With a day count [n] that can be applied, the
    entries kept are those sent on one of the [n] days that end with
    the newest send date, both ends included; the records that survive
    are the records of these entries, whatever their own report dates,
    and an entry without a send date is dropped. *)
Theorem day_filter_keeps_recent_mail
    (parsed : list eml) (n : Z) (newest : date) :
  newest_date parsed = Ok newest ->
  applicable newest n ->
  filter_by_days (Some n) parsed
  = Ok (List.filter (sent_within newest n) parsed)
  /\ surviving (Some n) parsed
     = Ok (all_sightings (List.filter (sent_within newest n) parsed))
  /\ forall s tag,
       In (s, tag) (all_sightings (List.filter (sent_within newest n) parsed))
       <-> exists e d,
             In e parsed /\ In s (sightings e) /\
             send_date e = Some d /\ tag = Some d /\
             newest - (n - 1) <= d <= newest.
Proof.
  intros Hn Ha.
  assert (E : filter_by_days (Some n) parsed
              = Ok (List.filter (sent_within newest n) parsed)).
  { unfold filter_by_days. rewrite Hn. cbn [mbind result_bind].
    rewrite (minus_days_applicable _ _ Ha). cbn [mbind result_bind].
    f_equal. apply filter_ext_in. intros e He.
    unfold recent, sent_within, within_days.
    destruct (send_date e) as [d|] eqn:Ed; [|reflexivity].
    pose proof (newest_date_newest _ _ _ _ Hn He Ed).
    replace (d <=? newest) with true by lia. now rewrite andb_true_r. }
  split; [exact E|]. split; [unfold surviving; now rewrite E|].
  intros s tag. rewrite In_all_sightings. split.
  - intros (e & He & Hs & ->). apply filter_In in He as [He Hw].
    unfold sent_within, within_days in Hw.
    destruct (send_date e) as [d|] eqn:Ed; [|discriminate].
    exists e, d. repeat split; auto; lia.
  - intros (e & d & He & Hs & Ed & -> & Hd).
    exists e. split; [|auto]. apply filter_In. split; [exact He|].
    unfold sent_within, within_days. rewrite Ed. lia.
Qed.

Lemma day_filter_keeps_recent_mail_witness :
  surviving (Some 3) ten_days
  = Ok (all_sightings (List.filter (sent_within feb10 3) ten_days)).
Proof.
  assert (H1 : newest_date ten_days = Ok feb10) by (vm_compute; reflexivity).
  assert (H2 : applicable feb10 3)
    by (unfold applicable, max_ordinal, feb10; lia).
  exact (proj1 (proj2 (day_filter_keeps_recent_mail ten_days 3 feb10 H1 H2))).
Defined.

(** The example of the specification: of ten alerts sent on ten days
    in a row the filter of 3 keeps those of the newest three days. *)
Example ten_days_filter_three :
  filter_by_days (Some 3) ten_days
  = Ok [alert_on (feb10 - 2); alert_on (feb10 - 1); alert_on feb10].
Proof. vm_compute. reflexivity. Qed.

(** C5, as stated, fails.  The alert was sent on 10 February and holds
    a report of 1 February; under the filter of 3 days, anchored at 10
    February (the newest send date and the newest report date alike),
    that record survives although its report date is not one of the
    three newest days: the filter reads the send date of the mail, not
    the report dates of the records. *)
Lemma day_filter_ignores_report_dates :
  surviving (Some 3) [alert]
  = Ok [(reported "Feb 10, 2026 08:00", Some feb10);
        (reported "Feb 01, 2026 09:00", Some feb10)]
  /\ report_date (reported "Feb 10, 2026 08:00") = Some feb10
  /\ report_date (reported "Feb 01, 2026 09:00") = Some feb01
  /\ within_days feb10 3 feb01 = false.
Proof.
  split; [vm_compute; reflexivity|].
  split; [vm_compute; reflexivity|].
  split; vm_compute; reflexivity.
Qed.

End FilterFacts.

(** ** Reading and writing dates *)

Section DateDigits.
Import Text Regex Dates DatesSpec.
Local Open Scope Z_scope.


Lemma below_listed (n z : Z) : 0 <= z < n -> In z (below n).
Proof.
  intros H. apply in_map_iff. exists (Z.to_nat z).
  split; [lia|]. apply in_seq. lia.
Qed.

Lemma two_places_read_back :
  forallb (reads_back 2) (below 100) = true.
Proof. vm_compute. reflexivity. Qed.

Lemma four_places_read_back :
  forallb (reads_back 4) (below 10000) = true.
Proof. vm_compute. reflexivity. Qed.

Lemma padded_two z :
  0 <= z <= 99 ->
  exists a b, padded 2 z = [a; b] /\ is_digit a = true /\ is_digit b = true
    /\ int_of (padded 2 z) = z.
Proof.
  intros Hz. pose proof two_places_read_back as H.
  rewrite forallb_forall in H. specialize (H z (below_listed 100 z ltac:(lia))).
  unfold reads_back in H. apply andb_prop in H as [H H3].
  apply andb_prop in H as [H1 H2]. apply Nat.eqb_eq in H1.
  destruct (padded 2 z) as [|a [|b [|? ?]]]; try discriminate.
  cbn [forallb] in H2. apply andb_prop in H2 as [Ha H2].
  apply andb_prop in H2 as [Hb _].
  exists a, b. repeat split; auto. lia.
Qed.

Lemma padded_four z :
  0 <= z <= 9999 ->
  exists a b c d, padded 4 z = [a; b; c; d]
    /\ is_digit a = true /\ is_digit b = true
    /\ is_digit c = true /\ is_digit d = true
    /\ int_of (padded 4 z) = z.
Proof.
  intros Hz. pose proof four_places_read_back as H.
  rewrite forallb_forall in H.
  specialize (H z (below_listed 10000 z ltac:(lia))).
  unfold reads_back in H. apply andb_prop in H as [H H3].
  apply andb_prop in H as [H1 H2]. apply Nat.eqb_eq in H1.
  destruct (padded 4 z) as [|a [|b [|c [|d [|? ?]]]]]; try discriminate.
  cbn [forallb] in H2.
  repeat (apply andb_prop in H2 as [? H2]).
  exists a, b, c, d. repeat split; auto. lia.
Qed.

(** From 1000 on a year has four digits of its own; below, fewer. *)
Lemma long_years :
  forallb (fun y => (y <? 1000) || Nat.eqb (length (decimal y)) 4)
    (below 10000) = true.
Proof. vm_compute. reflexivity. Qed.

Lemma short_years :
  forallb (fun y => forallb is_digit (decimal y)
                    && (length (decimal y) <=? 3)%nat)
    (below 1000) = true.
Proof. vm_compute. reflexivity. Qed.

Lemma decimal_four y : 1000 <= y <= 9999 -> decimal y = padded 4 y.
Proof.
  intros Hy. pose proof long_years as H. rewrite forallb_forall in H.
  specialize (H y (below_listed 10000 y ltac:(lia))).
  apply orb_prop in H as [H|H]; [lia|]. apply Nat.eqb_eq in H.
  unfold padded. now rewrite H.
Qed.

Lemma take_front (w rest : str) :
  take (length (w ++ rest) - length rest) (w ++ rest) = w.
Proof. apply take_consumed. Qed.

End DateDigits.

(** The outcome of a test on given characters. *)
Ltac settle_tests :=
  repeat match goal with
  | |- context [if ?b then _ else _] =>
      let v := eval vm_compute in b in
      change b with v; cbv iota
  end.

(** The first alternative that gets as far as the continuation gives
    the result. *)
Ltac finish_with H :=
  match goal with
  | |- Regex.orelse ?x _ = Some ?v =>
      let E := fresh "E" in
      assert (E : x = Some v) by exact H; rewrite E; reflexivity
  | |- ?x = Some ?v => exact H
  end.

Ltac in_cases H :=
  vm_compute in H;
  repeat (destruct H as [H|H]; [subst|]); try contradiction.

Ltac read_two :=
  match goal with
  | |- context [Dates.padded 2 ?n] =>
      let w := eval vm_compute in (Dates.padded 2 n) in
      change (Dates.padded 2 n) with w in *
  end;
  cbn [Dates.item_regex Dates.alts Regex.cat fold_right Dates.chr Dates.rng Regex.rmatch app Regex.orelse];
  settle_tests; cbn [Regex.orelse];
  match goal with
  | |- context [take _ (?a :: ?b :: ?r)] =>
      change (a :: b :: r) with ([a; b] ++ r);
      rewrite (take_front [a; b] r)
  end.

Ltac look_up :=
  unfold DatesSpec.display_groups, Dates.gY, Dates.gm, Dates.gd, Dates.gH, Dates.gM, Dates.gb;
  repeat first
    [ rewrite lookup_insert_eq; reflexivity
    | rewrite lookup_insert_ne by done ].

Section DateReading.
Import Text Regex Dates DatesSpec.
Local Open Scope Z_scope.


(** Each directive reads what [strftime] writes for it.  The
    continuation [k] is the rest of the format. *)
Lemma reads_day {A} d rest c (k : str -> caps -> option A) v :
  1 <= d <= 31 ->
  k rest (<[gd := padded 2 d]> c) = Some v ->
  rmatch (item_regex Fd) (padded 2 d ++ rest) c k = Some v.
Proof.
  intros Hd. pose proof (below_listed 32 d ltac:(lia)) as Hin.
  in_cases Hin; try lia.
  all: intros H;
    match goal with
    | |- context [padded 2 ?n] =>
        let w := eval vm_compute in (padded 2 n) in
        change (padded 2 n) with w in *
    end;
    cbn [item_regex alts cat fold_right chr rng rmatch app orelse];
    settle_tests; cbn [orelse];
    match goal with
    | |- context [take _ (?a :: ?b :: ?r)] =>
        change (a :: b :: r) with ([a; b] ++ r);
        rewrite (take_front [a; b] r)
    end;
    finish_with H.
Qed.

Lemma reads_hour {A} h rest c (k : str -> caps -> option A) v :
  0 <= h <= 23 ->
  k rest (<[gH := padded 2 h]> c) = Some v ->
  rmatch (item_regex FH) (padded 2 h ++ rest) c k = Some v.
Proof.
  intros Hh. pose proof (below_listed 24 h ltac:(lia)) as Hin.
  in_cases Hin; try lia.
  all: intros H; read_two; finish_with H.
Qed.

Lemma reads_minute {A} m rest c (k : str -> caps -> option A) v :
  0 <= m <= 59 ->
  k rest (<[gM := padded 2 m]> c) = Some v ->
  rmatch (item_regex FM) (padded 2 m ++ rest) c k = Some v.
Proof.
  intros Hm. pose proof (below_listed 60 m ltac:(lia)) as Hin.
  in_cases Hin; try lia.
  all: intros H; read_two; finish_with H.
Qed.

Lemma reads_month {A} m rest c (k : str -> caps -> option A) v :
  1 <= m <= 12 ->
  k rest (<[gb := month_text m]> c) = Some v ->
  rmatch (item_regex Fb) (month_text m ++ rest) c k = Some v.
Proof.
  intros Hm. pose proof (below_listed 13 m ltac:(lia)) as Hin.
  in_cases Hin; try lia.
  all: intros H;
    match goal with
    | |- context [month_text ?n] =>
        let w := eval vm_compute in (month_text n) in
        change (month_text n) with w in *
    end;
    cbn [item_regex alts cat fold_right month_abbr map lit_ci txt
         list_ascii_of_string rmatch app orelse];
    settle_tests; cbn [orelse];
    match goal with
    | |- context [take _ (?a :: ?b :: ?d :: ?r)] =>
        change (a :: b :: d :: r) with ([a; b; d] ++ r);
        rewrite (take_front [a; b; d] r)
    end;
    finish_with H.
Qed.

Lemma reads_year {A} y rest c (k : str -> caps -> option A) v :
  0 <= y <= 9999 ->
  k rest (<[gY := padded 4 y]> c) = Some v ->
  rmatch (item_regex FY) (padded 4 y ++ rest) c k = Some v.
Proof.
  intros Hy. destruct (padded_four y Hy) as (a & b & d & e & -> & Ha & Hb & Hd & He & _).
  intros H.
  cbn [item_regex cat fold_right rmatch app].
  rewrite Ha, Hb, Hd, He.
  change (a :: b :: d :: e :: rest) with ([a; b; d; e] ++ rest).
  rewrite (take_front [a; b; d; e] rest). exact H.
Qed.

(** A blank of the format reads one blank of the text when no blank
    follows. *)
Lemma reads_blank {A} rest c (k : str -> caps -> option A) :
  head_fails is_space rest ->
  rmatch (item_regex Blank) (" "%char :: rest) c k = k rest c.
Proof.
  intros H. cbn [item_regex Plus rmatch].
  change (is_space " ") with true. cbv iota.
  now apply greedy_star_stop.
Qed.

Lemma reads_lit {A} a rest c (k : str -> caps -> option A) :
  is_lower a = false -> is_upper a = false ->
  rmatch (item_regex (Lit a)) (a :: rest) c k = k rest c.
Proof.
  intros Hl Hu. cbn [item_regex rmatch]. unfold same_letter, is_char.
  now rewrite Ascii.eqb_refl.
Qed.

Lemma digit_head_not_space (w rest : str) a :
  is_digit a = true -> head_fails is_space ((a :: w) ++ rest).
Proof. intros H. cbn. now apply digit_not_space. Qed.

Lemma padded_two_head d rest :
  0 <= d <= 99 -> head_fails is_space (padded 2 d ++ rest).
Proof.
  intros H. destruct (padded_two d H) as (a & b & -> & Ha & _).
  now apply digit_head_not_space.
Qed.

Lemma padded_four_head y rest :
  0 <= y <= 9999 -> head_fails is_space (padded 4 y ++ rest).
Proof.
  intros H. destruct (padded_four y H) as (a & b & d & e & -> & Ha & _).
  now apply digit_head_not_space.
Qed.

Lemma days_in_month_bound y m : days_in_month y m <= 31.
Proof.
  unfold days_in_month. destruct ((m =? 2) && is_leap y); [lia|].
  destruct (Z.to_nat m) as [|[|[|[|[|[|[|[|[|[|[|[|[|n]]]]]]]]]]]]];
    cbn [nth]; try lia.
  destruct n; cbn; lia.
Qed.

Lemma valid_date_bounds y m d :
  valid_date y m d = true ->
  1 <= y <= 9999 /\ 1 <= m <= 12 /\ 1 <= d <= 31.
Proof.
  unfold valid_date. intros H. pose proof (days_in_month_bound y m).
  repeat (apply andb_prop in H as [H ?]). lia.
Qed.

Lemma display_match dt :
  valid_datetime dt -> 1000 <= year dt ->
  re_match_rest (format_regex fmt_display) (strftime dt fmt_display)
  = Some (display_groups dt, []).
Proof.
  intros (Hv & Hh & Hm) Hlong.
  apply valid_date_bounds in Hv as (Hy & Hmo & Hd).
  unfold re_match_rest, format_regex, fmt_display, strftime, display_groups.
  cbn [map concat cat fold_right strftime_item].
  rewrite (decimal_four (year dt)) by lia.
  fold (month_text (month dt)).
  rewrite rmatch_cat. apply reads_month; [exact Hmo|].
  change (txt " " ++ ?x) with (" "%char :: x).
  rewrite rmatch_cat, reads_blank by (apply padded_two_head; lia).
  rewrite rmatch_cat. apply reads_day; [exact Hd|].
  change ([","%char] ++ ?x) with (","%char :: x).
  rewrite rmatch_cat, reads_lit by reflexivity.
  change (txt " " ++ ?x) with (" "%char :: x).
  rewrite rmatch_cat, reads_blank by (apply padded_four_head; lia).
  rewrite rmatch_cat. apply reads_year; [lia|].
  change (txt " " ++ ?x) with (" "%char :: x).
  rewrite rmatch_cat, reads_blank by (apply padded_two_head; lia).
  rewrite rmatch_cat. apply reads_hour; [exact Hh|].
  change ([":"%char] ++ ?x) with (":"%char :: x).
  rewrite rmatch_cat, reads_lit by reflexivity.
  rewrite rmatch_cat. apply reads_minute; [exact Hm|].
  reflexivity.
Qed.

Lemma month_text_index m :
  1 <= m <= 12 -> index_of (map lower (month_text m)) month_abbr 1 = m.
Proof.
  intros Hm. pose proof (below_listed 13 m ltac:(lia)) as Hin.
  in_cases Hin; try lia; vm_compute; reflexivity.
Qed.

Lemma display_groups_fields dt :
  display_groups dt !! gY = Some (padded 4 (year dt))
  /\ display_groups dt !! gb = Some (month_text (month dt))
  /\ display_groups dt !! gd = Some (padded 2 (day dt))
  /\ display_groups dt !! gH = Some (padded 2 (hour dt))
  /\ display_groups dt !! gM = Some (padded 2 (minute dt)).
Proof. repeat split; look_up. Qed.

Lemma strptime_display dt :
  valid_datetime dt -> 1000 <= year dt ->
  strptime (strftime dt fmt_display) fmt_display = Ok dt.
Proof.
  intros Hdt Hlong. unfold strptime. rewrite (display_match dt Hdt Hlong).
  destruct Hdt as (Hv & Hh & Hm).
  pose proof (valid_date_bounds _ _ _ Hv) as (Hy & Hmo & Hd).
  destruct (display_groups_fields dt) as (EY & Eb & Ed & EH & EM).
  unfold field, group. rewrite EY, Eb, Ed, EH, EM.
  destruct (padded_two (day dt) ltac:(lia)) as (? & ? & _ & _ & _ & ->).
  destruct (padded_two (hour dt) ltac:(lia)) as (? & ? & _ & _ & _ & ->).
  destruct (padded_two (minute dt) ltac:(lia)) as (? & ? & _ & _ & _ & ->).
  destruct (padded_four (year dt) ltac:(lia))
    as (? & ? & ? & ? & _ & _ & _ & _ & _ & ->).
  rewrite (month_text_index _ Hmo), Hv. now destruct dt.
Qed.

Lemma month_text_head m :
  1 <= m <= 12 ->
  exists a w, month_text m = a :: w /\ is_space a = false.
Proof.
  intros Hm. pose proof (below_listed 13 m ltac:(lia)) as Hin.
  in_cases Hin; try lia; eexists _, _; split; reflexivity.
Qed.

(** What the display text looks like at its two ends. *)
Lemma display_text_clean dt :
  valid_datetime dt ->
  strip (strftime dt fmt_display) = strftime dt fmt_display.
Proof.
  intros (Hv & Hh & Hm). apply valid_date_bounds in Hv as (Hy & Hmo & Hd).
  unfold strftime, fmt_display.
  cbn [map concat strftime_item]. fold (month_text (month dt)).
  destruct (padded_two (minute dt) ltac:(lia)) as (m1 & m2 & -> & _ & Hm2 & _).
  destruct (month_text_head _ Hmo) as (a & w & -> & Ha).
  apply strip_clean.
  - discriminate.
  - exact Ha.
  - rewrite app_nil_r, !app_assoc.
    change [m1; m2] with ([m1] ++ [m2]). rewrite app_assoc.
    rewrite List.last_last. now apply digit_not_space.
Qed.

Lemma parse_reported_display dt :
  valid_datetime dt -> 1000 <= year dt ->
  Span.parse_reported_date (strftime dt fmt_display)
  = Ok (Some (date_of dt)).
Proof.
  intros H Hlong. unfold Span.parse_reported_date. cbn [Span.parse_with].
  now rewrite (display_text_clean dt H), (strptime_display dt H Hlong).
Qed.

Lemma Matches_plain r s c s' c' :
  Matches r s c s' c' -> plain r = true -> c' = c.
Proof.
  induction 1; cbn [plain]; intros Hp; try reflexivity;
    try discriminate;
    try (apply andb_prop in Hp as [Hp1 Hp2]).
  - rewrite IHMatches2, IHMatches1; auto.
  - auto.
  - auto.
  - rewrite IHMatches2, IHMatches1; auto.
Qed.

Lemma Matches_group_plain n r s c s' c' :
  plain r = true ->
  Matches (Group n r) s c s' c' ->
  exists w, s = w ++ s' /\ c' = <[n := w]> c /\ Matches r (w ++ s') c s' c.
Proof.
  intros Hp H. apply Matches_group in H as (c1 & H & ->).
  pose proof (Matches_plain _ _ _ _ _ H Hp) as ->.
  destruct (Matches_prefix _ _ _ _ _ H) as [w ->].
  exists w. rewrite take_consumed. auto.
Qed.

Lemma digit_value_range lo hi a :
  in_range lo hi a = true ->
  Z.of_N lo - 48 <= digit_value a <= Z.of_N hi - 48.
Proof.
  unfold in_range, digit_value. intros H. apply andb_prop in H as [H1 H2].
  apply N.leb_le in H1, H2. lia.
Qed.

Lemma digit_value_char c a :
  is_char c a = true -> digit_value a = Z.of_N (code c) - 48.
Proof. intros H. apply is_char_eq in H. now subst. Qed.

Lemma int_of_two a b :
  is_digit a = true -> is_digit b = true ->
  int_of [a; b] = 10 * digit_value a + digit_value b.
Proof.
  intros Ha Hb. unfold int_of. rewrite strip_clean.
  - cbn. lia.
  - discriminate.
  - now apply digit_not_space.
  - now apply digit_not_space.
Qed.

Lemma int_of_one a : is_digit a = true -> int_of [a] = digit_value a.
Proof.
  intros Ha. unfold int_of. rewrite strip_clean.
  - cbn. lia.
  - discriminate.
  - now apply digit_not_space.
  - now apply digit_not_space.
Qed.

Lemma range_is_digit lo hi a :
  (48 <= lo)%N -> (hi <= 57)%N -> in_range lo hi a = true -> is_digit a = true.
Proof.
  unfold is_digit, in_range. intros H1 H2 H. apply andb_prop in H as [A B].
  apply N.leb_le in A, B. apply andb_true_intro.
  split; apply N.leb_le; lia.
Qed.

End DateReading.

(** The text a numeric group took, from the equation [shape] leaves. *)
Ltac taken :=
  match goal with
  | E : ?w ++ ?r = ?a :: ?b :: ?r |- _ =>
      change (a :: b :: r) with ([a; b] ++ r) in E;
      apply app_inv_tail in E; subst w
  | E : ?w ++ ?r = ?a :: ?r |- _ =>
      change (a :: r) with ([a] ++ r) in E;
      apply app_inv_tail in E; subst w
  end.

Ltac digit_facts :=
  repeat match goal with
  | H : Text.is_char _ ?a = true |- _ =>
      let E := fresh "E" in
      pose proof (digit_value_char _ _ H) as E;
      apply is_char_eq in H; cbn in E
  | H : Text.in_range ?lo ?hi ?a = true |- _ =>
      let E := fresh "E" in let D := fresh "D" in
      pose proof (digit_value_range _ _ _ H) as E;
      assert (D : Text.is_digit a = true)
        by (apply (range_is_digit lo hi a);
            [vm_compute; congruence|vm_compute; congruence|exact H]);
      clear H; cbn in E
  end.

Ltac digit_bounds :=
  repeat match goal with
  | H : Text.is_digit ?a = true |- _ =>
      let E := fresh "E" in
      pose proof (digit_value_range _ _ _ H) as E; cbn in E;
      revert H
  end; intros.

Section DateValidity.
Import Text Regex Dates DatesSpec.
Local Open Scope Z_scope.


Lemma hour_text w s' c :
  Matches (alts [cat [chr "2"; rng "0" "3"];
                 cat [rng "0" "1"; Class is_digit];
                 Class is_digit]) (w ++ s') c s' c ->
  0 <= int_of w <= 23.
Proof.
  unfold alts, cat, chr, rng. cbn [fold_right]. intros H.
  remember (w ++ s') as s eqn:Es. shape; taken; digit_facts; subst.
  - rewrite int_of_two by (assumption || reflexivity). lia.
  - rewrite int_of_two by assumption. digit_bounds. lia.
  - rewrite int_of_one by assumption. digit_bounds. lia.
Qed.

Lemma minute_text w s' c :
  Matches (alts [cat [rng "0" "5"; Class is_digit]; Class is_digit])
          (w ++ s') c s' c ->
  0 <= int_of w <= 59.
Proof.
  unfold alts, cat, chr, rng. cbn [fold_right]. intros H.
  remember (w ++ s') as s eqn:Es. shape; taken; digit_facts; subst.
  - rewrite int_of_two by assumption. digit_bounds. lia.
  - rewrite int_of_one by assumption. digit_bounds. lia.
Qed.

Lemma timed_other g w c :
  g <> gH -> g <> gM -> timed c -> timed (<[g := w]> c).
Proof.
  intros H1 H2 [A B]. split; intros x Hx.
  - rewrite lookup_insert_ne in Hx by exact H1. now apply A.
  - rewrite lookup_insert_ne in Hx by exact H2. now apply B.
Qed.

(** Reading a directive keeps the hour and the minute an hour and a
    minute. *)
Lemma item_timed i s c s' c' :
  Matches (item_regex i) s c s' c' -> timed c -> timed c'.
Proof.
  destruct i; cbn [item_regex]; intros H Ht.
  - apply Matches_group_plain in H as (w & -> & -> & _); [|reflexivity].
    apply timed_other; [discriminate|discriminate|exact Ht].
  - apply Matches_group_plain in H as (w & -> & -> & _); [|reflexivity].
    apply timed_other; [discriminate|discriminate|exact Ht].
  - apply Matches_group_plain in H as (w & -> & -> & _); [|reflexivity].
    apply timed_other; [discriminate|discriminate|exact Ht].
  - apply Matches_group_plain in H as (w & -> & -> & H); [|reflexivity].
    apply hour_text in H. destruct Ht as [A B]. split; intros x Hx.
    + rewrite lookup_insert_eq in Hx. injection Hx as <-. exact H.
    + rewrite lookup_insert_ne in Hx by discriminate. now apply B.
  - apply Matches_group_plain in H as (w & -> & -> & H); [|reflexivity].
    apply minute_text in H. destruct Ht as [A B]. split; intros x Hx.
    + rewrite lookup_insert_ne in Hx by discriminate. now apply A.
    + rewrite lookup_insert_eq in Hx. injection Hx as <-. exact H.
  - apply Matches_group_plain in H as (w & -> & -> & _); [|reflexivity].
    apply timed_other; [discriminate|discriminate|exact Ht].
  - apply Matches_plain in H as ->; [exact Ht|reflexivity].
  - apply Matches_plain in H as ->; [exact Ht|reflexivity].
Qed.

Lemma format_timed f : forall s c s' c',
  Matches (format_regex f) s c s' c' -> timed c -> timed c'.
Proof.
  unfold format_regex. induction f as [|i f IH]; intros s c s' c';
    cbn [map cat fold_right].
  - intros H. apply Matches_eps in H as [_ ->]. auto.
  - intros H Ht. apply Matches_cat in H as (s1 & c1 & H1 & H2).
    apply (IH _ _ _ _ H2). now apply (item_timed i s c s1 c1).
Qed.

(** What [strptime] returns is a date and a time of day, whatever the
    format. *)
Lemma strptime_valid s f dt : strptime s f = Ok dt -> valid_datetime dt.
Proof.
  unfold strptime, re_match_rest.
  destruct (rmatch (format_regex f) s ∅ (fun s' c => Some (c, s')))
    as [[m rest]|] eqn:E; [|discriminate].
  destruct rest; [|discriminate].
  destruct (valid_date _ _ _) eqn:V; [|discriminate].
  intros [= <-].
  apply rmatch_sound in E as (s' & c' & M & [= -> ->]).
  apply format_timed in M.
  2:{ split; intros w Hw; rewrite lookup_empty in Hw; discriminate. }
  destruct M as [A B].
  split; [exact V|]. cbn [hour minute]. unfold field, group.
  split.
  - destruct (m !! gH) as [w|] eqn:Ew; [now apply A|lia].
  - destruct (m !! gM) as [w|] eqn:Ew; [now apply B|lia].
Qed.

(** A format with [%Y] reads only texts that hold four digits in a
    row. *)
Lemma has_run4_after w l : has_run4 l = true -> has_run4 (w ++ l) = true.
Proof.
  induction w as [|a w IH]; cbn [app has_run4]; intros H; [exact H|].
  rewrite (IH H). apply orb_true_r.
Qed.

Lemma four_digits_after w s :
  four_digits_in s = true -> four_digits_in (w ++ s) = true.
Proof. unfold four_digits_in. rewrite map_app. apply has_run4_after. Qed.

Lemma year_item_digits s c s' c' :
  Matches (item_regex FY) s c s' c' -> four_digits_in s = true.
Proof.
  cbn [item_regex cat fold_right]. intros H. shape.
  unfold four_digits_in. cbn [map has_run4 front_run].
  repeat match goal with
         | H : is_digit _ = true |- _ => rewrite H; clear H
         end.
  reflexivity.
Qed.

Lemma format_year_digits f :
  In FY f -> forall s c s' c',
  Matches (format_regex f) s c s' c' -> four_digits_in s = true.
Proof.
  unfold format_regex. induction f as [|i f IH]; intros Hin s c s' c' M;
    [destruct Hin|].
  cbn [map cat fold_right] in M.
  apply Matches_cat in M as (s1 & c1 & M1 & M2).
  destruct Hin as [->|Hin].
  - now apply (year_item_digits s c s1 c1).
  - destruct (Matches_prefix _ _ _ _ _ M1) as [w ->].
    apply four_digits_after. now apply (IH Hin s1 c1 s' c').
Qed.

Lemma strptime_year_digits s f dt :
  strptime s f = Ok dt -> In FY f -> four_digits_in s = true.
Proof.
  unfold strptime, re_match_rest.
  destruct (rmatch (format_regex f) s ∅ (fun s' c => Some (c, s')))
    as [[m rest]|] eqn:E; [|discriminate].
  intros _ Hin. apply rmatch_sound in E as (s' & c' & M & _).
  now apply (format_year_digits f Hin s ∅ s' c').
Qed.

Lemma month_text_letters m :
  1 <= m <= 12 ->
  exists a b c, month_text m = [a; b; c]
    /\ is_digit a = false /\ is_digit b = false /\ is_digit c = false.
Proof.
  intros Hm. pose proof (below_listed 13 m ltac:(lia)) as Hin.
  in_cases Hin; try lia; eexists _, _, _; repeat split.
Qed.

(** The display text of a year below 1000 holds no four digits in a
    row. *)
Lemma early_display_digits dt :
  valid_datetime dt -> year dt < 1000 ->
  four_digits_in (strftime dt fmt_display) = false.
Proof.
  intros (Hv & Hh & Hm) Hy. apply valid_date_bounds in Hv as (Hy1 & Hmo & Hd).
  unfold strftime, fmt_display.
  cbn [map concat strftime_item]. fold (month_text (month dt)).
  destruct (month_text_letters _ Hmo) as (a & b & c & -> & Ha & Hb & Hc).
  destruct (padded_two (day dt) ltac:(lia)) as (d1 & d2 & -> & Hd1 & Hd2 & _).
  destruct (padded_two (hour dt) ltac:(lia)) as (h1 & h2 & -> & Hh1 & Hh2 & _).
  destruct (padded_two (minute dt) ltac:(lia)) as (n1 & n2 & -> & Hn1 & Hn2 & _).
  pose proof short_years as S. rewrite forallb_forall in S.
  specialize (S (year dt) (below_listed 1000 (year dt) ltac:(lia))).
  apply andb_prop in S as [S1 S2]. apply Nat.leb_le in S2.
  unfold four_digits_in.
  destruct (decimal (year dt)) as [|y1 [|y2 [|y3 [|y4 ys]]]];
    cbn [length] in S2; try lia; cbn [forallb] in S1;
    repeat (apply andb_prop in S1 as [? S1]);
    cbn [app map txt list_ascii_of_string];
    repeat match goal with
           | H : is_digit ?x = _ |- _ => rewrite H; clear H
           end;
    reflexivity.
Qed.

Lemma early_display_unread dt f :
  valid_datetime dt -> year dt < 1000 -> In FY f ->
  strptime (strftime dt fmt_display) f = Raise ValueError.
Proof.
  intros Hdt Hy Hin.
  destruct (strptime (strftime dt fmt_display) f) as [dt'|e] eqn:E.
  - pose proof (strptime_year_digits _ _ _ E Hin) as D.
    rewrite (early_display_digits dt Hdt Hy) in D. discriminate D.
  - now rewrite (strptime_raises _ _ _ E).
Qed.

Lemma early_display_no_date dt :
  valid_datetime dt -> year dt < 1000 ->
  Span.parse_reported_date (strftime dt fmt_display) = Ok None.
Proof.
  intros Hdt Hy. unfold Span.parse_reported_date. cbn [Span.parse_with].
  rewrite (display_text_clean dt Hdt).
  rewrite (early_display_unread dt fmt_display Hdt Hy)
    by (unfold fmt_display; cbn; tauto).
  rewrite (early_display_unread dt fmt_display_date Hdt Hy)
    by (unfold fmt_display_date; cbn; tauto).
  reflexivity.
Qed.

End DateValidity.

Section SourceDates.
Import Text Regex Dates Api ApiSpec DatesSpec StampSpec.
Local Open Scope Z_scope.

(** The texts of the specification are those [strftime] writes. *)
Lemma two_digits_padded z : 0 <= z <= 99 -> two_digits z = padded 2 z.
Proof.
  intros Hz.
  assert (H : forallb (fun n => bool_decide (two_digits n = padded 2 n))
                (below 100) = true) by (vm_compute; reflexivity).
  rewrite forallb_forall in H.
  specialize (H z (below_listed 100 z ltac:(lia))).
  now apply bool_decide_eq_true in H.
Qed.

Lemma four_digits_padded z :
  0 <= z <= 9999 ->
  four_digits z = padded 4 z
  /\ (1 <= z -> plain_digits z = decimal z).
Proof.
  intros Hz.
  assert (H : forallb (fun n => bool_decide (four_digits n = padded 4 n)
                         && ((n <? 1) || bool_decide (plain_digits n = decimal n)))
                (below 10000) = true) by (vm_compute; reflexivity).
  rewrite forallb_forall in H.
  specialize (H z (below_listed 10000 z ltac:(lia))).
  apply andb_prop in H as [H1 H2]. apply bool_decide_eq_true in H1.
  split; [exact H1|]. intros Hz1.
  apply orb_prop in H2 as [H2|H2]; [lia|].
  now apply bool_decide_eq_true in H2.
Qed.

Lemma month_word_text m : 1 <= m <= 12 -> month_word m = month_text m.
Proof.
  intros Hm. pose proof (below_listed 13 m ltac:(lia)) as Hin.
  in_cases Hin; try lia; reflexivity.
Qed.

(** What [strftime] writes in the display format. *)
Lemma strftime_display_text dt :
  valid_datetime dt -> strftime dt fmt_display = display_text dt.
Proof.
  intros (Hv & Hh & Hm). apply valid_date_bounds in Hv as (Hy & Hmo & Hd).
  unfold strftime, fmt_display, display_text.
  cbn [map concat strftime_item]. fold (month_text (month dt)).
  rewrite (month_word_text _ Hmo).
  rewrite !two_digits_padded by lia.
  rewrite (proj2 (four_digits_padded (year dt) ltac:(lia))) by lia.
  rewrite app_nil_r. reflexivity.
Qed.

Lemma reads_month_number {A} m rest c (k : str -> caps -> option A) v :
  1 <= m <= 12 ->
  k rest (<[gm := padded 2 m]> c) = Some v ->
  rmatch (item_regex Fm) (padded 2 m ++ rest) c k = Some v.
Proof.
  intros Hm. pose proof (below_listed 13 m ltac:(lia)) as Hin.
  in_cases Hin; try lia.
  all: intros H; read_two; finish_with H.
Qed.

(** The date format reads the date of a source text, whatever
    follows. *)
Lemma source_day_match {A} dt rest (k : str -> caps -> option A) v :
  valid_datetime dt ->
  k rest (source_day_groups dt) = Some v ->
  rmatch (cat (map item_regex fmt_iso_date))
    (padded 4 (year dt) ++ "-"%char :: padded 2 (month dt)
     ++ "-"%char :: padded 2 (day dt) ++ rest) ∅
    (fun s c => k s c) = Some v.
Proof.
  intros (Hv & Hh & Hm) Hk.
  apply valid_date_bounds in Hv as (Hy & Hmo & Hd).
  unfold fmt_iso_date. cbn [map cat fold_right].
  rewrite rmatch_cat. apply reads_year; [lia|].
  rewrite rmatch_cat, reads_lit by reflexivity.
  rewrite rmatch_cat. apply reads_month_number; [exact Hmo|].
  rewrite rmatch_cat, reads_lit by reflexivity.
  rewrite rmatch_cat. apply reads_day; [exact Hd|].
  rewrite rmatch_eps. exact Hk.
Qed.


Lemma source_match dt :
  valid_datetime dt ->
  re_match_rest (format_regex fmt_iso_minutes)
    (padded 4 (year dt) ++ "-"%char :: padded 2 (month dt)
     ++ "-"%char :: padded 2 (day dt)
     ++ " "%char :: padded 2 (hour dt) ++ ":"%char :: padded 2 (minute dt))
  = Some (source_groups dt, []).
Proof.
  intros (Hv & Hh & Hm).
  apply valid_date_bounds in Hv as (Hy & Hmo & Hd).
  unfold re_match_rest, format_regex, fmt_iso_minutes, source_groups,
    source_day_groups.
  cbn [map cat fold_right].
  rewrite rmatch_cat. apply reads_year; [lia|].
  rewrite rmatch_cat, reads_lit by reflexivity.
  rewrite rmatch_cat. apply reads_month_number; [exact Hmo|].
  rewrite rmatch_cat, reads_lit by reflexivity.
  rewrite rmatch_cat. apply reads_day; [exact Hd|].
  rewrite rmatch_cat, reads_blank by (apply padded_two_head; lia).
  rewrite rmatch_cat. apply reads_hour; [exact Hh|].
  rewrite rmatch_cat, reads_lit by reflexivity.
  rewrite rmatch_cat.
  rewrite <- (app_nil_r (padded 2 (minute dt))) at 1.
  apply reads_minute; [exact Hm|].
  reflexivity.
Qed.

Lemma source_day_text_padded dt :
  valid_datetime dt ->
  source_day_text dt
  = padded 4 (year dt) ++ "-"%char :: padded 2 (month dt)
    ++ "-"%char :: padded 2 (day dt).
Proof.
  intros (Hv & Hh & Hm).
  apply valid_date_bounds in Hv as (Hy & Hmo & Hd).
  unfold source_day_text.
  rewrite !two_digits_padded by lia.
  rewrite (proj1 (four_digits_padded (year dt) ltac:(lia))).
  reflexivity.
Qed.

Lemma source_text_padded dt :
  valid_datetime dt ->
  source_text dt
  = padded 4 (year dt) ++ "-"%char :: padded 2 (month dt)
    ++ "-"%char :: padded 2 (day dt)
    ++ " "%char :: padded 2 (hour dt) ++ ":"%char :: padded 2 (minute dt).
Proof.
  intros Hdt. unfold source_text. rewrite (source_day_text_padded dt Hdt).
  destruct Hdt as (Hv & Hh & Hm).
  rewrite !two_digits_padded by lia.
  rewrite <- !app_assoc. cbn [app]. rewrite <- !app_assoc. reflexivity.
Qed.

Ltac find_group :=
  unfold StampSpec.source_groups, StampSpec.source_day_groups,
    Dates.gY, Dates.gm, Dates.gd, Dates.gH, Dates.gM, Dates.gb;
  repeat first
    [ rewrite lookup_insert_eq; reflexivity
    | rewrite lookup_insert_ne by done
    | apply lookup_empty ].

Lemma source_day_groups_fields dt :
  source_day_groups dt !! gY = Some (padded 4 (year dt))
  /\ source_day_groups dt !! gm = Some (padded 2 (month dt))
  /\ source_day_groups dt !! gd = Some (padded 2 (day dt))
  /\ source_day_groups dt !! gb = None
  /\ source_day_groups dt !! gH = None
  /\ source_day_groups dt !! gM = None.
Proof. repeat split; find_group. Qed.

Lemma source_groups_fields dt :
  source_groups dt !! gY = Some (padded 4 (year dt))
  /\ source_groups dt !! gm = Some (padded 2 (month dt))
  /\ source_groups dt !! gd = Some (padded 2 (day dt))
  /\ source_groups dt !! gb = None
  /\ source_groups dt !! gH = Some (padded 2 (hour dt))
  /\ source_groups dt !! gM = Some (padded 2 (minute dt)).
Proof. repeat split; find_group. Qed.

(** [strptime] reads the source text of a date and time in the first
    format. *)
Lemma strptime_source dt :
  valid_datetime dt -> strptime (source_text dt) fmt_iso_minutes = Ok dt.
Proof.
  intros Hdt. unfold strptime.
  rewrite (source_text_padded dt Hdt), (source_match dt Hdt).
  destruct Hdt as (Hv & Hh & Hm).
  pose proof (valid_date_bounds _ _ _ Hv) as (Hy & Hmo & Hd).
  destruct (source_groups_fields dt) as (EY & Em & Ed & Eb & EH & EM).
  unfold field, group. rewrite EY, Em, Ed, Eb, EH, EM.
  destruct (padded_two (month dt) ltac:(lia)) as (? & ? & _ & _ & _ & ->).
  destruct (padded_two (day dt) ltac:(lia)) as (? & ? & _ & _ & _ & ->).
  destruct (padded_two (hour dt) ltac:(lia)) as (? & ? & _ & _ & _ & ->).
  destruct (padded_two (minute dt) ltac:(lia)) as (? & ? & _ & _ & _ & ->).
  destruct (padded_four (year dt) ltac:(lia))
    as (? & ? & ? & ? & _ & _ & _ & _ & _ & ->).
  rewrite Hv. now destruct dt.
Qed.

(** It reads the source text of a date in the second format, the time
    being 00:00. *)
Lemma strptime_source_day dt :
  valid_datetime dt ->
  strptime (source_day_text dt) fmt_iso_date = Ok (midnight dt).
Proof.
  intros Hdt. unfold strptime, re_match_rest, format_regex.
  rewrite (source_day_text_padded dt Hdt).
  rewrite <- (app_nil_r (padded 2 (day dt))) at 1.
  rewrite (source_day_match dt [] (fun s c => Some (c, s))
             (source_day_groups dt, []) Hdt eq_refl).
  destruct Hdt as (Hv & Hh & Hm).
  pose proof (valid_date_bounds _ _ _ Hv) as (Hy & Hmo & Hd).
  destruct (source_day_groups_fields dt) as (EY & Em & Ed & Eb & EH & EM).
  unfold field, group. rewrite EY, Em, Ed, Eb, EH, EM.
  destruct (padded_two (month dt) ltac:(lia)) as (? & ? & _ & _ & _ & ->).
  destruct (padded_two (day dt) ltac:(lia)) as (? & ? & _ & _ & _ & ->).
  destruct (padded_four (year dt) ltac:(lia))
    as (? & ? & ? & ? & _ & _ & _ & _ & _ & ->).
  rewrite Hv. reflexivity.
Qed.

(** A format with a blank reads only texts that hold white space. *)
Lemma blank_item_space s c s' c' :
  Matches (item_regex Blank) s c s' c' -> existsb is_space s = true.
Proof.
  cbn [item_regex]. unfold Plus. intros H. shape.
  cbn [app existsb].
  match goal with H : is_space _ = true |- _ => now rewrite H end.
Qed.

Lemma format_blank_space f :
  In Blank f -> forall s c s' c',
  Matches (format_regex f) s c s' c' -> existsb is_space s = true.
Proof.
  unfold format_regex. induction f as [|i f IH]; intros Hin s c s' c' M;
    [destruct Hin|].
  cbn [map cat fold_right] in M.
  apply Matches_cat in M as (s1 & c1 & M1 & M2).
  destruct Hin as [->|Hin].
  - now apply (blank_item_space s c s1 c1).
  - destruct (Matches_prefix _ _ _ _ _ M1) as [w ->].
    rewrite existsb_app. rewrite (IH Hin s1 c1 s' c' M2).
    apply orb_true_r.
Qed.

(** The source text of a date holds no white space, so the first
    format refuses it. *)
Lemma source_day_unread dt :
  valid_datetime dt ->
  strptime (source_day_text dt) fmt_iso_minutes = Raise ValueError.
Proof.
  intros Hdt.
  destruct (strptime (source_day_text dt) fmt_iso_minutes) as [dt'|e] eqn:E;
    [|now rewrite (strptime_raises _ _ _ E)].
  exfalso. revert E. unfold strptime, re_match_rest.
  destruct (rmatch (format_regex fmt_iso_minutes) (source_day_text dt) ∅
              (fun s' c => Some (c, s'))) as [[m rest]|] eqn:R;
    [|discriminate].
  intros _. apply rmatch_sound in R as (s' & c' & M & _).
  apply format_blank_space in M; [|unfold fmt_iso_minutes; cbn; tauto].
  rewrite (source_day_text_padded dt Hdt) in M. revert M.
  destruct Hdt as (Hv & Hh & Hm).
  pose proof (valid_date_bounds _ _ _ Hv) as (Hy & Hmo & Hd).
  destruct (padded_two (month dt) ltac:(lia)) as (m1 & m2 & -> & D1 & D2 & _).
  destruct (padded_two (day dt) ltac:(lia)) as (d1 & d2 & -> & D3 & D4 & _).
  destruct (padded_four (year dt) ltac:(lia))
    as (y1 & y2 & y3 & y4 & -> & D5 & D6 & D7 & D8 & _).
  cbn [app existsb].
  repeat match goal with
         | H : is_digit ?x = true |- _ =>
             rewrite (digit_not_space x H); clear H
         end.
  intros M. vm_compute in M. discriminate M.
Qed.

Lemma midnight_valid dt : valid_datetime dt -> valid_datetime (midnight dt).
Proof. intros (Hv & _ & _). split; [exact Hv|]. cbn. lia. Qed.

(** C8.  For every source date text the adapter returns, never raising.
    The date-and-time format [%Y-%m-%d %H:%M] is tried first and the
    date format [%Y-%m-%d] second; the first that parses gives the date
    and time, which is stored in the display format as
    [Mon DD, YYYY HH:MM] (English month abbreviation, day, hour and
    minute in two places, the year as the C library writes it); when
    neither format parses, the stored text is empty.  So the source
    text [YYYY-MM-DD HH:MM] of a date and time is stored as that date
    and time, and the source text [YYYY-MM-DD] of a date as that date
    at 00:00: [2026-02-05 15:08] becomes [Feb 05, 2026 15:08],
    [2026-02-05] becomes [Feb 05, 2026 00:00], and [2026-02-30],
    [yesterday] and the empty text become the empty text. *)
Theorem reformat_date_never_raises (s : str) :
  reformat_date s = Ok (display_date s)
  /\ (forall dt, strptime s fmt_iso_minutes = Ok dt ->
        reformat_date s = Ok (display_text dt))
  /\ (forall dt, strptime s fmt_iso_minutes = Raise ValueError ->
        strptime s fmt_iso_date = Ok dt ->
        reformat_date s = Ok (display_text dt))
  /\ (strptime s fmt_iso_minutes = Raise ValueError ->
      strptime s fmt_iso_date = Raise ValueError ->
      reformat_date s = Ok [])
  /\ (forall dt, valid_datetime dt ->
        reformat_date (source_text dt) = Ok (display_text dt)
        /\ reformat_date (source_day_text dt)
           = Ok (display_text (midnight dt)))
  /\ reformat_date (txt "2026-02-05 15:08") = Ok (txt "Feb 05, 2026 15:08")
  /\ reformat_date (txt "2026-02-05") = Ok (txt "Feb 05, 2026 00:00")
  /\ reformat_date (txt "0999-01-02") = Ok (txt "Jan 02, 999 00:00")
  /\ reformat_date (txt "2026-02-30") = Ok []
  /\ reformat_date (txt "yesterday") = Ok []
  /\ reformat_date [] = Ok [].
Proof.
  assert (Hfirst : forall t dt, strptime t fmt_iso_minutes = Ok dt ->
            reformat_date t = Ok (display_text dt)).
  { intros t dt E. pose proof (strptime_valid _ _ _ E) as V.
    unfold reformat_date. destruct t as [|a t]; [vm_compute in E; discriminate E|].
    cbn [try_formats]. rewrite E. now rewrite strftime_display_text. }
  assert (Hsecond : forall t dt,
            strptime t fmt_iso_minutes = Raise ValueError ->
            strptime t fmt_iso_date = Ok dt ->
            reformat_date t = Ok (display_text dt)).
  { intros t dt E1 E2. pose proof (strptime_valid _ _ _ E2) as V.
    unfold reformat_date. destruct t as [|a t]; [vm_compute in E2; discriminate E2|].
    cbn [try_formats]. rewrite E1, E2. now rewrite strftime_display_text. }
  split.
  { unfold reformat_date. destruct s as [|a s]; [reflexivity|].
    apply try_formats_two. }
  split; [apply Hfirst|]. split; [apply Hsecond|].
  split.
  { intros E1 E2. unfold reformat_date. destruct s as [|a s]; [reflexivity|].
    cbn [try_formats]. now rewrite E1, E2. }
  split.
  { intros dt Hdt. split.
    - apply Hfirst. now apply strptime_source.
    - apply Hsecond; [now apply source_day_unread|].
      now apply strptime_source_day. }
  repeat split; vm_compute; reflexivity.
Qed.

Lemma reformat_date_never_raises_witness :
  source_text owl_time = txt "2026-02-05 15:08"
  /\ display_text owl_time = txt "Feb 05, 2026 15:08"
  /\ reformat_date (source_text owl_time) = Ok (display_text owl_time).
Proof.
  split; [reflexivity|]. split; [reflexivity|].
  assert (H : valid_datetime owl_time).
  { split; [vm_compute; reflexivity|]. cbn. lia. }
  exact (proj1 (proj1 (proj2 (proj2 (proj2 (proj2
           (reformat_date_never_raises (txt "2026-02-05 15:08"))))))
           owl_time H)).
Defined.

End SourceDates.

(** * Further properties of the code *)

Section ExtractInvariants.
Import Text Regex Extract ExtractSpec ExtractInv.

Lemma field_line_shape out r line st :
  field_line out r line = Ok st ->
  exists r', st = (out, Some r') /\ ident r' = ident r /\
    (paired (Some r) -> paired (Some r')).
Proof.
  unfold field_line.
  destruct (startswith (txt "- Reported ") line).
  { destruct (re_match reported_re line); intros [= <-]; eauto. }
  destruct (startswith (txt "- Map:") line).
  { destruct (re_search coords_re line) as [m|]; [|intros [= <-]; eauto].
    destruct (float_of_group m 1) as [la|]; [|discriminate].
    destruct (float_of_group m 2) as [lo|]; [|discriminate].
    cbn. intros [= <-]. eexists. split; [reflexivity|]. split; [reflexivity|].
    intros _. cbn. split; discriminate. }
  destruct (startswith (txt "- Checklist:") line); [intros [= <-]; eauto|].
  destruct (startswith (txt "- Comments:") line); [intros [= <-]; eauto|].
  match goal with |- context [if ?b then _ else _] => destruct b end;
    [|intros [= <-]; eauto].
  match goal with |- context [if ?b then _ else _] => destruct b end;
    intros [= <-]; eauto.
Qed.

Lemma flush_located out cur :
  Forall located out -> paired cur -> Forall located (flush out cur).
Proof.
  intros Ho Hp. unfold flush, lat_truthy.
  destruct cur as [r|]; [|exact Ho].
  destruct (lat r) as [la|] eqn:Ela; [|exact Ho].
  destruct (Float.truthy la) eqn:Et; [|exact Ho].
  apply Forall_app. split; [exact Ho|]. apply List.Forall_cons; [|constructor].
  cbn in Hp. destruct (lon r) as [lo|] eqn:Elo.
  - exists la, lo. auto.
  - destruct Hp as [_ Hp]. specialize (Hp eq_refl). congruence.
Qed.

Lemma flush_idents out cur :
  map ident (flush out cur) `sublist_of`
  map ident out ++ match cur with Some r => [ident r] | None => [] end.
Proof.
  unfold flush. destruct cur as [r|]; [|now rewrite app_nil_r].
  destruct (lat_truthy (Some r)).
  - now rewrite map_app.
  - apply sublist_inserts_r. reflexivity.
Qed.

(** What the loop keeps true: the records put out have coordinates,
    the accumulator has both or none, and the records put out followed
    by the accumulator come from the headers read, in their order. *)
Definition inv (seen : list (str * str * str * bool)) (st : state) : Prop :=
  Forall located (fst st) /\ paired (snd st) /\
  map ident (fst st) ++ match snd st with Some r => [ident r] | None => [] end
  `sublist_of` seen.

Lemma process_line_inv seen st raw st' :
  inv seen st -> process_line st raw = Ok st' ->
  inv (seen ++ match header_of raw with Some h => [h] | None => [] end) st'.
Proof.
  intros (Ho & Hp & Hs). unfold process_line, header_of.
  destruct (re_match header_re (strip raw)) as [m|].
  - intros [= <-]. cbn [fst snd]. split; [now apply flush_located|].
    split; [cbn; tauto|].
    apply sublist_app; [|reflexivity].
    etransitivity; [apply flush_idents|exact Hs].
  - rewrite app_nil_r. destruct st as [out [r|]]; cbn [fst snd] in *.
    + intros H. apply field_line_shape in H as (r' & -> & Hi & Hp').
      unfold inv. cbn [fst snd]. rewrite Hi. auto.
    + intros [= <-]. unfold inv. cbn [fst snd]. auto.
Qed.

Lemma run_lines_inv lines : forall seen st st',
  inv seen st -> run_lines st lines = Ok st' ->
  inv (seen ++ headers lines) st'.
Proof.
  induction lines as [|l lines IH]; intros seen st st' Hi; cbn [run_lines].
  - intros [= <-]. unfold headers. cbn. now rewrite app_nil_r.
  - destruct (process_line st l) as [st1|] eqn:E; [|discriminate].
    cbn [mbind result_bind]. intros H.
    apply (process_line_inv seen) in E; [|exact Hi].
    apply (IH _ _ _ E) in H. unfold headers in *. cbn [omap list_omap].
    destruct (header_of l) as [h|].
    + rewrite <- app_assoc in H. exact H.
    + rewrite app_nil_r in H. exact H.
Qed.

Lemma parse_sightings_inv body :
  exists records,
    parse_sightings body = Ok records /\
    Forall located records /\
    map ident records `sublist_of` headers (splitlines body).
Proof.
  unfold parse_sightings.
  destruct (run_lines_returns (splitlines body) ([], None)) as [st E].
  rewrite E. cbn [mbind result_bind]. eexists. split; [reflexivity|].
  apply (run_lines_inv _ []) in E; [|repeat split; cbn; auto; constructor].
  destruct E as (Ho & Hp & Hs). split; [now apply flush_located|].
  etransitivity; [apply flush_idents|exact Hs].
Qed.

(** X1.  Every record the text extractor returns has a latitude and a
    longitude, and its latitude is not zero: a record is put out only
    after a map line gave it both coordinates. *)
Theorem parse_sightings_records_located (body : str) :
  exists records,
    parse_sightings body = Ok records /\
    Forall (fun r => exists la lo,
              lat r = Some la /\ lon r = Some lo /\
              Float.truthy la = true) records.
Proof.
  destruct (parse_sightings_inv body) as (records & E & Hl & _).
  exists records. split; [exact E|]. exact Hl.
Qed.

(** X2.  The records come from the header lines: their species,
    scientific names, counts and confirmed flags are those of header
    lines of the text, in the order of the text and each header used
    at most once.  So there are no more records than header lines, and
    a text without a header line gives none. *)
Theorem parse_sightings_from_headers (body : str) :
  exists records,
    parse_sightings body = Ok records /\
    map ident records `sublist_of` headers (splitlines body) /\
    (length records <= length (headers (splitlines body)))%nat /\
    (headers (splitlines body) = [] -> records = []).
Proof.
  destruct (parse_sightings_inv body) as (records & E & _ & Hs).
  exists records. split; [exact E|]. split; [exact Hs|].
  apply sublist_length in Hs as Hlen. rewrite length_map in Hlen.
  split; [exact Hlen|].
  intros H0. rewrite H0 in Hlen. destruct records; [reflexivity|cbn in Hlen; lia].
Qed.

End ExtractInvariants.


Section AdapterFacts.
Import Text Dates Api ApiSpec ApiInv.

Variable py_str : json -> str.
Variable py_float_of : json -> result Float.float.

Lemma obs_record_skips o :
  has_coords o = false -> obs_record py_str py_float_of o = Ok None.
Proof.
  unfold has_coords, obs_record. intros H. apply negb_false_iff in H.
  now rewrite H.
Qed.

Lemma obs_record_keeps o x :
  has_coords o = true -> obs_record py_str py_float_of o = Ok x ->
  exists r, x = Some r /\ lat r <> None /\ lon r <> None.
Proof.
  unfold has_coords, obs_record. intros H. apply negb_true_iff in H.
  rewrite H.
  destruct (obs_date o); [|discriminate]. cbn [mbind result_bind].
  destruct (py_float_of (get o "lat" JNull)); [|discriminate].
  cbn [mbind result_bind].
  destruct (py_float_of (get o "lng" JNull)); [|discriminate].
  cbn [mbind result_bind]. intros [= <-]. eexists. split; [reflexivity|].
  split; discriminate.
Qed.

(** X3.  The API extractor skips the observations that lack a
    coordinate ([lat] or [lng] missing or [null]) and makes one record
    of each of the others, in the order of the response; every record
    has both coordinates. *)
Theorem obs_records_skips_unlocated (data : list obs) (rs : list sighting) :
  obs_records py_str py_float_of data = Ok rs ->
  Forall2 (fun o r => obs_record py_str py_float_of o = Ok (Some r))
          (List.filter has_coords data) rs
  /\ Forall (fun r => lat r <> None /\ lon r <> None) rs
  /\ length rs = length (List.filter has_coords data).
Proof.
  intros H.
  assert (F : Forall2 (fun o r => obs_record py_str py_float_of o = Ok (Some r)
                                  /\ lat r <> None /\ lon r <> None)
                (List.filter has_coords data) rs).
  { revert rs H. induction data as [|o data IH]; intros rs; cbn [obs_records].
    - intros [= <-]. constructor.
    - destruct (obs_record py_str py_float_of o) as [x|] eqn:E; [|discriminate].
      cbn [mbind result_bind].
      destruct (obs_records py_str py_float_of data) as [rs'|]; [|discriminate].
      cbn [mbind result_bind]. intros [= <-]. cbn [List.filter].
      destruct (has_coords o) eqn:Hc.
      + destruct (obs_record_keeps o x Hc E) as (r & -> & Hla & Hlo).
        constructor; auto.
      + rewrite (obs_record_skips o Hc) in E. injection E as <-. auto. }
  split; [|split].
  - eapply Forall2_impl; [exact F|]. now intros o r [? _].
  - clear H. induction F as [|o r l1 l2 [_ H] _ IH]; constructor; auto.
  - symmetry. eapply Forall2_length; exact F.
Qed.

End AdapterFacts.

Section AdapterExamples.
Import Text Dates Api ApiSpec ApiInv.

Lemma obs_records_skips_unlocated_witness :
  exists rs,
    obs_records str_of float_of [no_lat; owl] = Ok rs /\
    length rs = length (List.filter has_coords [no_lat; owl]).
Proof.
  eexists. split; [vm_compute; reflexivity|].
  refine (proj2 (proj2 (obs_records_skips_unlocated
                          str_of float_of [no_lat; owl] _ _))).
  vm_compute. reflexivity.
Defined.

End AdapterExamples.

Section FilterEdges.
Import Text Dates Filter FilterSpec.
Local Open Scope Z_scope.

Lemma newest_date_dated l :
  newest_date l = Raise ValueError <-> Forall (fun e => send_date e = None) l.
Proof.
  unfold newest_date, send_dates. split.
  - destruct (Span.newest_of (omap send_date l)) eqn:E; [discriminate|].
    intros _. destruct (omap send_date l) as [|d ds] eqn:El; [|discriminate].
    clear E. induction l as [|e l IH]; [constructor|].
    cbn [omap list_omap] in El. destruct (send_date e) eqn:Ee; [discriminate|].
    constructor; auto.
  - intros H. replace (omap send_date l) with (@nil date); [reflexivity|].
    induction H as [|e l He _ IH]; [reflexivity|].
    cbn [omap list_omap]. now rewrite He.
Qed.

Lemma newest_date_raises l e : newest_date l = Raise e -> e = ValueError.
Proof.
  unfold newest_date. destruct (Span.newest_of (send_dates l)); [discriminate|].
  now intros [= <-].
Qed.

Lemma minus_days_inapplicable newest n :
  ~ applicable newest n -> minus_days newest (n - 1) = Raise OverflowError.
Proof.
  unfold applicable, minus_days. intros H.
  destruct (999999999 <? Z.abs (n - 1)) eqn:E1; [reflexivity|].
  destruct ((1 <=? newest - (n - 1)) && (newest - (n - 1) <=? max_ordinal))
    eqn:E2; [|reflexivity].
  exfalso. apply H. lia.
Qed.

(** The newest send date is the send date of an entry. *)
Lemma newest_date_attained l newest :
  newest_date l = Ok newest -> exists e, In e l /\ send_date e = Some newest.
Proof.
  unfold newest_date.
  destruct (Span.newest_of (send_dates l)) as [n|] eqn:E; [|discriminate].
  intros [= <-]. apply newest_of_spec in E as [E _].
  unfold send_dates in E. apply list_elem_of_In, list_elem_of_omap in E.
  destruct E as (e & He & Hd). exists e. split; [now apply list_elem_of_In|exact Hd].
Qed.

(** X4.  How the day-count filter fails.  When no email has a send
    date it raises [ValueError], with or without a day count.  When
    some email has one, it returns all emails without a day count; with
    a day count [n] it returns when [n - 1] fits a [timedelta] and the
    cutoff is a date, and raises [OverflowError] when not. *)
Theorem filter_by_days_failures (days : option Z) (parsed : list eml) :
  (filter_by_days days parsed = Raise ValueError
   <-> Forall (fun e => send_date e = None) parsed)
  /\ (forall newest, newest_date parsed = Ok newest ->
      filter_by_days None parsed = Ok parsed
      /\ forall n,
           (applicable newest n ->
            exists kept, filter_by_days (Some n) parsed = Ok kept)
           /\ (~ applicable newest n ->
               filter_by_days (Some n) parsed = Raise OverflowError)).
Proof.
  split.
  - rewrite <- newest_date_dated. unfold filter_by_days.
    destruct (newest_date parsed) as [newest|e] eqn:E; cbn [mbind result_bind].
    + split; [|discriminate]. destruct days as [n|]; [|discriminate].
      unfold minus_days.
      destruct (999999999 <? Z.abs (n - 1)); [discriminate|].
      destruct ((1 <=? newest - (n - 1)) && (newest - (n - 1) <=? max_ordinal));
        discriminate.
    + apply newest_date_raises in E as ->. split; reflexivity.
  - intros newest E. unfold filter_by_days. rewrite E. cbn [mbind result_bind].
    split; [reflexivity|]. intros n. split; intros H.
    + rewrite (minus_days_applicable _ _ H). cbn [mbind result_bind]. eauto.
    + now rewrite (minus_days_inapplicable _ _ H).
Qed.

Lemma filter_none {A} (f : A -> bool) (l : list A) :
  (forall x, In x l -> f x = false) -> List.filter f l = [].
Proof.
  induction l as [|a l IH]; intros H; [reflexivity|]. cbn [List.filter].
  rewrite (H a (or_introl eq_refl)). apply IH. intros x Hx. apply H. now right.
Qed.

Lemma sublist_filter {A} (f : A -> bool) (l : list A) :
  List.filter f l `sublist_of` l.
Proof.
  induction l as [|a l IH]; [constructor|]. cbn [List.filter].
  destruct (f a); [now apply sublist_skip|now apply sublist_cons].
Qed.

Lemma filter_by_days_applicable parsed newest n :
  newest_date parsed = Ok newest -> applicable newest n ->
  filter_by_days (Some n) parsed
  = Ok (List.filter (recent (newest - (n - 1))) parsed).
Proof.
  intros E H. unfold filter_by_days. rewrite E. cbn [mbind result_bind].
  now rewrite (minus_days_applicable _ _ H).
Qed.

(** X5.  With a day count of 1 or more the emails sent on the newest
    send date are kept, so some email is; with a day count of 0 or
    less no email is kept. *)
Theorem filter_by_days_keeps_newest
    (parsed : list eml) (newest : date) (n : Z) :
  newest_date parsed = Ok newest ->
  applicable newest n ->
  exists kept,
    filter_by_days (Some n) parsed = Ok kept /\
    (1 <= n ->
     kept <> [] /\
     forall e, In e parsed -> send_date e = Some newest -> In e kept) /\
    (n <= 0 -> kept = []).
Proof.
  intros E H. rewrite (filter_by_days_applicable _ _ _ E H).
  eexists. split; [reflexivity|]. split.
  - intros Hn.
    assert (K : forall e, In e parsed -> send_date e = Some newest ->
                In e (List.filter (recent (newest - (n - 1))) parsed)).
    { intros e He Hd. apply filter_In. split; [exact He|].
      unfold recent. rewrite Hd. lia. }
    split; [|exact K].
    destruct (newest_date_attained _ _ E) as (e & He & Hd).
    specialize (K e He Hd). intros H0. rewrite H0 in K. destruct K.
  - intros Hn. apply filter_none. intros e He. unfold recent.
    destruct (send_date e) as [d|] eqn:Hd; [|reflexivity].
    pose proof (newest_date_newest _ _ _ _ E He Hd). lia.
Qed.

(** X6.  A larger day count keeps what a smaller one keeps: the emails
    kept under [n] are those kept under [m] that pass the cutoff of
    [n], in the same order. *)
Theorem filter_by_days_monotone
    (parsed : list eml) (newest : date) (n m : Z) :
  newest_date parsed = Ok newest ->
  applicable newest n -> applicable newest m -> n <= m ->
  exists kn km,
    filter_by_days (Some n) parsed = Ok kn /\
    filter_by_days (Some m) parsed = Ok km /\
    kn = List.filter (recent (newest - (n - 1))) km /\
    (kn `sublist_of` km) /\ (km `sublist_of` parsed).
Proof.
  intros E Hn Hm Hle.
  rewrite (filter_by_days_applicable _ _ _ E Hn).
  rewrite (filter_by_days_applicable _ _ _ E Hm).
  eexists _, _. split; [reflexivity|]. split; [reflexivity|].
  assert (K : List.filter (recent (newest - (n - 1))) parsed
              = List.filter (recent (newest - (n - 1)))
                  (List.filter (recent (newest - (m - 1))) parsed)).
  { clear E. induction parsed as [|e l IH]; [reflexivity|].
    cbn [List.filter].
    destruct (recent (newest - (n - 1)) e) eqn:R1.
    - assert (R2 : recent (newest - (m - 1)) e = true).
      { unfold recent in *. destruct (send_date e); [lia|discriminate]. }
      rewrite R2. cbn [List.filter]. rewrite R1. now f_equal.
    - destruct (recent (newest - (m - 1)) e); [|exact IH].
      cbn [List.filter]. now rewrite R1. }
  split; [exact K|]. split.
  - rewrite K. apply sublist_filter.
  - apply sublist_filter.
Qed.

End FilterEdges.

Section FilterEdgeExamples.
Import Text Dates Filter FilterSpec.
Local Open Scope Z_scope.

Lemma filter_by_days_keeps_newest_witness :
  exists kept,
    filter_by_days (Some 3) ten_days = Ok kept /\
    (1 <= 3 ->
     kept <> [] /\
     forall e, In e ten_days -> send_date e = Some feb10 -> In e kept) /\
    (3 <= 0 -> kept = []).
Proof.
  assert (H1 : newest_date ten_days = Ok feb10) by (vm_compute; reflexivity).
  assert (H2 : applicable feb10 3)
    by (unfold applicable, max_ordinal, feb10; lia).
  exact (filter_by_days_keeps_newest ten_days feb10 3 H1 H2).
Defined.

Lemma filter_by_days_monotone_witness :
  exists kn km,
    filter_by_days (Some 3) ten_days = Ok kn /\
    filter_by_days (Some 7) ten_days = Ok km /\
    kn = List.filter (recent (feb10 - (3 - 1))) km /\
    (kn `sublist_of` km) /\ (km `sublist_of` ten_days).
Proof.
  assert (H1 : newest_date ten_days = Ok feb10) by (vm_compute; reflexivity).
  assert (H2 : applicable feb10 3)
    by (unfold applicable, max_ordinal, feb10; lia).
  assert (H3 : applicable feb10 7)
    by (unfold applicable, max_ordinal, feb10; lia).
  assert (H4 : 3 <= 7) by lia.
  exact (filter_by_days_monotone ten_days feb10 3 7 H1 H2 H3 H4).
Defined.

End FilterEdgeExamples.


Section GrouperInvariants.
Import Float Group GroupSpec GroupInv.
Context {A : Type}.
Variable lat lon : A -> option Float.float.

Lemma append_to_inv (g : @groups A) k s :
  Forall (fun p => snd p <> []) g -> distinct (map fst g) ->
  Forall (fun p => snd p <> []) (append_to g k s)
  /\ distinct (map fst (append_to g k s))
  /\ (length g <= length (append_to g k s))%nat
  /\ (1 <= length (append_to g k s) <= S (length g))%nat
  /\ (forall k', Forall (fun p => key_eqb k' (fst p) = false) g ->
        key_eqb k' k = false ->
        Forall (fun p => key_eqb k' (fst p) = false) (append_to g k s)).
Proof.
  induction g as [|[k0 l0] g IH]; intros Hne Hd; cbn [append_to].
  - split; [repeat constructor; discriminate|].
    split; [cbn; auto|]. split; [cbn; lia|]. split; [cbn; lia|].
    intros k' _ H. repeat constructor. exact H.
  - apply Forall_cons_iff in Hne as [Hne0 Hne]. cbn [map fst distinct] in Hd.
    destruct Hd as [Hd0 Hd].
    destruct (key_eqb k0 k) eqn:E.
    + split.
      { constructor; [|exact Hne]. cbn. intros H.
        now apply app_eq_nil in H as [_ H]. }
      split; [cbn [map fst distinct]; auto|].
      split; [cbn [length]; lia|]. split; [cbn [length]; lia|].
      intros k' H _. apply Forall_cons_iff in H as [H1 H2]. constructor; auto.
    + destruct (IH Hne Hd) as (I1 & I2 & I3 & I4 & I5).
      split; [constructor; auto|].
      split.
      { cbn [map fst distinct]. split; [|exact I2].
        apply Forall_map. apply I5; [|exact E]. now apply Forall_map in Hd0. }
      split; [cbn [length]; lia|]. split; [cbn [length]; lia|].
      intros k' H Hk. apply Forall_cons_iff in H as [H1 H2].
      constructor; auto.
Qed.

Lemma group_from_inv l : forall (g g' : @groups A),
  group_from lat lon g l = Ok g' ->
  Forall (fun p => snd p <> []) g -> distinct (map fst g) ->
  Forall (fun p => snd p <> []) g' /\ distinct (map fst g')
  /\ (length g <= length g' <= length g + length l)%nat
  /\ (l <> [] -> g' <> []).
Proof.
  induction l as [|s l IH]; intros g g'; cbn [group_from].
  - intros [= <-]. intros. repeat split; auto; cbn; try lia; try congruence.
  - destruct (key_of lat lon s) as [k|]; [|discriminate].
    cbn [mbind result_bind]. intros H Hne Hd.
    destruct (append_to_inv g k s Hne Hd) as (I1 & I2 & I3 & I4 & _).
    destruct (IH _ _ H I1 I2) as (J1 & J2 & J3 & _).
    split; [exact J1|]. split; [exact J2|]. split; [cbn [length]; lia|].
    intros _ ->. cbn [length] in J3. lia.
Qed.

(** X7.  Every group the grouper returns holds a record, no two groups
    have equal keys, and there are no more groups than records: the
    page never shows more locations than sightings, and the popup of a
    group always finds a first record. *)
Theorem group_sightings_groups_inhabited (l : list A) (g : @groups A) :
  group_sightings lat lon l = Ok g ->
  Forall (fun p => snd p <> []) g
  /\ distinct (map fst g)
  /\ (length g <= length l)%nat
  /\ (l <> [] -> g <> []).
Proof.
  intros H. unfold group_sightings in H.
  destruct (group_from_inv l [] g H) as (I1 & I2 & I3 & I4);
    [constructor|exact I|].
  cbn [length] in I3. repeat split; auto. lia.
Qed.

Lemma round_entry_raises x e :
  (forall f, x = Some f -> valid f = true) ->
  round_entry x = Raise e -> e = TypeError /\ x = None.
Proof.
  intros Hv. unfold round_entry. destruct x as [f|].
  - destruct (round5_returns f (Hv f eq_refl)) as (r & -> & _). discriminate.
  - now intros [= <-].
Qed.

Lemma key_of_raises s e :
  wellformed lat lon s ->
  key_of lat lon s = Raise e -> e = TypeError /\ unplaced lat lon s.
Proof.
  intros Hw. unfold key_of, unplaced.
  destruct (round_entry (lat s)) as [a|e1] eqn:E1; cbn [mbind result_bind].
  - destruct (round_entry (lon s)) as [b|e2] eqn:E2; cbn [mbind result_bind];
      [discriminate|].
    intros [= <-]. apply round_entry_raises in E2 as [-> ->]; [auto|].
    intros f Hf. apply Hw. now right.
  - intros [= <-]. apply round_entry_raises in E1 as [-> ->]; [auto|].
    intros f Hf. apply Hw. now left.
Qed.

Lemma key_of_placed s k :
  key_of lat lon s = Ok k -> ~ unplaced lat lon s.
Proof.
  unfold key_of, unplaced, round_entry.
  destruct (lat s); [|discriminate]. destruct (lon s).
  - intros _ [H|H]; discriminate.
  - destruct (round5 f); discriminate.
Qed.

Lemma group_from_raises l : forall (g : @groups A),
  Forall (wellformed lat lon) l ->
  match group_from lat lon g l with
  | Ok _ => Forall (fun s => ~ unplaced lat lon s) l
  | Raise e => e = TypeError /\ Exists (unplaced lat lon) l
  end.
Proof.
  induction l as [|s l IH]; intros g Hw; cbn [group_from]; [constructor|].
  apply Forall_cons_iff in Hw as [Hs Hw].
  destruct (key_of lat lon s) as [k|e] eqn:E; cbn [mbind result_bind].
  - specialize (IH (append_to g k s) Hw).
    destruct (group_from lat lon (append_to g k s) l).
    + constructor; [now apply (key_of_placed s k)|exact IH].
    + destruct IH as [-> IH]. split; [reflexivity|]. now apply Exists_cons_tl.
  - apply key_of_raises in E as [-> E]; [|exact Hs].
    split; [reflexivity|]. now apply Exists_cons_hd.
Qed.

(** X8.  The grouper fails exactly when a record lacks a coordinate,
    and then with [TypeError] (from [round(None, 5)]): whatever the
    binary64 values of the coordinates, infinities and NaN included,
    rounding them raises nothing. *)
Theorem group_sightings_raises_on_missing (l : list A) :
  Forall (wellformed lat lon) l ->
  (group_sightings lat lon l = Raise TypeError
   <-> Exists (unplaced lat lon) l)
  /\ (forall e, group_sightings lat lon l = Raise e -> e = TypeError)
  /\ ((exists g, group_sightings lat lon l = Ok g)
      <-> Forall (fun s => ~ unplaced lat lon s) l).
Proof.
  intros Hw. unfold group_sightings.
  pose proof (group_from_raises l [] Hw) as H.
  destruct (group_from lat lon [] l) as [g|e].
  - split; [split; [discriminate|]|split; [discriminate|]].
    + intros HE. apply List.Exists_exists in HE as (s & Hs & Hu).
      rewrite List.Forall_forall in H. now destruct (H s Hs).
    + split; [intros _; exact H|eauto].
  - destruct H as [-> HE]. split; [tauto|]. split; [now intros e [= <-]|].
    split; [intros [g Hg]; discriminate|].
    intros HF. apply List.Exists_exists in HE as (s & Hs & Hu).
    rewrite List.Forall_forall in HF. now destruct (HF s Hs).
Qed.

End GrouperInvariants.

Section GrouperInvariantExamples.
Import Float Group GroupSpec GroupInv.

Lemma group_sightings_groups_inhabited_witness :
  exists g,
    group_sightings fst snd [p_a; p_b; p_c] = Ok g /\
    (length g <= 3)%nat.
Proof.
  eexists. split; [vm_compute; reflexivity|].
  refine (proj1 (proj2 (proj2
            (group_sightings_groups_inhabited fst snd [p_a; p_b; p_c] _ _)))).
  vm_compute. reflexivity.
Defined.

Lemma group_sightings_raises_on_missing_witness :
  group_sightings fst snd [p_a; (None, snd p_b)] = Raise TypeError
  <-> Exists (unplaced fst snd) [p_a; (None, snd p_b)].
Proof.
  assert (Ha : wellformed fst snd p_a).
  { unfold wellformed, p_a, point. cbn [fst snd].
    intros f [H|H]; apply (inj Some) in H; subst f; vm_compute; reflexivity. }
  assert (Hb : wellformed fst snd (None, snd p_b)).
  { unfold wellformed, p_b, point. cbn [fst snd].
    intros f [H|H]; [discriminate H|]. apply (inj Some) in H. subst f.
    vm_compute; reflexivity. }
  assert (Hw : Forall (wellformed fst snd) [p_a; (None, snd p_b)]).
  { apply List.Forall_cons; [exact Ha|].
    apply List.Forall_cons; [exact Hb|apply List.Forall_nil]. }
  exact (proj1 (group_sightings_raises_on_missing fst snd
                  [p_a; (None, snd p_b)] Hw)).
Defined.

End GrouperInvariantExamples.

Section QuotientFacts.
Import Float.
Local Open Scope Z_scope.

(** What [round_units] returns is a binary64 magnitude, when it is
    finite. *)
Lemma round_units_representable n d :
  0 <= n -> 0 < d -> round_units n d < overflow_units ->
  representable (round_units n d) = true.
Proof.
  intros Hn Hd Hov. unfold representable.
  destruct (Z_lt_le_dec (n / d) (2 ^ 53)) as [Hq|Hq].
  - destruct (round_units_low n d Hn Hd Hq) as [_ [H0 H1]].
    replace (0 <=? round_units n d) with true by lia.
    replace (round_units n d <? overflow_units) with true by lia.
    cbn [andb].
    destruct (Z.eq_dec (round_units n d) (2 ^ 53)) as [E|E].
    + rewrite E. reflexivity.
    + replace (round_units n d <? 2 ^ 53) with true by lia. reflexivity.
  - destruct (round_units_high n d Hd Hq) as (Hsh & E & Hlo & Hhi).
    set (sh := Z.log2 (n / d) - 52) in *.
    set (m := rne_div n (d * 2 ^ sh)) in *.
    assert (Hp : 0 < 2 ^ sh) by (apply Z.pow_pos_nonneg; lia).
    assert (Hm : 2 ^ 52 <= m <= 2 ^ 53) by (rewrite E in Hlo, Hhi; nia).
    replace (0 <=? round_units n d) with true by lia.
    replace (round_units n d <? overflow_units) with true by lia.
    cbn [andb]. apply orb_true_intro. right. apply Z.eqb_eq.
    destruct (Z.eq_dec m (2 ^ 53)) as [Em|Em].
    + assert (El : Z.log2 (round_units n d) = 53 + sh).
      { rewrite E, Em, <- Z.pow_add_r by lia. apply Z.log2_pow2. lia. }
      rewrite El, E, Em.
      replace (53 + sh - 52) with (1 + sh) by lia.
      replace (2 ^ 53) with (2 ^ 52 * 2 ^ 1) by reflexivity.
      rewrite <- Z.mul_assoc, <- Z.pow_add_r by lia.
      apply Z.mod_mul. apply Z.pow_nonzero; lia.
    + assert (El : Z.log2 (round_units n d) = 52 + sh).
      { apply Z.log2_unique; [lia|]. rewrite E.
        replace (Z.succ (52 + sh)) with (53 + sh) by lia.
        rewrite !Z.pow_add_r by lia. split.
        - apply Z.mul_le_mono_nonneg_r; lia.
        - apply Zmult_lt_compat_r; lia. }
      rewrite El, E. replace (52 + sh - 52) with sh by lia.
      apply Z.mod_mul. lia.
Qed.

(** The quotient of two integers [0 <= a <= b], [1 <= b]: a binary64
    number from 0 to 1. *)
Lemma truediv_unit a b :
  0 <= a <= b -> 1 <= b ->
  exists u, truediv a b = Ok (Fin false u) /\
    0 <= u <= one_units /\ representable u = true.
Proof.
  intros Ha Hb. pose proof one_units_pos as HX.
  pose proof overflow_units_eq as HO.
  assert (R1 : representable (1 * one_units) = true)
    by (apply representable_int; lia).
  rewrite Z.mul_1_l in R1.
  unfold truediv. replace (b =? 0) with false by lia.
  replace (a <? 0) with false by lia. replace (b <? 0) with false by lia.
  cbn [xorb]. rewrite (Z.abs_eq a), (Z.abs_eq b) by lia.
  set (u := round_units (a * one_units) b).
  assert (Hu1 : u <= one_units).
  { apply round_units_le; [nia|lia|exact R1|nia]. }
  assert (Hu0 : 0 <= u).
  { apply (round_units_ge (a * one_units) b 0); [lia|reflexivity|nia]. }
  assert (Hov : u < overflow_units) by (rewrite HO; nia).
  rewrite (mk_finite false _ _ u eq_refl Hov).
  exists u. split; [reflexivity|]. split; [lia|].
  apply round_units_representable; [nia|lia|exact Hov].
Qed.

Lemma truediv_zero b : 1 <= b -> truediv 0 b = Ok (Fin false 0).
Proof.
  intros Hb. unfold truediv. replace (b =? 0) with false by lia.
  replace (b <? 0) with false by lia.
  change (Z.abs 0 * one_units) with 0. change (0 <? 0) with false.
  cbn [xorb]. rewrite (Z.abs_eq b) by lia.
  rewrite (mk_finite false 0 b 0); [reflexivity| |reflexivity].
  exact (round_units_exact 0 b eq_refl ltac:(lia)).
Qed.

Lemma truediv_same b : 1 <= b -> truediv b b = Ok (Fin false one_units).
Proof.
  intros Hb. pose proof one_units_pos as HX.
  pose proof overflow_units_eq as HO.
  assert (R1 : representable (1 * one_units) = true)
    by (apply representable_int; lia).
  rewrite Z.mul_1_l in R1.
  unfold truediv. replace (b =? 0) with false by lia.
  replace (b <? 0) with false by lia. cbn [xorb].
  rewrite (Z.abs_eq b) by lia. rewrite (Z.mul_comm b).
  rewrite (mk_finite false _ _ one_units); [reflexivity| |rewrite HO; nia].
  apply round_units_exact; [exact R1|lia].
Qed.

End QuotientFacts.



Section MarkerFacts.
Import Float Text Dates Span SpanSpec Color ColorSpec Legend SpanInv.
Local Open Scope Z_scope.

(** The colour of a fraction from 0 to 1. *)
Lemma age_color_triplet f :
  valid f = true -> leb (Fin false 0) f = true ->
  leb f (Fin false one_units) = true ->
  exists r g b,
    age_color f = Ok (triplet r g b) /\
    44 <= r <= 231 /\ 62 <= g <= 76 /\ 60 <= b <= 80.
Proof.
  intros Hv H0 H1.
  destruct (channel_range 231 44 f ltac:(lia) ltac:(lia) Hv H0 H1)
    as (r & Er & Br & _).
  destruct (channel_range 76 62 f ltac:(lia) ltac:(lia) Hv H0 H1)
    as (g & Eg & Bg & _).
  destruct (channel_range 60 80 f ltac:(lia) ltac:(lia) Hv H0 H1)
    as (b & Eb & Bb & _).
  exists r, g, b. split; [|lia].
  unfold age_color. rewrite Er, Eg, Eb. cbn [mbind result_bind].
  rewrite !fmt_02x_byte by lia. reflexivity.
Qed.

Lemma unit_fraction_color a b :
  0 <= a <= b -> 1 <= b ->
  exists f r g bl,
    truediv a b = Ok f /\ age_color f = Ok (triplet r g bl) /\
    44 <= r <= 231 /\ 62 <= g <= 76 /\ 60 <= bl <= 80.
Proof.
  intros Ha Hb. destruct (truediv_unit a b Ha Hb) as (u & E & Hu & Hr).
  destruct (age_color_triplet (Fin false u)) as (r & g & bl & Ec & B).
  - exact Hr.
  - cbn [leb sgn]. lia.
  - cbn [leb sgn]. lia.
  - exists (Fin false u), r, g, bl. auto.
Qed.

(** The dates that parse, one by one. *)
Lemma parsed_dates_In strs : forall ds d,
  parsed_dates strs = Ok ds ->
  (In d ds <-> exists s, In s strs /\ parse_reported_date s = Ok (Some d)).
Proof.
  induction strs as [|x strs IH]; intros ds d; cbn [parsed_dates].
  - intros [= <-]. split; [intros []|intros (s & [] & _)].
  - destruct (parse_reported_date x) as [o|] eqn:E; [|discriminate].
    cbn [mbind result_bind].
    destruct (parsed_dates strs) as [ds'|]; [|discriminate].
    cbn [mbind result_bind]. intros [= <-].
    specialize (IH ds' d eq_refl).
    destruct o as [v|].
    + split.
      * intros [<-|H]; [exists x; split; [now left|exact E]|].
        apply IH in H as (s & Hs & Es). exists s. split; [now right|exact Es].
      * intros (s & [<-|Hs] & Es).
        -- left. congruence.
        -- right. apply IH. eauto.
    + split.
      * intros H. apply IH in H as (s & Hs & Es). exists s. split; [now right|exact Es].
      * intros (s & [<-|Hs] & Es); [congruence|]. apply IH. eauto.
Qed.

Lemma span_without_day_count days ds n o :
  days_given days = false ->
  newest_of ds = Some n -> oldest_of ds = Some o ->
  date_span days ds = (if n =? o then 1 else n - o)
  /\ 1 <= date_span days ds.
Proof.
  intros Hd En Eo. unfold date_span. rewrite Hd, En, Eo.
  pose proof (oldest_le_newest _ _ _ En Eo).
  destruct (n =? o) eqn:E; cbn [negb]; lia.
Qed.

Lemma newest_oldest_some ds d :
  In d ds -> exists n o, newest_of ds = Some n /\ oldest_of ds = Some o.
Proof. destruct ds; [intros []|]. cbn. eauto. Qed.

(** X9.  Without a day count (none given, or one of 1 or less) the
    marker of every group has a proper colour: for a group whose date
    texts are among those of all records the age fraction lies between
    0 and 1, and the colour is [#rrggbb] with each channel between the
    two endpoints. *)
Theorem marker_color_without_day_count
    (days : option Z) (all_dates group : list str) :
  days_given days = false ->
  incl group all_dates ->
  exists ds gs f r g b,
    parsed_dates all_dates = Ok ds /\ parsed_dates group = Ok gs /\
    age_frac days ds gs = Ok f /\
    leb (Fin false 0) f = true /\ leb f (Fin false one_units) = true /\
    marker_color days all_dates group = Ok (triplet r g b) /\
    44 <= r <= 231 /\ 62 <= g <= 76 /\ 60 <= b <= 80.
Proof.
  intros Hd Hi.
  destruct (parsed_dates_returns all_dates) as [ds Eds].
  destruct (parsed_dates_returns group) as [gs Egs].
  assert (Hsub : forall d, In d gs -> In d ds).
  { intros d H. apply (parsed_dates_In _ _ _ Egs) in H as (s & Hs & Es).
    apply (parsed_dates_In _ _ _ Eds). exists s. split; [now apply Hi|exact Es]. }
  assert (K : exists f r g b,
            age_frac days ds gs = Ok f /\
            leb (Fin false 0) f = true /\ leb f (Fin false one_units) = true /\
            age_color f = Ok (triplet r g b) /\
            44 <= r <= 231 /\ 62 <= g <= 76 /\ 60 <= b <= 80).
  { unfold age_frac. destruct (newest_of ds) as [n|] eqn:En.
    - destruct ds as [|d0 ds0] eqn:Eds'; [discriminate|]. rewrite <- Eds' in *.
      destruct (newest_oldest_some ds d0) as (n' & o & En' & Eo);
        [rewrite Eds'; now left|].
      rewrite En in En'. injection En' as <-.
      destruct (span_without_day_count days ds n o Hd En Eo) as [Es Hs].
      apply newest_of_spec in En as Hn. destruct Hn as [_ Hn].
      apply oldest_of_spec in Eo as Ho. destruct Ho as [_ Ho].
      rewrite List.Forall_forall in Hn, Ho.
      set (gn := default n (newest_of gs)).
      assert (Hg : o <= gn <= n).
      { unfold gn. destruct (newest_of gs) as [x|] eqn:Ex; cbn [default].
        - apply newest_of_spec in Ex as [Hx _]. apply Hsub in Hx.
          split; [now apply Ho|now apply Hn].
        - pose proof (oldest_le_newest _ _ _ En Eo). lia. }
      assert (Ha : 0 <= n - gn <= date_span days ds).
      { rewrite Es. destruct (n =? o) eqn:E; lia. }
      destruct (truediv_unit _ _ Ha Hs) as (u & E & Hu & Hr).
      destruct (age_color_triplet (Fin false u)) as (r & g & b & Ec & B);
        [exact Hr|cbn [leb sgn]; lia|cbn [leb sgn]; lia|].
      exists (Fin false u), r, g, b. rewrite E.
      split; [reflexivity|]. split; [cbn [leb sgn]; lia|].
      split; [cbn [leb sgn]; lia|]. split; [exact Ec|exact B].
    - pose proof one_units_pos.
      destruct (age_color_triplet (Fin false 0)) as (r & g & b & Ec & B);
        [reflexivity|reflexivity|cbn [leb sgn]; lia|].
      exists (Fin false 0), r, g, b.
      split; [reflexivity|]. split; [reflexivity|].
      split; [cbn [leb sgn]; lia|]. split; [exact Ec|exact B]. }
  destruct K as (f & r & g & b & Ef & H0 & H1 & Ec & B).
  exists ds, gs, f, r, g, b.
  split; [exact Eds|]. split; [exact Egs|]. split; [exact Ef|].
  split; [exact H0|]. split; [exact H1|]. split; [|exact B].
  unfold marker_color. rewrite Eds, Egs. cbn [mbind result_bind].
  rewrite Ef. cbn [mbind result_bind]. exact Ec.
Qed.

End MarkerFacts.

Section OvershootFacts.
Import Float Text Dates Span SpanSpec Color ColorSpec Legend SpanInv.
Local Open Scope Z_scope.

(** A channel for a fraction up to [2^22]: it returns; and a falling
    channel whose far end is less than half the near end goes below
    zero from the fraction 2 on. *)
Lemma channel_wide n o u :
  0 <= n < 2 ^ 20 -> 0 <= o < 2 ^ 20 ->
  0 <= u <= 2 ^ 22 * one_units ->
  exists r,
    channel n o (Fin false u) = Ok r /\
    (2 * o < n -> 2 * one_units <= u -> r <= 2 * o - n).
Proof.
  intros Hn Ho Hu. pose proof one_units_pos as HX.
  set (X := one_units) in *.
  unfold channel.
  rewrite (of_int_small (o - n)) by lia.
  rewrite (of_int_small n) by lia.
  cbn [mbind result_bind].
  replace (n <? 0) with false by lia.
  rewrite (Z.abs_eq n) by lia.
  fold X.
  set (D := Z.abs (o - n)).
  assert (HD : 0 <= D < 2 ^ 20) by lia.
  assert (Hrep : forall k, 0 <= k < 2 ^ 53 -> representable (k * X) = true)
    by (intros; apply representable_int; lia).
  assert (Hfin : forall k, 0 <= k < 2 ^ 53 -> k * X < overflow_units)
    by (intros; apply int_units_finite; lia).
  set (v := round_units (D * X * u) X).
  assert (Hv0 : 0 <= v).
  { apply (round_units_ge (D * X * u) X 0); [lia|reflexivity|nia]. }
  assert (Hvmax : v <= 2 ^ 42 * X).
  { apply round_units_le; [nia|lia|apply Hrep; lia|].
    assert (D * u <= 2 ^ 20 * (2 ^ 22 * X)) by nia. nia. }
  assert (Hmul : mul (Fin (o - n <? 0) (D * X)) (Fin false u)
                 = Fin (o - n <? 0) v).
  { unfold mul. rewrite xorb_false_r. apply mk_finite; [reflexivity|].
    pose proof (Hfin (2 ^ 42) ltac:(lia)). lia. }
  rewrite Hmul. clear Hmul.
  unfold add.
  set (z := sgn false * (n * X) + sgn (o - n <? 0) * v).
  assert (Hzabs : Z.abs z <= 2 ^ 43 * X).
  { unfold z. destruct (o - n <? 0); cbn [sgn]; nia. }
  destruct (z =? 0) eqn:Z0.
  - exists 0. split.
    { cbn [to_int]. rewrite Z.div_0_l by lia. f_equal; lia. }
    intros H2 H3. exfalso.
    assert (Hneg : (o - n <? 0) = true) by lia.
    assert (2 * D * X <= v).
    { apply round_units_ge; [lia|apply Hrep; lia|nia]. }
    unfold z in Z0. rewrite Hneg in Z0. cbn [sgn] in Z0.
    assert (D = n - o) by lia. nia.
  - set (w := round_units (Z.abs z) 1).
    assert (Hwmax : w <= 2 ^ 43 * X).
    { apply round_units_le; [lia|lia|apply Hrep; lia|lia]. }
    rewrite (mk_finite (z <? 0) (Z.abs z) 1 w eq_refl)
      by (pose proof (Hfin (2 ^ 43) ltac:(lia)); lia).
    exists (sgn (z <? 0) * (w / X)). split; [reflexivity|].
    intros H2 H3.
    assert (Hneg : (o - n <? 0) = true) by lia.
    assert (ED : D = n - o) by lia.
    assert (Hv2 : 2 * D * X <= v).
    { apply round_units_ge; [lia|apply Hrep; lia|nia]. }
    assert (Hz : z <= (2 * o - n) * X).
    { unfold z. rewrite Hneg. cbn [sgn]. nia. }
    assert (Hzneg : z < 0) by nia.
    replace (z <? 0) with true by lia. cbn [sgn].
    assert (Hw : (n - 2 * o) * X <= w).
    { apply round_units_ge; [lia|apply Hrep; lia|lia]. }
    assert (n - 2 * o <= w / X).
    { apply Z.div_le_lower_bound; [lia|]. lia. }
    lia.
Qed.

Lemma fmt_02x_negative z s :
  z < 0 -> startswith (txt "#-") (txt "#" ++ fmt_02x z ++ s) = true.
Proof.
  intros Hz. unfold fmt_02x. replace (z <? 0) with true by lia.
  reflexivity.
Qed.

(** X10.  With a day count the colour is not kept within the two
    endpoints.  When the newest report of a group is at least twice
    the day count older than the newest report of all, the age fraction
    is 2 or more, the red channel is negative, and the text returned
    for the colour opens with [#-]: no colour of the form [#rrggbb]. *)
Theorem marker_color_beyond_day_count
    (d : Z) (all_dates group : list str) (ds gs : list date) (n gn : date) :
  parsed_dates all_dates = Ok ds ->
  parsed_dates group = Ok gs ->
  newest_of ds = Some n ->
  newest_of gs = Some gn ->
  2 <= d ->
  2 * d <= n - gn ->
  exists f r s,
    age_frac (Some d) ds gs = Ok f /\
    leb (Fin false (2 * one_units)) f = true /\
    channel 231 44 f = Ok r /\ r <= -143 /\
    marker_color (Some d) all_dates group = Ok s /\
    startswith (txt "#-") s = true.
Proof.
  intros Eds Egs En Egn Hd Hage. pose proof one_units_pos as HX.
  assert (Hn : is_date n).
  { apply parsed_dates_are_dates in Eds. rewrite List.Forall_forall in Eds.
    apply Eds. now apply newest_of_spec in En as [? _]. }
  assert (Hgn : is_date gn).
  { apply parsed_dates_are_dates in Egs. rewrite List.Forall_forall in Egs.
    apply Egs. now apply newest_of_spec in Egn as [? _]. }
  unfold is_date, max_ordinal in Hn, Hgn.
  assert (Hrep : forall k, 0 <= k < 2 ^ 53 -> representable (k * one_units) = true)
    by (intros; apply representable_int; lia).
  assert (Hfin : forall k, 0 <= k < 2 ^ 53 -> k * one_units < overflow_units)
    by (intros; apply int_units_finite; lia).
  assert (Ef : exists u, age_frac (Some d) ds gs = Ok (Fin false u) /\
                 2 * one_units <= u <= 2 ^ 22 * one_units).
  { unfold age_frac. rewrite En, Egn. change (default n (Some gn)) with gn.
    assert (Es : date_span (Some d) ds = d).
    { unfold date_span, days_given. replace (d =? 0) with false by lia.
      replace (1 <? d) with true by lia. reflexivity. }
    rewrite Es. unfold truediv. replace (d =? 0) with false by lia.
    replace (n - gn <? 0) with false by lia.
    replace (d <? 0) with false by lia. cbn [xorb].
    rewrite (Z.abs_eq (n - gn)), (Z.abs_eq d) by lia.
    set (u := round_units ((n - gn) * one_units) d).
    assert (H2 : 2 * one_units <= u).
    { apply round_units_ge; [lia|apply Hrep; lia|nia]. }
    assert (H3 : u <= 2 ^ 22 * one_units).
    { apply round_units_le; [nia|lia|apply Hrep; lia|].
      assert (n - gn <= 2 ^ 22) by lia. nia. }
    rewrite (mk_finite false _ _ u eq_refl)
      by (pose proof (Hfin (2 ^ 22) ltac:(lia)); lia).
    exists u. auto. }
  destruct Ef as (u & Ef & Hu).
  destruct (channel_wide 231 44 u ltac:(lia) ltac:(lia) ltac:(lia))
    as (r & Er & Br).
  destruct (channel_wide 76 62 u ltac:(lia) ltac:(lia) ltac:(lia))
    as (g & Eg & _).
  destruct (channel_wide 60 80 u ltac:(lia) ltac:(lia) ltac:(lia))
    as (b & Eb & _).
  assert (Hr : r <= -143) by (specialize (Br ltac:(lia) ltac:(lia)); lia).
  exists (Fin false u), r, (txt "#" ++ fmt_02x r ++ fmt_02x g ++ fmt_02x b).
  split; [exact Ef|]. split; [cbn [leb sgn]; lia|].
  split; [exact Er|]. split; [exact Hr|]. split.
  - unfold marker_color. rewrite Eds, Egs. cbn [mbind result_bind].
    rewrite Ef. cbn [mbind result_bind]. unfold age_color.
    rewrite Er, Eg, Eb. reflexivity.
  - apply fmt_02x_negative. lia.
Qed.

End OvershootFacts.

Section LegendFacts.
Import Float Text Dates Span SpanSpec Color ColorSpec Legend SpanInv.
Local Open Scope Z_scope.

Lemma bind_ok {A B} (k : A -> result B) (a : A) : mbind k (Ok a) = k a.
Proof. reflexivity. Qed.

Lemma insert_desc_In d l x : In x (insert_desc d l) <-> x = d \/ In x l.
Proof.
  induction l as [|y l IH]; cbn [insert_desc].
  - cbn. intuition.
  - destruct (y <? d) eqn:E1; [cbn; intuition|].
    destruct (y =? d) eqn:E2.
    + assert (y = d) by lia. subst y. cbn. intuition.
    + cbn [In]. rewrite IH. intuition.
Qed.

Lemma insert_desc_falling d l : falling l -> falling (insert_desc d l).
Proof.
  induction l as [|y l IH]; cbn [insert_desc falling].
  - intros _. split; [constructor|exact I].
  - intros [Hy Hl]. destruct (y <? d) eqn:E1.
    + cbn [falling]. split; [|auto].
      constructor; [lia|]. eapply List.Forall_impl; [|exact Hy].
      cbn. intros; lia.
    + destruct (y =? d) eqn:E2; [cbn [falling]; auto|].
      cbn [falling]. split; [|auto].
      apply List.Forall_forall. intros x Hx. apply insert_desc_In in Hx as [->|Hx].
      * lia.
      * rewrite List.Forall_forall in Hy. now apply Hy.
Qed.

Lemma unique_dates_In ds x : In x (unique_dates ds) <-> In x ds.
Proof.
  induction ds as [|d ds IH]; [reflexivity|].
  cbn [unique_dates fold_right]. fold (unique_dates ds).
  rewrite insert_desc_In, IH. cbn. intuition.
Qed.

Lemma unique_dates_falling ds : falling (unique_dates ds).
Proof.
  induction ds as [|d ds IH]; [exact I|].
  cbn [unique_dates fold_right]. now apply insert_desc_falling.
Qed.

(** A falling list opens with its greatest and ends with its least
    element. *)
Lemma falling_ends u n o :
  falling u -> In n u -> In o u ->
  Forall (fun x => o <= x <= n) u -> n <> o ->
  exists mid, u = n :: mid ++ [o].
Proof.
  intros Hf Hn Ho Hb Hne.
  destruct u as [|h t]; [destruct Hn|].
  assert (h = n).
  { destruct Hf as [Hh _]. destruct Hn as [->|Hn]; [reflexivity|].
    rewrite List.Forall_forall in Hh. specialize (Hh n Hn).
    apply Forall_cons_iff in Hb as [Hb _]. lia. }
  subst h. destruct Ho as [->|Ho]; [congruence|].
  clear Hn. destruct Hf as [_ Hf]. apply Forall_cons_iff in Hb as [_ Hb].
  assert (K : exists mid, t = mid ++ [o]).
  { clear Hne. induction t as [|x t IH]; [destruct Ho|].
    destruct Hf as [Hx Hf]. apply Forall_cons_iff in Hb as [Hbx Hb].
    destruct t as [|y t'].
    - destruct Ho as [->|[]]. now exists [].
    - destruct Ho as [->|Ho].
      + exfalso. apply Forall_cons_iff in Hx as [Hy _].
        apply Forall_cons_iff in Hb as [Hby _]. lia.
      + destruct (IH Hb Ho Hf) as [mid E]. exists (x :: mid).
        now rewrite E. }
  destruct K as [mid ->]. now exists mid.
Qed.

Lemma legend_items_unit days ds n span u :
  newest_of ds = Some n -> date_span days ds = span -> 1 <= span ->
  Forall (fun d => 0 <= n - d <= span) u ->
  exists items,
    legend_items days ds u = Ok items /\
    map snd items = u /\
    Forall (fun i => exists r g b, fst i = triplet r g b /\
              44 <= r <= 231 /\ 62 <= g <= 76 /\ 60 <= b <= 80) items.
Proof.
  intros En Es Hs. induction 1 as [|d u Hd _ (items & E & Em & Hc)];
    cbn [legend_items].
  - exists []. repeat split; constructor.
  - destruct (unit_fraction_color (n - d) span Hd Hs)
      as (f & r & g & b & Ef & Ec & B).
    unfold legend_item, legend_frac. rewrite En, Es, Ef.
    rewrite bind_ok, Ec, bind_ok, bind_ok, E, bind_ok.
    eexists. split; [reflexivity|]. cbn [map snd]. rewrite Em.
    split; [reflexivity|]. constructor; [|exact Hc].
    cbn [fst]. eauto.
Qed.

Lemma age_color_newest : age_color (Fin false 0) = Ok (txt "#e74c3c").
Proof. vm_compute. reflexivity. Qed.

Lemma age_color_oldest :
  age_color (Fin false one_units) = Ok (txt "#2c3e50").
Proof. vm_compute. reflexivity. Qed.

Lemma legend_item_newest days ds n :
  newest_of ds = Some n -> 1 <= date_span days ds ->
  legend_item days ds n = Ok (txt "#e74c3c", n).
Proof.
  intros En Hs. unfold legend_item, legend_frac. rewrite En, Z.sub_diag.
  rewrite truediv_zero by exact Hs.
  rewrite bind_ok, age_color_newest, bind_ok. reflexivity.
Qed.

Lemma legend_item_oldest days ds n o :
  newest_of ds = Some n -> date_span days ds = n - o -> 1 <= n - o ->
  legend_item days ds o = Ok (txt "#2c3e50", o).
Proof.
  intros En Es Hs. unfold legend_item, legend_frac. rewrite En, Es.
  rewrite truediv_same by exact Hs.
  rewrite bind_ok, age_color_oldest, bind_ok. reflexivity.
Qed.

Lemma legend_items_app days ds u v items :
  legend_items days ds (u ++ v) = Ok items ->
  exists a b, legend_items days ds u = Ok a /\
    legend_items days ds v = Ok b /\ items = a ++ b.
Proof.
  revert items. induction u as [|d u IH]; intros items; cbn [app legend_items].
  - intros H. exists [], items. auto.
  - destruct (legend_item days ds d) as [i|]; [|discriminate].
    cbn [mbind result_bind].
    destruct (legend_items days ds (u ++ v)) as [more|] eqn:E; [|discriminate].
    cbn [mbind result_bind]. intros [= <-].
    destruct (IH more eq_refl) as (a & b & -> & Eb & ->).
    cbn [mbind result_bind]. exists (i :: a), b. auto.
Qed.

(** X11.  The legend without a day count.  It is drawn exactly when
    two report dates differ.  Its entries are the distinct dates in
    falling order; the first is the newest date in the colour
    [#e74c3c], the last the oldest date in the colour [#2c3e50], and
    every entry has a colour between these two. *)
Theorem legend_without_day_count (days : option Z) (ds : list date) :
  days_given days = false ->
  ((exists d d', In d ds /\ In d' ds /\ d <> d')
   <-> exists items, legend days ds = Ok (Some items))
  /\ ((forall d d', In d ds -> In d' ds -> d = d')
      <-> legend days ds = Ok None)
  /\ (forall items, legend days ds = Ok (Some items) ->
      falling (map snd items)
      /\ (forall d, In d (map snd items) <-> In d ds)
      /\ (exists n o mid,
            newest_of ds = Some n /\ oldest_of ds = Some o /\
            items = (txt "#e74c3c", n) :: mid ++ [(txt "#2c3e50", o)])
      /\ Forall (fun i => exists r g b, fst i = triplet r g b /\
                   44 <= r <= 231 /\ 62 <= g <= 76 /\ 60 <= b <= 80) items).
Proof.
  intros Hd.
  pose proof (unique_dates_falling ds) as Hf.
  pose proof (unique_dates_In ds) as Hin.
  set (u := unique_dates ds) in *.
  (* two entries of a falling list differ *)
  assert (Hlong : (1 <? length u)%nat = true
                  <-> exists d d', In d ds /\ In d' ds /\ d <> d').
  { split.
    - intros H. destruct u as [|a [|b t]]; [discriminate|discriminate|].
      exists a, b. split; [apply Hin; now left|].
      split; [apply Hin; right; now left|].
      destruct Hf as [Ha _]. apply Forall_cons_iff in Ha as [Ha _]. lia.
    - intros (d & d' & H1 & H2 & Hne).
      apply Hin in H1, H2.
      destruct u as [|a [|b t]]; [destruct H1| |reflexivity].
      destruct H1 as [<-|[]]. destruct H2 as [<-|[]]. congruence. }
  (* the entries, when the legend is drawn *)
  assert (Hitems : (1 <? length u)%nat = true ->
            exists n o mid items,
              newest_of ds = Some n /\ oldest_of ds = Some o /\
              u = n :: mid ++ [o] /\
              legend_items days ds u = Ok items /\
              map snd items = u /\
              items = (txt "#e74c3c", n) :: removelast (tl items)
                        ++ [(txt "#2c3e50", o)] /\
              Forall (fun i => exists r g b, fst i = triplet r g b /\
                        44 <= r <= 231 /\ 62 <= g <= 76 /\ 60 <= b <= 80)
                     items).
  { intros H. apply Hlong in H as (d & d' & H1 & H2 & Hne).
    destruct (newest_oldest_some ds d H1) as (n & o & En & Eo).
    destruct (span_without_day_count days ds n o Hd En Eo) as [Es Hs].
    apply newest_of_spec in En as Hn. destruct Hn as [Hn1 Hn2].
    apply oldest_of_spec in Eo as Ho. destruct Ho as [Ho1 Ho2].
    rewrite List.Forall_forall in Hn2, Ho2.
    assert (Hno : n <> o).
    { intros ->. pose proof (Hn2 d H1). pose proof (Ho2 d H1).
      pose proof (Hn2 d' H2). pose proof (Ho2 d' H2). lia. }
    pose proof (oldest_le_newest _ _ _ En Eo) as Hle.
    assert (Es' : date_span days ds = n - o).
    { rewrite Es. destruct (n =? o) eqn:E; lia. }
    assert (Hb : Forall (fun x => o <= x <= n) u).
    { apply List.Forall_forall. intros x Hx. apply Hin in Hx.
      split; [now apply Ho2|now apply Hn2]. }
    destruct (falling_ends u n o Hf) as [mid Eu];
      [now apply Hin|now apply Hin|exact Hb|exact Hno|].
    destruct (legend_items_unit days ds n (n - o) u En Es' ltac:(lia))
      as (items & Ei & Em & Hc).
    { eapply List.Forall_impl; [|exact Hb]. cbn. intros; lia. }
    exists n, o, mid, items. repeat split; auto.
    pose proof Ei as Ei'. rewrite Eu in Ei'.
    cbn [legend_items] in Ei'.
    rewrite (legend_item_newest days ds n En ltac:(lia)) in Ei'.
    cbn [mbind result_bind] in Ei'.
    destruct (legend_items days ds (mid ++ [o])) as [more|] eqn:Em';
      [|discriminate].
    cbn [mbind result_bind] in Ei'. injection Ei' as <-.
    apply legend_items_app in Em' as (a & b & Ea & Eb & ->).
    cbn [legend_items] in Eb.
    rewrite (legend_item_oldest days ds n o En Es' ltac:(lia)) in Eb.
    cbn [mbind result_bind] in Eb. injection Eb as <-.
    cbn [tl]. now rewrite removelast_last. }
  split; [|split].
  - rewrite <- Hlong. unfold legend. fold u. split.
    + intros H. destruct (Hitems H) as (n & o & mid & items & _ & _ & _ & E & _).
      rewrite H, E. cbn [mbind result_bind]. eauto.
    + intros [items H]. destruct (1 <? length u)%nat; [reflexivity|discriminate].
  - unfold legend. fold u. split.
    + intros Hall. destruct (1 <? length u)%nat; [|reflexivity].
      destruct (proj1 Hlong eq_refl) as (d & d' & H1 & H2 & Hne).
      destruct Hne. now apply Hall.
    + intros H d d' H1 H2.
      destruct (1 <? length u)%nat.
      * destruct (Hitems eq_refl) as (n & o & mid & items & _ & _ & _ & Ei & _).
        rewrite Ei in H. discriminate.
      * destruct (Z.eq_dec d d') as [|Hne]; [assumption|].
        assert (false = true) by (apply Hlong; eauto).
        discriminate.
  - intros items H. unfold legend in H. fold u in H.
    destruct (1 <? length u)%nat; [|discriminate].
    destruct (Hitems eq_refl)
      as (n & o & mid & items' & En & Eo & Eu & Ei & Em & Eshape & Hc).
    rewrite Ei in H. cbn [mbind result_bind] in H. injection H as <-.
    rewrite Em. split; [exact Hf|]. split; [exact Hin|].
    split; [|exact Hc]. exists n, o, (removelast (tl items')). auto.
Qed.

End LegendFacts.

Section SpanInvExamples.
Import Float Text Dates Span SpanSpec Color ColorSpec Legend SpanInv.
Local Open Scope Z_scope.

Lemma marker_color_without_day_count_witness :
  exists ds gs f r g b,
    parsed_dates two_reports = Ok ds /\
    parsed_dates [txt "Feb 01, 2026 09:00"] = Ok gs /\
    age_frac None ds gs = Ok f /\
    leb (Fin false 0) f = true /\ leb f (Fin false one_units) = true /\
    marker_color None two_reports [txt "Feb 01, 2026 09:00"]
    = Ok (triplet r g b) /\
    44 <= r <= 231 /\ 62 <= g <= 76 /\ 60 <= b <= 80.
Proof.
  assert (H1 : days_given None = false) by reflexivity.
  assert (H2 : incl [txt "Feb 01, 2026 09:00"] two_reports).
  { intros s [<-|[]]. right. now left. }
  exact (marker_color_without_day_count None two_reports
           [txt "Feb 01, 2026 09:00"] H1 H2).
Defined.

Lemma marker_color_beyond_day_count_witness :
  exists f r s,
    age_frac (Some 3) [739657; 739648] [739648] = Ok f /\
    leb (Fin false (2 * one_units)) f = true /\
    channel 231 44 f = Ok r /\ r <= -143 /\
    marker_color (Some 3) two_reports [txt "Feb 01, 2026 09:00"] = Ok s /\
    startswith (txt "#-") s = true.
Proof.
  assert (H1 : parsed_dates two_reports = Ok [739657; 739648])
    by (vm_compute; reflexivity).
  assert (H2 : parsed_dates [txt "Feb 01, 2026 09:00"] = Ok [739648])
    by (vm_compute; reflexivity).
  assert (H3 : newest_of [739657; 739648] = Some 739657) by reflexivity.
  assert (H4 : newest_of [739648] = Some 739648) by reflexivity.
  assert (H5 : 2 <= 3) by lia.
  assert (H6 : 2 * 3 <= 739657 - 739648) by lia.
  exact (marker_color_beyond_day_count 3 two_reports
           [txt "Feb 01, 2026 09:00"] [739657; 739648] [739648]
           739657 739648 H1 H2 H3 H4 H5 H6).
Defined.

Lemma legend_without_day_count_witness :
  exists items, legend None [739657; 739648; 739657] = Ok (Some items).
Proof.
  refine (proj1 (proj1 (legend_without_day_count None
                          [739657; 739648; 739657] eq_refl)) _).
  exists 739657, 739648. cbn. split; [auto|]. split; [auto|]. lia.
Defined.

End SpanInvExamples.



Section ReplaceFacts.
Import Text Extract Render RenderSpec.
Local Open Scope N_scope.

(** Replacing one character is done character by character. *)
Lemma replace_char (c : N) (new s : ustr) :
  replace [c] new s = flat_map (fun x => if c =? x then new else [x]) s.
Proof.
  unfold replace. induction s as [|x s IH]; [reflexivity|].
  cbn [replace_from ustartswith flat_map length Nat.sub].
  rewrite andb_true_r. destruct (c =? x); now rewrite IH.
Qed.

Lemma flat_map_flat_map {A B C} (f : A -> list B) (g : B -> list C) l :
  flat_map g (flat_map f l) = flat_map (fun a => flat_map g (f a)) l.
Proof.
  induction l as [|a l IH]; [reflexivity|].
  cbn [flat_map]. now rewrite flat_map_app, IH.
Qed.

Lemma escape_js_flat s : escape_js s = flat_map escaped s.
Proof.
  unfold escape_js. rewrite !replace_char, !flat_map_flat_map.
  apply flat_map_ext. intros c.
  unfold escaped, backslash, apostrophe, linefeed, letter_n.
  destruct (N.eqb_spec 92 c) as [<-|H1]; [reflexivity|].
  replace (c =? 92) with false by (symmetry; apply N.eqb_neq; congruence).
  cbn [flat_map app].
  destruct (N.eqb_spec 39 c) as [<-|H2]; [reflexivity|].
  replace (c =? 39) with false by (symmetry; apply N.eqb_neq; congruence).
  cbn [flat_map app].
  destruct (N.eqb_spec 10 c) as [<-|H3]; [reflexivity|].
  replace (c =? 10) with false by (symmetry; apply N.eqb_neq; congruence).
  reflexivity.
Qed.

(** X12.  The three replacements of [escape_js] do not disturb one
    another: the result is the text with every backslash doubled,
    every quote and every line feed written as a backslash and the
    quote or the letter n, and every other character as it is.  So
    escaping distributes over concatenation, and the result holds no
    line feed. *)
Theorem escape_js_charwise (s t : ustr) :
  escape_js s = flat_map escaped s
  /\ escape_js (s ++ t) = escape_js s ++ escape_js t
  /\ ~ In linefeed (escape_js s)
  /\ (length s <= length (escape_js s) <= 2 * length s)%nat.
Proof.
  split; [apply escape_js_flat|]. split.
  - rewrite !escape_js_flat. apply flat_map_app.
  - rewrite escape_js_flat. split.
    + intros H. apply in_flat_map in H as (c & _ & H). unfold escaped in H.
      destruct (N.eqb_spec c backslash);
        [destruct H as [H|[H|[]]]; discriminate|].
      destruct (N.eqb_spec c apostrophe);
        [destruct H as [H|[H|[]]]; discriminate|].
      destruct (N.eqb_spec c linefeed);
        [destruct H as [H|[H|[]]]; discriminate|].
      destruct H as [H|[]]. congruence.
    + induction s as [|c s IH]; [cbn; lia|].
      cbn [flat_map]. rewrite length_app. cbn [length].
      assert (1 <= length (escaped c) <= 2)%nat.
      { unfold escaped. destruct (c =? backslash); [cbn; lia|].
        destruct (c =? apostrophe); [cbn; lia|].
        destruct (c =? linefeed); cbn; lia. }
      lia.
Qed.

Lemma unescape_escaped c s :
  unescape_from false (escaped c ++ s) = c :: unescape_from false s.
Proof.
  unfold escaped.
  destruct (N.eqb_spec c backslash) as [->|H1]; [reflexivity|].
  destruct (N.eqb_spec c apostrophe) as [->|H2]; [reflexivity|].
  destruct (N.eqb_spec c linefeed) as [->|H3]; [reflexivity|].
  cbn [app unescape_from].
  now replace (c =? backslash) with false by (symmetry; now apply N.eqb_neq).
Qed.

(** X13.  Escaping loses nothing: reading the escaped text back, a
    backslash and [n] as a line feed and a backslash and any other
    character as that character, gives the text that was escaped; two
    texts with the same escaped form are the same text. *)
Theorem escape_js_round_trip (s t : ustr) :
  unescape_js (escape_js s) = s
  /\ (escape_js s = escape_js t -> s = t).
Proof.
  assert (R : forall x, unescape_js (escape_js x) = x).
  { intros x. rewrite escape_js_flat. unfold unescape_js.
    induction x as [|c x IH]; [reflexivity|].
    cbn [flat_map]. now rewrite unescape_escaped, IH. }
  split; [apply R|]. intros H. rewrite <- (R s), <- (R t). now rewrite H.
Qed.

End ReplaceFacts.

Section PopupFacts.
Import Text Extract Render RenderSpec.

Lemma popup_lines_first seen group :
  popup_lines seen group = flat_map entry (first_tagged seen group).
Proof.
  revert seen. induction group as [|s rest IH]; intros seen; [reflexivity|].
  cbn [popup_lines first_tagged].
  destruct (bool_decide (tag s ∈ seen)); [apply IH|].
  cbn [flat_map]. now rewrite IH.
Qed.

Lemma first_tagged_seen seen g1 s g2 :
  (tag s ∈ seen \/ In (tag s) (map tag g1)) ->
  first_tagged seen (g1 ++ s :: g2) = first_tagged seen (g1 ++ g2).
Proof.
  revert seen. induction g1 as [|x g1 IH]; intros seen H; cbn [app first_tagged].
  - destruct H as [H|[]]. now rewrite bool_decide_eq_true_2.
  - destruct (bool_decide (tag x ∈ seen)) eqn:E.
    + apply IH. destruct H as [H|[H|H]]; auto.
      left. rewrite <- H. now apply bool_decide_eq_true in E.
    + f_equal. apply IH. destruct H as [H|[H|H]]; auto.
      * left. now apply elem_of_union_r.
      * left. rewrite <- H. apply elem_of_union_l. now apply elem_of_singleton.
Qed.

Lemma first_tagged_tags seen group :
  NoDup (map tag (first_tagged seen group))
  /\ (forall s, In s (first_tagged seen group) -> tag s ∉ seen)
  /\ (forall s, In s group ->
        tag s ∈ seen \/ In (tag s) (map tag (first_tagged seen group)))
  /\ first_tagged seen group `sublist_of` group.
Proof.
  revert seen. induction group as [|x rest IH]; intros seen;
    cbn [first_tagged].
  - split; [constructor|]. split; [intros s []|]. split; [intros s []|constructor].
  - destruct (bool_decide (tag x ∈ seen)) eqn:E.
    + destruct (IH seen) as (I1 & I2 & I3 & I4).
      split; [exact I1|]. split; [exact I2|]. split.
      * intros s [<-|Hs]; [left; now apply bool_decide_eq_true in E|now apply I3].
      * now apply sublist_cons.
    + apply bool_decide_eq_false in E.
      destruct (IH ({[tag x]} ∪ seen)) as (I1 & I2 & I3 & I4).
      split; [|split; [|split]].
      * cbn [map]. apply NoDup_cons. split; [|exact I1].
        intros H. apply list_elem_of_In in H.
        apply in_map_iff in H as (s & Hs & Hin).
        apply I2 in Hin. rewrite Hs in Hin. apply Hin.
        apply elem_of_union_l. now apply elem_of_singleton.
      * intros s [<-|Hs]; [exact E|]. apply I2 in Hs.
        intros H. apply Hs. now apply elem_of_union_r.
      * intros s [<-|Hs]; [right; now left|].
        destruct (I3 s Hs) as [H|H]; [|right; now right].
        apply elem_of_union in H as [H|H]; [|now left].
        right. left. apply elem_of_singleton in H. now symmetry.
      * now apply sublist_skip.
Qed.

(** X14.  The popup lists a species-and-count tag once.  A group that
    is not empty gets a popup made of the location of its first record
    and the entries of the records that are first with their tag, in
    the order of the group; a record whose tag occurred before it adds
    nothing, whatever its date, observer or comments; and only the
    empty group has no popup ([group[0]] fails). *)
Theorem popup_html_first_of_each_tag (group : list sighting) :
  (popup_html group = None <-> group = [])
  /\ (forall first rest, group = first :: rest ->
      popup_html group
      = Some (concat ((utxt "<b>" ++ wide (location first) ++ utxt "</b><br>")
                      :: flat_map entry (first_tagged ∅ group))))
  /\ NoDup (map tag (first_tagged ∅ group))
  /\ (forall s, In s group -> In (tag s) (map tag (first_tagged ∅ group)))
  /\ (first_tagged ∅ group `sublist_of` group)
  /\ (forall g1 s g2, group = g1 ++ s :: g2 -> g1 <> [] ->
      In (tag s) (map tag g1) ->
      popup_html group = popup_html (g1 ++ g2)).
Proof.
  destruct (first_tagged_tags ∅ group) as (I1 & _ & I3 & I4).
  split; [|split; [|split; [|split; [|split]]]].
  - destruct group; cbn; split; congruence.
  - intros first rest ->. unfold popup_html. now rewrite popup_lines_first.
  - exact I1.
  - intros s Hs. destruct (I3 s Hs) as [H|H]; [|exact H].
    now apply elem_of_empty in H.
  - exact I4.
  - intros g1 s g2 -> Hne Hs.
    destruct g1 as [|x g1]; [congruence|]. cbn [app popup_html].
    rewrite !popup_lines_first.
    change (x :: g1 ++ s :: g2) with ((x :: g1) ++ s :: g2).
    rewrite first_tagged_seen by (now right). reflexivity.
Qed.

End PopupFacts.

Section MarkerPopups.
Import Text Extract Render RenderSpec.

(** X15.  In [generate_map] the popup of a marker is always there:
    every group [group_sightings] returns has a popup, so [group[0]]
    never fails there, and the popup opens with the location of the
    record that was first at the marker's rounded coordinates. *)
Theorem every_group_has_popup
    (l : list sighting) (g : @Group.groups sighting) :
  Group.group_sightings lat lon l = Ok g ->
  Forall (fun p => exists first rest html,
            snd p = first :: rest /\
            popup_html (snd p) = Some html /\
            ustartswith (utxt "<b>" ++ wide (location first)
                         ++ utxt "</b><br>") html = true) g.
Proof.
  intros H. unfold Group.group_sightings in H.
  destruct (group_from_inv lat lon l [] g H) as (I1 & _);
    [constructor|exact I|].
  eapply List.Forall_impl; [|exact I1].
  intros [k members] Hne. cbn [snd] in *.
  destruct members as [|first rest]; [congruence|].
  exists first, rest. eexists. split; [reflexivity|].
  split; [reflexivity|]. cbn [concat].
  generalize (utxt "<b>" ++ wide (location first) ++ utxt "</b><br>").
  intros w. generalize (concat (popup_lines ∅ (first :: rest))). intros t.
  induction w as [|a w IH]; [reflexivity|].
  cbn [app ustartswith]. now rewrite N.eqb_refl.
Qed.

Lemma every_group_has_popup_witness :
  exists g,
    Group.group_sightings lat lon
      [FilterSpec.reported "Feb 10, 2026 08:00";
       FilterSpec.reported "Feb 01, 2026 09:00"] = Ok g /\
    Forall (fun p => exists first rest html,
              snd p = first :: rest /\
              popup_html (snd p) = Some html /\
              ustartswith (utxt "<b>" ++ wide (location first)
                           ++ utxt "</b><br>") html = true) g.
Proof.
  eexists. split; [vm_compute; reflexivity|].
  refine (every_group_has_popup
            [FilterSpec.reported "Feb 10, 2026 08:00";
             FilterSpec.reported "Feb 01, 2026 09:00"] _ _).
  vm_compute. reflexivity.
Defined.

End MarkerPopups.

Section DateRoundTrip.
Import Text Regex Dates DatesSpec.
Local Open Scope Z_scope.

(** X16.  The display format reads back what it writes for the years
    of four digits, and only for them.  For every date and time of day
    from the year 1000 on, the text [strftime] makes in the format
    [%b %d, %Y %H:%M] is parsed by [strptime] in that format to the
    same date and time, and by [parse_reported_date] to the same
    date.  Before the year 1000 the year is written with fewer than
    four digits, [strptime] refuses the text and
    [parse_reported_date] finds no date in it. *)
Theorem display_format_round_trip (dt : datetime) :
  valid_datetime dt ->
  (1000 <= year dt ->
   strptime (strftime dt fmt_display) fmt_display = Ok dt
   /\ Span.parse_reported_date (strftime dt fmt_display)
      = Ok (Some (date_of dt)))
  /\ (year dt < 1000 ->
      strptime (strftime dt fmt_display) fmt_display = Raise ValueError
      /\ Span.parse_reported_date (strftime dt fmt_display) = Ok None).
Proof.
  intros H. split; intros Hy; split.
  - now apply strptime_display.
  - now apply parse_reported_display.
  - apply early_display_unread; [exact H|exact Hy|].
    unfold fmt_display. cbn. tauto.
  - now apply early_display_no_date.
Qed.

(** X17.  The dates of the API extractor reach the colour scale from
    the year 1000 on.  For every source text the date the extractor
    stores is either empty, and then no report date is read from it,
    or the display text of the date and time one of the two source
    formats gave; [parse_reported_date] reads exactly that date from
    it when the year has four digits, and no date at all when the year
    is below 1000: the source text [0999-01-02] is stored as
    [Jan 02, 999 00:00], which is read as no date. *)
Theorem api_dates_parse_back (s : str) :
  (exists t,
    Api.reformat_date s = Ok t /\
    ((t = [] /\ Span.parse_reported_date t = Ok None)
     \/ exists dt,
          (strptime s fmt_iso_minutes = Ok dt
           \/ strptime s fmt_iso_date = Ok dt) /\
          t = strftime dt fmt_display /\
          (1000 <= year dt ->
           Span.parse_reported_date t = Ok (Some (date_of dt))) /\
          (year dt < 1000 -> Span.parse_reported_date t = Ok None)))
  /\ Api.reformat_date (txt "0999-01-02") = Ok (txt "Jan 02, 999 00:00")
  /\ Span.parse_reported_date (txt "Jan 02, 999 00:00") = Ok None.
Proof.
  split; [|split; vm_compute; reflexivity].
  assert (K : forall dt f, strptime s f = Ok dt ->
            (1000 <= year dt ->
             Span.parse_reported_date (strftime dt fmt_display)
             = Ok (Some (date_of dt)))
            /\ (year dt < 1000 ->
                Span.parse_reported_date (strftime dt fmt_display)
                = Ok None)).
  { intros dt f E. pose proof (strptime_valid s f dt E) as V.
    split; intros Hy.
    - now apply parse_reported_display.
    - now apply early_display_no_date. }
  assert (N : Span.parse_reported_date [] = Ok None)
    by (vm_compute; reflexivity).
  unfold Api.reformat_date. destruct s as [|a s]; [eauto|].
  rewrite try_formats_two. unfold ApiSpec.display_date, ApiSpec.parsed.
  eexists. split; [reflexivity|].
  destruct (strptime (a :: s) fmt_iso_minutes) as [dt|] eqn:E1.
  - right. exists dt. split; [now left|]. split; [reflexivity|].
    now apply (K dt fmt_iso_minutes).
  - destruct (strptime (a :: s) fmt_iso_date) as [dt|] eqn:E2.
    + right. exists dt. split; [now right|]. split; [reflexivity|].
      now apply (K dt fmt_iso_date).
    + left. auto.
Qed.

End DateRoundTrip.

Section DateTextExamples.
Import Text Regex Dates DatesSpec.
Local Open Scope Z_scope.

Lemma display_format_round_trip_witness :
  (strptime (strftime owl_time fmt_display) fmt_display = Ok owl_time
   /\ Span.parse_reported_date (strftime owl_time fmt_display)
      = Ok (Some (date_of owl_time)))
  /\ (strptime (strftime early_time fmt_display) fmt_display
      = Raise ValueError
      /\ Span.parse_reported_date (strftime early_time fmt_display)
         = Ok None).
Proof.
  assert (H : valid_datetime owl_time).
  { split; [vm_compute; reflexivity|]. cbn. lia. }
  assert (E : valid_datetime early_time).
  { split; [vm_compute; reflexivity|]. cbn. lia. }
  split.
  - refine (proj1 (display_format_round_trip owl_time H) _). cbn. lia.
  - refine (proj2 (display_format_round_trip early_time E) _). cbn. lia.
Defined.

End DateTextExamples.


Section ReportedLine.
Import Text Regex Extract ExtractSpec LineSpec.

Lemma occurs_in_split w x rest x1 x2 :
  occurs_in w x rest = false -> x = x1 ++ x2 -> x2 <> [] ->
  startswith w (x2 ++ rest) = false.
Proof.
  revert x. induction x1 as [|a x1 IH]; intros x H -> Hne.
  - cbn [app] in H. destruct x2 as [|b x2]; [congruence|].
    cbn [occurs_in] in H. now apply orb_false_elim in H as [H _].
  - cbn [app occurs_in] in H. apply orb_false_elim in H as [_ H].
    now apply (IH (x1 ++ x2)).
Qed.

Lemma forallb_Forall {A} (p : A -> bool) l :
  forallb p l = true -> Forall (fun a => p a = true) l.
Proof.
  intros H. rewrite forallb_forall in H. now apply List.Forall_forall.
Qed.

(** A bullet line is no header. *)
Lemma bullet_no_header line :
  startswith (txt "- ") line = true -> re_match header_re line = None.
Proof.
  intros H. unfold re_match. rewrite header_re_pieces, rmatch_cat.
  cbn [rmatch]. rewrite rmatch_lit, H. reflexivity.
Qed.

Lemma startswith_more (w s t : str) :
  (length w <= length s)%nat -> startswith w (s ++ t) = startswith w s.
Proof.
  revert s. induction w as [|a w IH]; intros s H; [reflexivity|].
  destruct s as [|b s]; [cbn in H; lia|]. cbn [app startswith].
  rewrite IH; [reflexivity|cbn in H; lia].
Qed.


Lemma greedy_star_all {A} p x c (k : str -> caps -> option A) v :
  Forall (fun a => p a = true) x ->
  k [] c = Some v ->
  star_loop true (rmatch (Class p)) (length x) x c k = Some v.
Proof.
  intros Hx Hk.
  pose proof (greedy_star_run p x [] c k v (length x) Hx I Hk (le_n _)) as G.
  now rewrite app_nil_r in G.
Qed.

Lemma reported_match d o :
  plain_date d = true -> one_line o = true ->
  re_match reported_re (reported_line d o)
  = Some (<[2%nat := o]> (<[1%nat := d]> ∅)).
Proof.
  unfold plain_date, one_line. intros Hd Ho.
  apply andb_prop in Hd as [Hd Hby]. apply andb_prop in Hd as [Hd1 Hd2].
  apply andb_prop in Ho as [Ho1 Ho2]. apply negb_true_iff in Hby.
  destruct d as [|d0 d]; [discriminate|].
  destruct o as [|o0 o]; [discriminate|].
  cbn [forallb] in Hd2, Ho2.
  apply andb_prop in Hd2 as [Hd0 Hd2]. apply andb_prop in Ho2 as [Ho0 Ho2].
  apply forallb_Forall in Hd2, Ho2. cbn [tl] in Hby.
  unfold re_match, reported_re, reported_line.
  cbn [cat fold_right].
  rewrite rmatch_cat, rmatch_lit_app.
  rewrite rmatch_cat, rmatch_group. unfold Plus.
  rewrite rmatch_cat. cbn [app]. rewrite rmatch_class, Hd0, rmatch_star.
  apply (lazy_star_first is_dot d); [exact Hd2| | |rewrite length_app; lia].
  - intros x1 x2 E Hne.
    rewrite rmatch_cat, rmatch_lit.
    replace (startswith (txt " by ") (x2 ++ txt " by " ++ o0 :: o)) with false;
      [reflexivity|].
    symmetry.
    change (txt " by " ++ o0 :: o) with (txt " by" ++ (" "%char :: o0 :: o)).
    rewrite app_assoc, startswith_more.
    + now apply (occurs_in_split _ d _ x1 x2).
    + rewrite length_app. destruct x2; [congruence|]. cbn. lia.
  - rewrite rmatch_cat, rmatch_lit_app.
    rewrite rmatch_cat, rmatch_group, rmatch_cat.
    rewrite rmatch_class, Ho0, rmatch_star.
    apply greedy_star_all; [exact Ho2|].
    rewrite rmatch_cat. cbn [rmatch at_end].
    change (d0 :: d ++ txt " by " ++ o0 :: o)
      with ((d0 :: d) ++ txt " by " ++ o0 :: o).
    rewrite take_consumed.
    replace (take (length (o0 :: o) - length (@nil ascii)) (o0 :: o))
      with (o0 :: o); [reflexivity|].
    rewrite Nat.sub_0_r. symmetry. apply firstn_all.
Qed.


Lemma last_app_cons (x : str) a (y : str) d :
  List.last (x ++ a :: y) d = List.last (a :: y) d.
Proof. apply last_app_nonempty. discriminate. Qed.

Lemma reported_step (out : list sighting) (r : sighting) (d o : str) :
  plain_date d = true ->
  one_line o = true ->
  is_space (List.last o " "%char) = false ->
  process_line (out, Some r) (reported_line d o)
  = Ok (out, Some (set_reported r d o)).
Proof.
  intros Hd Ho Hl.
  assert (Hs : strip (reported_line d o) = reported_line d o).
  { destruct o as [|o0 o]; [discriminate|].
    apply strip_clean; [discriminate|reflexivity|].
    unfold reported_line.
    rewrite !app_assoc, last_app_cons. exact Hl. }
  unfold process_line. rewrite Hs.
  rewrite bullet_no_header by reflexivity. cbn [fst snd].
  unfold field_line.
  replace (startswith (txt "- Reported ") (reported_line d o)) with true
    by (symmetry; apply startswith_app).
  rewrite (reported_match d o Hd Ho). unfold group.
  rewrite lookup_insert_ne by done. rewrite !lookup_insert_eq.
  reflexivity.
Qed.

(** X18.  A report line gives the record its date and its observer.
    For a date and an observer on one line, the observer not ending
    in a blank, and a date within which the text [ by ] does not
    begin, the line [- Reported <date> by <observer>] below a header
    sets exactly these two fields; the observer may itself hold
    [ by ]. *)
Theorem reported_line_sets_date_and_observer
    (out : list sighting) (r : sighting) (d o : str) :
  plain_date d = true ->
  one_line o = true ->
  is_space (List.last o " "%char) = false ->
  process_line (out, Some r) (reported_line d o)
  = Ok (out, Some (set_reported r d o))
  /\ re_match reported_re (reported_line d o)
     = Some (<[2%nat := o]> (<[1%nat := d]> ∅)).
Proof.
  intros Hd Ho Hl. split; [now apply reported_step|now apply reported_match].
Qed.

End ReportedLine.

Section ReportedLineExamples.
Import Text Regex Extract ExtractSpec LineSpec.

Lemma reported_line_sets_date_and_observer_witness :
  process_line ([], Some (fresh (txt "Snowy Owl") (txt "Bubo scandiacus")
                                (txt "1") true))
    (reported_line (txt "Feb 05, 2026 15:08") (txt "Stand by Me"))
  = Ok ([], Some (set_reported
                    (fresh (txt "Snowy Owl") (txt "Bubo scandiacus")
                           (txt "1") true)
                    (txt "Feb 05, 2026 15:08") (txt "Stand by Me"))).
Proof.
  refine (proj1 (reported_line_sets_date_and_observer _ _ _ _ _ _ _));
    vm_compute; reflexivity.
Defined.

End ReportedLineExamples.

Section MapLine.
Import Text Regex Extract ExtractSpec LineSpec.

Lemma head_fails_cons p (a : ascii) (s : str) :
  p a = false -> head_fails p (a :: s).
Proof. intros H. exact H. Qed.

Lemma rmatch_class_fails {A} p (s : str) c (k : str -> caps -> option A) :
  head_fails p s -> rmatch (Class p) s c k = None.
Proof. destruct s as [|a s]; [reflexivity|]. cbn. now intros ->. Qed.

(** The pattern of a number reads a numeral to its end, when what
    follows cannot belong to it. *)
Lemma number_match {A} n rest c (k : str -> caps -> option A) v :
  wellformed_numeral n = true ->
  head_fails is_digit rest ->
  (fraction n = None -> head_fails (is_char ".") rest) ->
  k rest c = Some v ->
  rmatch number_re (numeral_text n ++ rest) c k = Some v.
Proof.
  destruct n as [neg ip frac]. unfold wellformed_numeral, numeral_text.
  cbn [negative whole fraction]. intros Hw Hr Hdot Hk.
  apply andb_prop in Hw as [Hw Hf]. apply andb_prop in Hw as [Hne Hip].
  destruct ip as [|i0 ip]; [discriminate|].
  cbn [forallb] in Hip. apply andb_prop in Hip as [Hi0 Hip].
  apply forallb_Forall in Hip.
  (* from the first digit on *)
  assert (K1 : rmatch (cat [Plus true (Class is_digit); Opt (chr ".");
                            Star true (Class is_digit)])
                 ((i0 :: ip) ++ match frac with
                                | Some f => txt "." ++ f
                                | None => []
                                end ++ rest) c k = Some v).
  { cbn [cat fold_right]. unfold Plus, Opt, chr.
    rewrite rmatch_cat, rmatch_cat. cbn [app].
    rewrite rmatch_class, Hi0, rmatch_star.
    destruct frac as [f|].
    - apply forallb_Forall in Hf.
      apply (greedy_star_run is_digit ip);
        [exact Hip|reflexivity| |rewrite length_app; lia].
      rewrite rmatch_cat, rmatch_alt. cbn [txt list_ascii_of_string app].
      rewrite rmatch_class. change (is_char "." ".") with true. cbv iota.
      rewrite rmatch_cat, rmatch_star.
      rewrite (greedy_star_run is_digit f rest c _ v);
        [reflexivity|exact Hf|exact Hr| |rewrite length_app; lia].
      rewrite rmatch_eps. exact Hk.
    - cbn [app].
      apply (greedy_star_run is_digit ip);
        [exact Hip|exact Hr| |rewrite length_app; lia].
      rewrite rmatch_cat, rmatch_alt.
      rewrite rmatch_class_fails by (now apply Hdot). cbn [orelse].
      rewrite rmatch_eps, rmatch_cat, rmatch_star.
      rewrite greedy_star_stop by exact Hr.
      rewrite rmatch_eps. exact Hk. }
  unfold number_re. cbn [cat fold_right]. unfold Opt at 1. unfold chr at 1.
  rewrite <- !app_assoc.
  rewrite rmatch_cat, rmatch_alt.
  destruct neg.
  - cbn [txt list_ascii_of_string app]. rewrite rmatch_class.
    change (is_char "-" "-") with true. cbv iota.
    match goal with
    | |- orelse ?x _ = Some _ =>
        assert (E : x = Some v) by exact K1; rewrite E; reflexivity
    end.
  - cbn [app]. rewrite rmatch_class.
    unfold is_char at 1. rewrite (digit_not_minus i0 Hi0). cbn [orelse].
    rewrite rmatch_eps. exact K1.
Qed.


Lemma wellformed_numeral_text n :
  wellformed_numeral n = true -> number_text (numeral_text n).
Proof.
  destruct n as [neg ip frac]. unfold wellformed_numeral, numeral_text.
  cbn [negative whole fraction]. intros Hw.
  apply andb_prop in Hw as [Hw Hf]. apply andb_prop in Hw as [Hne Hip].
  exists (if neg then txt "-" else []), ip,
         (match frac with Some _ => txt "." | None => [] end),
         (match frac with Some f => f | None => [] end).
  split; [destruct frac; reflexivity|].
  split; [destruct neg; auto|].
  split; [destruct ip; [discriminate|congruence]|].
  split; [now apply forallb_Forall|].
  split; [destruct frac; auto|].
  destruct frac; [now apply forallb_Forall|constructor].
Qed.

(** [float] reads a numeral as its value. *)
Lemma py_float_numeral n :
  wellformed_numeral n = true ->
  py_float (numeral_text n) = Ok (numeral_value n).
Proof.
  destruct n as [neg ip frac]. unfold wellformed_numeral, numeral_text,
    numeral_value. cbn [negative whole fraction]. intros Hw.
  apply andb_prop in Hw as [Hw Hf]. apply andb_prop in Hw as [Hne Hip].
  destruct ip as [|i0 ip]; [discriminate|].
  pose proof Hip as Hip'. cbn [forallb] in Hip'.
  apply andb_prop in Hip' as [Hi0 _].
  apply forallb_Forall in Hip.
  unfold py_float.
  assert (E : forall t,
            (if startswith (txt "-")
                  ((if neg then txt "-" else []) ++ (i0 :: ip) ++ t)
             then drop 1 ((if neg then txt "-" else []) ++ (i0 :: ip) ++ t)
             else (if neg then txt "-" else []) ++ (i0 :: ip) ++ t)
            = (i0 :: ip) ++ t
            /\ startswith (txt "-")
                 ((if neg then txt "-" else []) ++ (i0 :: ip) ++ t) = neg).
  { intros t. destruct neg; [split; reflexivity|].
    cbn [app startswith txt list_ascii_of_string].
    rewrite (digit_not_minus i0 Hi0). split; reflexivity. }
  destruct (E (match frac with Some f => txt "." ++ f | None => [] end))
    as [E1 E2].
  rewrite E1, E2. clear E E1 E2.
  destruct frac as [f|].
  - rewrite take_while_stop, drop_while_stop by (auto; reflexivity).
    cbn [txt list_ascii_of_string app].
    change (is_char "." ".") with true. rewrite Hf. cbn [andb length negb Nat.eqb Nat.add].
    reflexivity.
  - rewrite take_while_stop, drop_while_stop by (auto; exact I).
    reflexivity.
Qed.

Lemma comma_ends_number (s : str) :
  head_fails is_digit (txt "," ++ s)
  /\ head_fails (is_char ".") (txt "," ++ s).
Proof. split; reflexivity. Qed.

Lemma ends_number_heads post :
  ends_number post = true ->
  head_fails is_digit post /\ head_fails (is_char ".") post.
Proof.
  destruct post as [|a post]; [split; exact I|].
  cbn [ends_number head_fails]. intros H. apply andb_prop in H as [H1 H2].
  now apply negb_true_iff in H1, H2.
Qed.

Lemma coords_match la lo post :
  wellformed_numeral la = true -> wellformed_numeral lo = true ->
  ends_number post = true ->
  re_match coords_re
    (txt "q=" ++ numeral_text la ++ txt "," ++ numeral_text lo ++ post)
  = Some (<[2%nat := numeral_text lo]> (<[1%nat := numeral_text la]> ∅)).
Proof.
  intros Hla Hlo Hp. apply ends_number_heads in Hp as [Hp1 Hp2].
  unfold re_match, coords_re. cbn [cat fold_right]. unfold chr.
  rewrite rmatch_cat, rmatch_lit_app, rmatch_cat, rmatch_group.
  apply number_match; [exact Hla|reflexivity|reflexivity|].
  rewrite take_consumed.
  rewrite rmatch_cat. cbn [txt list_ascii_of_string app].
  rewrite rmatch_class. change (is_char "," ",") with true. cbv iota.
  rewrite rmatch_cat, rmatch_group.
  apply number_match; [exact Hlo|exact Hp1|intros _; exact Hp2|].
  rewrite take_consumed. reflexivity.
Qed.

(** The search passes over a front at no place of which the pattern
    matches. *)
Lemma re_search_skip r (pre rest : str) :
  (forall x1 x2, pre = x1 ++ x2 -> x2 <> [] ->
     re_match r (x2 ++ rest) = None) ->
  re_search r (pre ++ rest) = re_search r rest.
Proof.
  induction pre as [|a pre IH]; intros H; [reflexivity|].
  cbn [app re_search].
  pose proof (H [] (a :: pre) eq_refl ltac:(discriminate)) as E.
  cbn [app] in E. rewrite E.
  apply IH. intros x1 x2 -> Hne. now apply (H (a :: x1) x2).
Qed.

Lemma re_search_here r (s : str) m :
  re_match r s = Some m -> re_search r s = Some m.
Proof. intros H. destruct s; cbn [re_search]; now rewrite H. Qed.

Lemma startswith_front (w s t : str) :
  startswith w s = true -> startswith w (s ++ t) = true.
Proof.
  revert s. induction w as [|a w IH]; intros s H; [reflexivity|].
  destruct s as [|b s]; [discriminate|]. cbn [app startswith] in *.
  apply andb_prop in H as [H1 H2]. rewrite H1. now apply IH.
Qed.

Lemma two_groups (a b : str) :
  (<[2%nat := b]> (<[1%nat := a]> ∅) : caps) !! 1%nat = Some a
  /\ (<[2%nat := b]> (<[1%nat := a]> ∅) : caps) !! 2%nat = Some b.
Proof.
  split; [|apply lookup_insert_eq].
  rewrite lookup_insert_ne by done. apply lookup_insert_eq.
Qed.

Lemma startswith_cons a (w s : str) :
  startswith (a :: w) s = true ->
  exists s', s = a :: s' /\ startswith w s' = true.
Proof.
  destruct s as [|b s]; [discriminate|]. cbn [startswith]. intros H.
  apply andb_prop in H as [H1 H2]. apply Ascii.eqb_eq in H1. subst b.
  eauto.
Qed.

Lemma map_step
    (out : list sighting) (r : sighting)
    (pre : str) (la lo : numeral) (post : str) :
  startswith (txt "- Map:") pre = true ->
  occurs_in (txt "q=") pre (txt "q") = false ->
  wellformed_numeral la = true ->
  wellformed_numeral lo = true ->
  ends_number post = true ->
  is_space (List.last (map_line pre la lo post) " "%char) = false ->
  process_line (out, Some r) (map_line pre la lo post)
  = Ok (out, Some (set_lon (set_lat r (numeral_value la))
                           (numeral_value lo))).
Proof.
  intros Hpre Hq Hla Hlo Hpost Hlast.
  assert (Hmap : startswith (txt "- Map:") (map_line pre la lo post) = true)
    by (now apply startswith_front).
  cbn [txt list_ascii_of_string] in Hpre.
  apply startswith_cons in Hpre as (pre1 & -> & Hpre).
  apply startswith_cons in Hpre as (pre2 & -> & Hpre).
  apply startswith_cons in Hpre as (pre & -> & _).
  assert (Hs : strip (map_line ("-"%char :: " "%char :: "M"%char :: pre)
                               la lo post)
               = map_line ("-"%char :: " "%char :: "M"%char :: pre) la lo post).
  { apply strip_clean; [discriminate|reflexivity|exact Hlast]. }
  unfold process_line. rewrite Hs.
  rewrite bullet_no_header by reflexivity. cbn [fst snd].
  unfold field_line.
  replace (startswith (txt "- Reported ") (map_line _ la lo post))
    with false by reflexivity.
  rewrite Hmap.
  unfold map_line at 1.
  rewrite re_search_skip.
  - rewrite (re_search_here _ _ _ (coords_match la lo post Hla Hlo Hpost)).
    unfold float_of_group, group.
    destruct (two_groups (numeral_text la) (numeral_text lo)) as [-> ->].
    rewrite (py_float_numeral la Hla), (py_float_numeral lo Hlo).
    reflexivity.
  - intros x1 x2 E Hne. unfold re_match, coords_re. cbn [cat fold_right].
    rewrite rmatch_cat, rmatch_lit.
    replace (startswith (txt "q=") (x2 ++ txt "q=" ++ numeral_text la
                                       ++ txt "," ++ numeral_text lo ++ post))
      with false; [reflexivity|].
    symmetry.
    change (txt "q=" ++ ?t) with (txt "q" ++ ("="%char :: t)).
    rewrite app_assoc, startswith_more.
    + now apply (occurs_in_split _ _ _ x1 x2 Hq).
    + rewrite length_app. destruct x2; [congruence|]. cbn. lia.
Qed.

(** X19.  A map line gives the record its coordinates.  For a line
    that opens with [- Map:], holds [q=] nowhere before the
    coordinates, and then [q=<lat>,<lon>] with two decimal numerals
    followed by nothing that could belong to a number, the latitude
    and the longitude of the record become the values [float] gives
    the two numerals. *)
Theorem map_line_sets_coordinates
    (out : list sighting) (r : sighting)
    (pre : str) (la lo : numeral) (post : str) :
  startswith (txt "- Map:") pre = true ->
  occurs_in (txt "q=") pre (txt "q") = false ->
  wellformed_numeral la = true ->
  wellformed_numeral lo = true ->
  ends_number post = true ->
  is_space (List.last (map_line pre la lo post) " "%char) = false ->
  py_float (numeral_text la) = Ok (numeral_value la)
  /\ py_float (numeral_text lo) = Ok (numeral_value lo)
  /\ process_line (out, Some r) (map_line pre la lo post)
     = Ok (out, Some (set_lon (set_lat r (numeral_value la))
                              (numeral_value lo))).
Proof.
  intros Hpre Hq Hla Hlo Hpost Hlast.
  split; [now apply py_float_numeral|]. split; [now apply py_float_numeral|].
  now apply map_step.
Qed.

End MapLine.

Section MapLineExamples.
Import Text Regex Extract ExtractSpec LineSpec.

Lemma map_line_sets_coordinates_witness :
  process_line ([], Some (fresh (txt "Snowy Owl") (txt "Bubo scandiacus")
                                (txt "1") true))
    (map_line (txt "- Map: http://maps.google.com/?ie=UTF8&t=p&z=13&")
              plum_lat plum_lon (txt "&ll=42.7608,-70.8006"))
  = Ok ([], Some (set_lon (set_lat (fresh (txt "Snowy Owl")
                                          (txt "Bubo scandiacus")
                                          (txt "1") true)
                                   (numeral_value plum_lat))
                          (numeral_value plum_lon))).
Proof.
  refine (proj2 (proj2 (map_line_sets_coordinates _ _ _ _ _ _ _ _ _ _ _ _)));
    vm_compute; reflexivity.
Defined.

End MapLineExamples.


Section BlockSteps.
Import Text Regex Extract ExtractSpec LineSpec BlockSpec.

Lemma location_step out r loc :
  plain_location loc = true ->
  lat r = None -> location r = [] ->
  process_line (out, Some r) (location_text loc)
  = Ok (out, Some (set_location r loc)).
Proof.
  unfold plain_location, location_text. intros H Hlat Hloc.
  repeat (apply andb_prop in H as [H ?]).
  repeat match goal with
         | H : negb _ = true |- _ => apply negb_true_iff in H
         end.
  destruct loc as [|a loc]; [discriminate|]. cbn [hd] in *.
  assert (Hs : strip (txt "- " ++ a :: loc) = txt "- " ++ a :: loc).
  { apply strip_clean; [discriminate|reflexivity|].
    now rewrite last_app_cons. }
  unfold process_line. rewrite Hs.
  rewrite bullet_no_header by reflexivity. cbn [fst snd].
  unfold field_line.
  match goal with
  | H : field_prefixed _ = false |- _ =>
      unfold field_prefixed in H;
      repeat (apply orb_false_elim in H as [H ?])
  end.
  repeat match goal with
         | H : startswith _ _ = false |- _ => rewrite H; clear H
         end.
  replace (startswith (txt "***") (txt "- " ++ a :: loc)) with false
    by reflexivity.
  replace (startswith (txt "---") (txt "- " ++ a :: loc)) with false.
  2:{ cbn. unfold is_char in *.
      match goal with H : Ascii.eqb "-" a = false |- _ => idtac end.
      reflexivity. }
  replace (startswith (txt "- ") (txt "- " ++ a :: loc)) with true
    by reflexivity.
  unfold lat_is_none. rewrite Hlat, Hloc. cbn [negb andb nonempty].
  assert (Hl : strip (lstrip_by dash_or_blank (txt "- " ++ a :: loc))
               = a :: loc).
  { unfold lstrip_by. cbn [txt list_ascii_of_string app drop_while].
    change (dash_or_blank "-") with true. change (dash_or_blank " ") with true.
    cbv iota.
    assert (Hdb : dash_or_blank a = false).
    { unfold dash_or_blank.
      match goal with H : is_char "-" a = false |- _ => rewrite H end.
      cbn [orb].
      match goal with H : is_space a = false |- _ =>
        unfold is_space in H; repeat (apply orb_false_elim in H as [H ?]) end.
      unfold is_char.
      match goal with H : in_range 32 32 a = false |- _ =>
        unfold in_range in H end.
      destruct (Ascii.eqb_spec " " a) as [<-|]; [discriminate|reflexivity]. }
    rewrite Hdb.
    apply strip_clean; [discriminate|assumption|assumption]. }
  rewrite Hl. reflexivity.
Qed.


Lemma checklist_step out r t :
  is_space (List.last (checklist_text t) " "%char) = false ->
  process_line (out, Some r) (checklist_text t)
  = Ok (out, Some (set_checklist r (strip t))).
Proof.
  intros Hl. unfold checklist_text in *.
  assert (Hs : strip (txt "- Checklist:" ++ t) = txt "- Checklist:" ++ t)
    by (apply strip_clean; [discriminate|reflexivity|exact Hl]).
  unfold process_line. rewrite Hs.
  rewrite bullet_no_header by reflexivity. cbn [fst snd].
  reflexivity.
Qed.

Lemma comments_step out r t :
  is_space (List.last (comments_text t) " "%char) = false ->
  process_line (out, Some r) (comments_text t)
  = Ok (out, Some (set_comments r (strip_by (is_char quote) (strip t)))).
Proof.
  intros Hl. unfold comments_text in *.
  assert (Hs : strip (txt "- Comments:" ++ t) = txt "- Comments:" ++ t)
    by (apply strip_clean; [discriminate|reflexivity|exact Hl]).
  unfold process_line. rewrite Hs.
  rewrite bullet_no_header by reflexivity. cbn [fst snd].
  reflexivity.
Qed.

(** X21.  The location of a record is the first location line below
    its header.  A bullet line that is no field, media or separator
    line, met before the coordinates, gives the record its location,
    the text after the dash and the blank, when the record has none
    yet; a second such line changes nothing. *)
Theorem first_location_line_wins
    (out : list sighting) (r : sighting) (loc other : str) :
  plain_location loc = true ->
  plain_location other = true ->
  lat r = None -> location r = [] ->
  process_line (out, Some r) (location_text loc)
  = Ok (out, Some (set_location r loc))
  /\ process_line (out, Some (set_location r loc)) (location_text other)
     = Ok (out, Some (set_location r loc)).
Proof.
  intros Hloc Hother Hlat Hnone.
  split; [now apply location_step|].
  unfold plain_location, location_text in *.
  repeat (apply andb_prop in Hother as [Hother ?]).
  repeat (apply andb_prop in Hloc as [Hloc ?]).
  repeat match goal with
         | H : negb _ = true |- _ => apply negb_true_iff in H
         end.
  destruct other as [|a other]; [discriminate|].
  destruct loc as [|b loc]; [discriminate|]. cbn [hd] in *.
  assert (Hs : strip (txt "- " ++ a :: other) = txt "- " ++ a :: other).
  { apply strip_clean; [discriminate|reflexivity|].
    now rewrite last_app_cons. }
  unfold process_line. rewrite Hs.
  rewrite bullet_no_header by reflexivity. cbn [fst snd].
  unfold field_line.
  match goal with
  | H : field_prefixed (txt "- " ++ a :: other) = false |- _ =>
      unfold field_prefixed in H;
      repeat (apply orb_false_elim in H as [H ?])
  end.
  repeat match goal with
         | H : startswith _ (txt "- " ++ a :: other) = false |- _ =>
             rewrite H; clear H
         end.
  cbn [set_location location nonempty negb andb].
  rewrite andb_false_r.
  destruct (_ && _); reflexivity.
Qed.

Lemma splitlines_from_line cur l rest :
  unbroken l = true ->
  splitlines_from cur (l ++ txt nl ++ rest)
  = (rev cur ++ l) :: splitlines_from [] rest.
Proof.
  revert cur. induction l as [|a l IH]; intros cur H.
  - rewrite app_nil_r. reflexivity.
  - cbn [unbroken forallb] in H. apply andb_prop in H as [Ha H].
    apply negb_true_iff in Ha. cbn [app splitlines_from].
    assert (Hcr : is_char "013" a = false).
    { unfold is_char. destruct (Ascii.eqb_spec "013" a) as [<-|]; [|reflexivity].
      discriminate Ha. }
    rewrite Hcr, Ha. rewrite (IH (a :: cur) H). cbn [rev].
    now rewrite <- app_assoc.
Qed.

Lemma splitlines_lines lines :
  forallb unbroken lines = true -> splitlines (lines_text lines) = lines.
Proof.
  unfold splitlines. induction lines as [|l lines IH]; intros H; [reflexivity|].
  cbn [forallb] in H. apply andb_prop in H as [Hl H].
  cbn [lines_text flat_map]. rewrite <- app_assoc.
  rewrite splitlines_from_line by exact Hl. cbn [rev app].
  f_equal. now apply IH.
Qed.

(** X22.  A whole block.  The six lines of an alert (header, report
    line, location, map line, checklist and comments), each of the
    shape its pattern reads back and none holding a line boundary,
    give exactly one record, which holds the name, scientific name,
    count and confirmation of the header, the date and observer of the
    report line, the location, the two coordinates, the checklist
    address and the comments without their quotation marks, when the
    latitude is not zero. *)
Theorem alert_block_gives_its_record
    name sci cnt conf d o loc pre la lo post url text :
  plain_name name = true -> sci_name sci = true ->
  match cnt with
  | Some n => digits n = true
  | None => no_close sci = true
  end ->
  plain_date d = true -> one_line o = true ->
  is_space (List.last o " "%char) = false ->
  plain_location loc = true ->
  startswith (txt "- Map:") pre = true ->
  occurs_in (txt "q=") pre (txt "q") = false ->
  wellformed_numeral la = true -> wellformed_numeral lo = true ->
  ends_number post = true ->
  is_space (List.last (map_line pre la lo post) " "%char) = false ->
  is_space (List.last (checklist_text url) " "%char) = false ->
  is_space (List.last (comments_text text) " "%char) = false ->
  forallb unbroken
    (block_lines name sci cnt conf d o loc pre la lo post url text) = true ->
  Float.truthy (numeral_value la) = true ->
  parse_sightings
    (lines_text
       (block_lines name sci cnt conf d o loc pre la lo post url text))
  = Ok [block_record name sci cnt conf d o loc la lo url text].
Proof.
  intros Hn Hs Hc Hd Ho Hol Hloc Hpre Hq Hla Hlo Hpost Hml Hcl Hco Hu Ht.
  unfold parse_sightings. rewrite (splitlines_lines _ Hu).
  unfold block_lines. cbn [run_lines].
  rewrite (header_step ([], None) name sci cnt conf Hn Hs Hc).
  cbn [mbind result_bind fst snd flush].
  set (r0 := fresh name sci (default (txt "?") cnt) conf).
  rewrite (reported_step [] r0 d o Hd Ho Hol). cbn [mbind result_bind].
  rewrite (location_step [] (set_reported r0 d o) loc Hloc eq_refl eq_refl).
  cbn [mbind result_bind].
  rewrite (map_step [] _ pre la lo post Hpre Hq Hla Hlo Hpost Hml).
  cbn [mbind result_bind].
  rewrite (checklist_step [] _ url Hcl). cbn [mbind result_bind].
  rewrite (comments_step [] _ text Hco). cbn [mbind result_bind fst snd].
  unfold flush, lat_truthy.
  cbn [lat set_comments set_checklist set_lon set_lat].
  rewrite Ht. reflexivity.
Qed.


Lemma flush_prefix p out cur : flush (p ++ out) cur = p ++ flush out cur.
Proof.
  unfold flush. destruct cur as [r|]; [|reflexivity].
  destruct (lat_truthy (Some r)); [now rewrite app_assoc|reflexivity].
Qed.

Lemma field_line_prefix p out r line out' cur' :
  field_line out r line = Ok (out', cur') ->
  field_line (p ++ out) r line = Ok (p ++ out', cur').
Proof.
  unfold field_line.
  repeat match goal with
         | |- context [if ?b then _ else _] => destruct b
         | |- context [match ?x with Some _ => _ | None => _ end] => destruct x
         | |- context [mbind _ ?x] => destruct x; cbn [mbind result_bind]
         end;
    intros H; try discriminate; injection H as <- <-; reflexivity.
Qed.

Lemma process_line_prefix p out cur raw out' cur' :
  process_line (out, cur) raw = Ok (out', cur') ->
  process_line (p ++ out, cur) raw = Ok (p ++ out', cur').
Proof.
  unfold process_line. cbn [fst snd].
  destruct (re_match header_re (strip raw)).
  - intros [= <- <-]. now rewrite flush_prefix.
  - destruct cur as [r|]; [apply field_line_prefix|].
    now intros [= <- <-].
Qed.

(** What was put out stays in front of what is put out later. *)
Lemma run_lines_prefix p lines : forall out cur out' cur',
  run_lines (out, cur) lines = Ok (out', cur') ->
  run_lines (p ++ out, cur) lines = Ok (p ++ out', cur').
Proof.
  induction lines as [|l lines IH]; intros out cur out' cur'; cbn [run_lines].
  - now intros [= <- <-].
  - destruct (process_line (out, cur) l) as [[o1 c1]|] eqn:E; [|discriminate].
    cbn [mbind result_bind]. intros H.
    rewrite (process_line_prefix p _ _ _ _ _ E). cbn [mbind result_bind].
    now apply IH.
Qed.

Lemma run_lines_app l1 l2 st :
  run_lines st (l1 ++ l2) = (st' ← run_lines st l1; run_lines st' l2).
Proof.
  revert st. induction l1 as [|l l1 IH]; intros st; [reflexivity|].
  cbn [app run_lines]. destruct (process_line st l); [|reflexivity].
  cbn [mbind result_bind]. apply IH.
Qed.

(** X23.  Blocks are read independently.  When a text is cut in front
    of a header line, its records are the records of the part before
    the cut followed by the records of the part from the header on:
    nothing of a record crosses a header. *)
Theorem blocks_are_independent (before after : list str) (header : str) :
  ExtractInv.header_of header <> None ->
  forallb unbroken (before ++ header :: after) = true ->
  exists r1 r2,
    parse_sightings (lines_text before) = Ok r1 /\
    parse_sightings (lines_text (header :: after)) = Ok r2 /\
    parse_sightings (lines_text (before ++ header :: after))
    = Ok (r1 ++ r2).
Proof.
  intros Hh Hu.
  assert (Hu' := Hu). rewrite forallb_app in Hu'.
  apply andb_prop in Hu' as [Hu1 Hu2].
  unfold parse_sightings.
  rewrite !splitlines_lines by assumption.
  rewrite run_lines_app.
  destruct (run_lines_returns before ([], None)) as [[o1 c1] E1].
  rewrite E1. cbn [mbind result_bind fst snd run_lines].
  unfold ExtractInv.header_of in Hh. unfold process_line. cbn [fst snd].
  destruct (re_match header_re (strip header)) as [m|]; [|congruence].
  cbn [mbind result_bind flush].
  destruct (run_lines_returns after ([], Some (new_record m))) as [[o2 c2] E2].
  rewrite E2. cbn [mbind result_bind fst snd].
  pose proof (run_lines_prefix (flush o1 c1) after [] _ _ _ E2) as E3.
  rewrite app_nil_r in E3. rewrite E3. cbn [mbind result_bind fst snd].
  exists (flush o1 c1), (flush o2 c2).
  split; [reflexivity|]. split; [reflexivity|].
  now rewrite flush_prefix.
Qed.

End BlockSteps.

Section BlockExamples.
Import Text Regex Extract ExtractSpec LineSpec BlockSpec.

Lemma first_location_line_wins_witness :
  process_line ([], Some (fresh (txt "Snowy Owl") (txt "Bubo scandiacus")
                                (txt "1") true))
               (location_text (txt "Plum Island, Essex"))
  = Ok ([], Some (set_location
                    (fresh (txt "Snowy Owl") (txt "Bubo scandiacus")
                           (txt "1") true)
                    (txt "Plum Island, Essex"))).
Proof.
  refine (proj1 (first_location_line_wins _ _ _ (txt "Parker River") _ _ _ _));
    vm_compute; reflexivity.
Defined.

Lemma alert_block_gives_its_record_witness :
  parse_sightings
    (lines_text
       (block_lines (txt "Snowy Owl") (txt "Bubo scandiacus")
          (Some (txt "1")) true
          (txt "Feb 05, 2026 15:08") (txt "Jane Doe")
          (txt "Plum Island, Essex")
          (txt "- Map: http://maps.google.com/?ie=UTF8&t=p&z=13&")
          plum_lat plum_lon (txt "&ll=42.7608,-70.8006")
          (txt " https://ebird.org/checklist/S1")
          (txt " seen from the road")))
  = Ok [block_record (txt "Snowy Owl") (txt "Bubo scandiacus")
          (Some (txt "1")) true
          (txt "Feb 05, 2026 15:08") (txt "Jane Doe")
          (txt "Plum Island, Essex") plum_lat plum_lon
          (txt " https://ebird.org/checklist/S1")
          (txt " seen from the road")].
Proof.
  apply alert_block_gives_its_record; vm_compute; reflexivity.
Defined.

Lemma blocks_are_independent_witness :
  exists r1 r2,
    parse_sightings (lines_text [txt "Rare Bird Alert"]) = Ok r1 /\
    parse_sightings
      (lines_text [header_line (txt "Snowy Owl") (txt "Bubo scandiacus")
                     (Some (txt "1")) true;
                   txt "- Map: q=42.5,-70.5"]) = Ok r2 /\
    parse_sightings
      (lines_text ([txt "Rare Bird Alert"]
                   ++ header_line (txt "Snowy Owl") (txt "Bubo scandiacus")
                        (Some (txt "1")) true
                   :: [txt "- Map: q=42.5,-70.5"]))
    = Ok (r1 ++ r2).
Proof.
  apply blocks_are_independent.
  - vm_compute. discriminate.
  - vm_compute. reflexivity.
Defined.

End BlockExamples.
